(** * googlemapsScraper: the extraction-and-reconciliation controller

    A shallow embedding of [src/combined-scraper.js] (class
    [CombinedGoogleMapsScraper]) and the properties of its run loop.

    Conventions of the embedding.
    - A JavaScript string is a [string]: a sequence of character codes.
      [undefined] and [null] field values are represented by the empty
      string, which has the same truthiness.  Selectors are written without
      their inner quotation marks.
    - The browser page and the Supabase store are external.  Every call to
      them is answered by an oracle, a field of [World], indexed by a clock
      that counts the calls made so far; the theorems quantify over all
      oracles.
    - Local variables that the JavaScript mutates live in a state record
      that is threaded through the functions and that survives a [throw],
      as the variables do.  The record also keeps the trace of the calls of
      the extractor, of the commit pipeline and of the progress callback.
    - [Number]s that count things are [nat].  The percentage passed to the
      progress callback is computed in the arithmetic that the world
      provides ([Numbers]); the scenarios use exact rational arithmetic.
    - The outer loop of [scrapeUrlsAndDetails] takes fuel, and answers
      [None] when the fuel does not suffice; all other loops are bounded by
      the data they run over. *)

From Stdlib Require Import Ascii QArith Qround.
From stdpp Require Import base decidable list gmap strings.

(** ** Strings *)

Module Js.

(** [/\d/]: the ten ASCII digits. *)
Definition isDigit (c : ascii) : bool :=
  match Ascii.is_nat c with Some _ => true | None => false end.

(** WhiteSpace and LineTerminator code points below 256 ([trim]). *)
Definition isWhiteSpace (c : ascii) : bool :=
  match c with
  | "009" | "010" | "011" | "012" | "013" | " " | "160" => true
  | _ => false
  end%char.

(** [s.replace(/\D/g, '')] *)
Fixpoint stripNonDigits (s : string) : string :=
  match s with
  | "" => ""
  | String c s' =>
      if isDigit c then String c (stripNonDigits s') else stripNonDigits s'
  end.

Fixpoint trimStart (s : string) : string :=
  match s with
  | "" => ""
  | String c s' => if isWhiteSpace c then trimStart s' else s
  end.

Definition trimEnd (s : string) : string :=
  String.rev (trimStart (String.rev s)).

(** [s.trim()] *)
Definition trim (s : string) : string := trimEnd (trimStart s).

(** [s.startsWith(p)] *)
Fixpoint startsWith (p s : string) : bool :=
  match p, s with
  | "", _ => true
  | String a p', String b s' => if decide (a = b) then startsWith p' s' else false
  | String _ _, "" => false
  end.

(** [s.includes(p)] *)
Fixpoint includes (p s : string) : bool :=
  startsWith p s ||
  match s with
  | "" => false
  | String _ s' => includes p s'
  end.

(** Truthiness of a string value: only the empty string is falsy. *)
Definition truthy (s : string) : bool :=
  match s with "" => false | _ => true end.

End Js.

(** ** Phone numbers: [formatPhoneNumber] *)

Definition formatPhoneNumber (phoneNumber : string) : string :=
  if negb (Js.truthy phoneNumber) || negb (Js.truthy (Js.trim phoneNumber)) then ""
  else
    let digits := Js.stripNonDigits phoneNumber in
    if String.length digits =? 10 then "+1" +:+ digits
    else if (String.length digits =? 11) && Js.startsWith "1" digits then "+" +:+ digits
    else if (String.length digits =? 11) && negb (Js.startsWith "1" digits) then "+" +:+ digits
    else if 11 <? String.length digits then "+" +:+ digits
    else if String.length digits =? 7 then "+1" +:+ digits
    else if Js.startsWith "+" phoneNumber then phoneNumber else "+" +:+ digits.

(** ** Records *)

(** The object built by [extractBusinessDetails] and kept in [results]. *)
Record Details := {
  Business_Name : string;
  Company_Type : string;
  Rating : string;
  Reviews : string;
  Address : string;
  Phone_Number : string;
  Website : string;
  URL : string;
  Email : string;
  Instagram : string;
  LinkedIn : string;
  Facebook : string
}.

(** A row of the [business_results] table. *)
Record Row := {
  business_name : string;
  company_type : string;
  rating : string;
  reviews : string;
  address : string;
  phone_number : string;
  website : string;
  url : string;
  email : string;
  instagram : string;
  linkedin : string;
  facebook : string;
  search_session_id : string
}.

(** [details[k] || ''] is the identity on the string representation. *)
Definition mapToSupabaseColumns (details : Details) : Row :=
  {| business_name := Business_Name details;
     company_type := Company_Type details;
     rating := Rating details;
     reviews := Reviews details;
     address := Address details;
     phone_number := Phone_Number details;
     website := Website details;
     url := URL details;
     email := Email details;
     instagram := Instagram details;
     linkedin := LinkedIn details;
     facebook := Facebook details;
     search_session_id := "" |}.

(** [if (sessionId) mappedDetails['search_session_id'] = sessionId] *)
Definition withSession (sessionId : string) (data : Row) : Row :=
  if Js.truthy sessionId then
    {| business_name := business_name data;
       company_type := company_type data;
       rating := rating data;
       reviews := reviews data;
       address := address data;
       phone_number := phone_number data;
       website := website data;
       url := url data;
       email := email data;
       instagram := instagram data;
       linkedin := linkedin data;
       facebook := facebook data;
       search_session_id := sessionId |}
  else data.

(** The conversion of step 5 of [scrapeAndEnrich], database format back to
    scraper format. *)
Definition fromSupabaseColumns (dbResult : Row) : Details :=
  {| Business_Name := business_name dbResult;
     Company_Type := company_type dbResult;
     Rating := rating dbResult;
     Reviews := reviews dbResult;
     Address := address dbResult;
     Phone_Number := phone_number dbResult;
     Website := website dbResult;
     URL := url dbResult;
     Email := email dbResult;
     Instagram := instagram dbResult;
     LinkedIn := linkedin dbResult;
     Facebook := facebook dbResult |}.

(** ** The outside world *)

(** The result of a call that may throw. *)
Inductive outcome (A : Type) : Type :=
  | Returned (a : A)
  | Thrown (message : string).
Arguments Returned {A} a.
Arguments Thrown {A} message.

(** The [{ data, error }] object a Supabase query resolves to. *)
Record reply (A : Type) : Type := Reply {
  data : option A;
  error : option string
}.
Arguments Reply {A} data error.
Arguments data {A} r.
Arguments error {A} r.

(** An [a.hfpxzc] element handle: what [getAttribute('href')] and the
    sponsored-entry probe answer on it; [None] when the call throws. *)
Record Card := {
  href : option string;
  isSponsored : option bool
}.

(** The text read from a detail view, after the per-field cleanup and before
    phone formatting. *)
Record Scraped := {
  businessName : string;
  companyType : string;
  ratingText : string;
  reviewsText : string;
  addressText : string;
  websiteHref : string;
  phoneText : string
}.

(** The arithmetic of JavaScript's [Number]s, as far as the percentage of
    the progress callback needs it: the numbers that stand for the counters,
    division, multiplication, [Math.round] and the order. *)
Record Numbers := {
  Number : Type;
  ofNat : nat → Number;
  divide : Number → Number → Number;
  times : Number → Number → Number;
  Math_round : Number → Z;
  atMost : Number → Number → Prop
}.

(** Every oracle takes the clock value of the call as its first argument.
    [goto], [waitForSelector] and [scrollBy] answer [Some message] when the
    call throws. *)
Record World := {
  numbers : Numbers;
  encodeURIComponent : string → string;
  goto : nat → string → option string;
  waitForSelector : nat → string → option string;
  querySelector : nat → string → outcome bool;
  querySelectorAll : nat → outcome (list Card);
  scrollBy : nat → option string;
  endOfListShown : nat → outcome bool;
  now : nat → nat;
  readDetails : nat → string → option Scraped;
  storeInsert : nat → Row → outcome (reply (list Row));
  storeSelectUrls : nat → outcome (reply (list string));
  storeNewSession : nat → option string;
  storeSelectRecent : nat → nat → outcome (reply (list Row))
}.

Definition mapsUrl (w : World) (searchTerm location : string) : string :=
  "https://www.google.com/maps/search/" +:+ encodeURIComponent w searchTerm
    +:+ "+" +:+ encodeURIComponent w location.

(** The type of the progress callback: clock, percentage, snapshot; [Some
    message] when the callback throws. *)
Definition Callback (A : Type) : Type := nat → Z → list A → option string.

(** [Math.round((done / total) * 100)] *)
Definition percent (w : World) (done total : nat) : Z :=
  let N := numbers w in
  Math_round N (times N (divide N (ofNat N done) (ofNat N total)) (ofNat N 100)).

(** ** Page helpers

    These functions touch nothing but the page, so they pass the clock
    alone. *)

(** [for (scroll = 0; scroll < scrollCount; scroll++) scrollable.evaluate(..)] *)
Fixpoint scrollTimes (w : World) (scrollCount : nat) (t : nat) : outcome unit * nat :=
  match scrollCount with
  | 0 => (Returned tt, t)
  | S n =>
      match scrollBy w t with
      | Some message => (Thrown message, S t)
      | None => scrollTimes w n (S t)
      end
  end.

(** The common tail of the two navigation helpers: find the feed and scroll
    back to the approximate position. *)
Definition scrollToPosition (w : World) (currentIndex : nat) (t : nat) : outcome unit * nat :=
  match querySelector w t "div[role=feed]" with
  | Thrown message => (Thrown message, S t)
  | Returned true => scrollTimes w (currentIndex / 8) (S t)
  | Returned false => (Returned tt, S t)
  end.

(** The whole body is inside [try]/[catch]: the helper never throws. *)
Definition reloadPageAndScrollToPosition
    (w : World) (listUrl : string) (currentIndex : nat) (t : nat) : nat :=
  match goto w t listUrl with
  | Some _ => S t
  | None =>
      match waitForSelector w (S t) "a.hfpxzc" with
      | Some _ => S (S t)
      | None => snd (scrollToPosition w currentIndex (S (S t)))
      end
  end.

Definition navigateBackToList
    (w : World) (listUrl : string) (currentIndex : nat) (t : nat) : nat :=
  let attempt :=
    match goto w t listUrl with
    | Some message => (Thrown message, S t)
    | None =>
        match waitForSelector w (S t) "a.hfpxzc" with
        | Some message => (Thrown message, S (S t))
        | None => scrollToPosition w currentIndex (S (S t))
        end
    end in
  match attempt with
  | (Returned _, t') => t'
  | (Thrown _, t') => reloadPageAndScrollToPosition w listUrl currentIndex t'
  end.

Definition emptyDetails (link : string) : Details :=
  {| Business_Name := ""; Company_Type := ""; Rating := ""; Reviews := "";
     Address := ""; Phone_Number := ""; Website := ""; URL := link;
     Email := ""; Instagram := ""; LinkedIn := ""; Facebook := "" |}.

(** Any fault inside is caught and answered with the empty record; the
    record always carries the URL it was asked for. *)
Definition extractBusinessDetails (w : World) (link : string) (t : nat) : Details * nat :=
  match goto w t link with
  | Some _ => (emptyDetails link, S t)
  | None =>
      match waitForSelector w (S t) "[role=main]" with
      | Some _ => (emptyDetails link, S (S t))
      | None =>
          match readDetails w (S (S t)) link with
          | None => (emptyDetails link, S (S (S t)))
          | Some page =>
              ({| Business_Name := businessName page;
                  Company_Type := companyType page;
                  Rating := ratingText page;
                  Reviews := reviewsText page;
                  Address := addressText page;
                  Phone_Number := formatPhoneNumber (phoneText page);
                  Website := websiteHref page;
                  URL := link;
                  Email := ""; Instagram := ""; LinkedIn := ""; Facebook := "" |},
               S (S (S t)))
          end
      end
  end.

(** ** The commit pipeline: [insertWithRetry] *)

Definition duplicateMessage : string :=
  "duplicate key value violates unique constraint".

(** [remaining] counts the attempts left, [maxRetries - attempt + 1].  A
    thrown or non-duplicate error is retried; on the last attempt the
    [catch] block returns [false], which is what the recursion answers when
    no attempt is left. *)
Fixpoint insertAttempts (w : World) (record : Row) (remaining : nat) (t : nat) : bool * nat :=
  match remaining with
  | 0 => (false, t)
  | S remaining' =>
      match storeInsert w t record with
      | Returned (Reply insertedData (Some message)) =>
          if Js.includes duplicateMessage message then (true, S t)
          else insertAttempts w record remaining' (S t)
      | Returned (Reply insertedData None) =>
          match insertedData with
          | Some (_ :: _) => (true, S t)
          | _ => (false, S t)
          end
      | Thrown _ => insertAttempts w record remaining' (S t)
      end
  end.

Definition insertWithRetry (w : World) (record : Row) (t : nat) : bool * nat :=
  insertAttempts w record 3 t.

(** ** The main loop: [scrapeUrlsAndDetails] *)

(** What a run does that an observer can see. *)
Inductive Event :=
  | Extract (link : string)
      (** [extractBusinessDetails(url, page)] was called *)
  | Insert (record : Row) (insertSuccess : bool)
      (** [insertWithRetry(mappedDetails)] was called and answered *)
  | Progress (percentage : Z) (snapshot : list Details).
      (** [progressCb(percentage, [...results])] was called *)

(** The mutable locals of [scrapeUrlsAndDetails], with the clock and the
    trace of events. *)
Record Locals := {
  clock : nat;
  trace : list Event;
  results : list Details;
  newFound : nat;
  processedUrls : gset string;
  duplicatesSkipped : nat;
  currentUpdatedIndex : nat;
  allCards : list Card;
  scrollAttempts : nat
}.

Definition set_clock (t : nat) (s : Locals) : Locals :=
  {| clock := t; trace := trace s; results := results s; newFound := newFound s;
     processedUrls := processedUrls s; duplicatesSkipped := duplicatesSkipped s;
     currentUpdatedIndex := currentUpdatedIndex s; allCards := allCards s;
     scrollAttempts := scrollAttempts s |}.

Definition emit (e : Event) (s : Locals) : Locals :=
  {| clock := clock s; trace := trace s ++ [e]; results := results s;
     newFound := newFound s; processedUrls := processedUrls s;
     duplicatesSkipped := duplicatesSkipped s;
     currentUpdatedIndex := currentUpdatedIndex s; allCards := allCards s;
     scrollAttempts := scrollAttempts s |}.

(** [results.push(details); newFound++] *)
Definition pushResult (details : Details) (s : Locals) : Locals :=
  {| clock := clock s; trace := trace s; results := results s ++ [details];
     newFound := S (newFound s); processedUrls := processedUrls s;
     duplicatesSkipped := duplicatesSkipped s;
     currentUpdatedIndex := currentUpdatedIndex s; allCards := allCards s;
     scrollAttempts := scrollAttempts s |}.

(** [processedUrls.add(url)] *)
Definition addProcessed (link : string) (s : Locals) : Locals :=
  {| clock := clock s; trace := trace s; results := results s; newFound := newFound s;
     processedUrls := {[link]} ∪ processedUrls s;
     duplicatesSkipped := duplicatesSkipped s;
     currentUpdatedIndex := currentUpdatedIndex s; allCards := allCards s;
     scrollAttempts := scrollAttempts s |}.

(** [duplicatesSkipped++] *)
Definition skipDuplicate (s : Locals) : Locals :=
  {| clock := clock s; trace := trace s; results := results s; newFound := newFound s;
     processedUrls := processedUrls s;
     duplicatesSkipped := S (duplicatesSkipped s);
     currentUpdatedIndex := currentUpdatedIndex s; allCards := allCards s;
     scrollAttempts := scrollAttempts s |}.

Definition set_currentUpdatedIndex (i : nat) (s : Locals) : Locals :=
  {| clock := clock s; trace := trace s; results := results s; newFound := newFound s;
     processedUrls := processedUrls s; duplicatesSkipped := duplicatesSkipped s;
     currentUpdatedIndex := i; allCards := allCards s;
     scrollAttempts := scrollAttempts s |}.

(** [allCards = await this.page.$$('a.hfpxzc')] *)
Definition set_allCards (cards : list Card) (s : Locals) : Locals :=
  {| clock := clock s; trace := trace s; results := results s; newFound := newFound s;
     processedUrls := processedUrls s; duplicatesSkipped := duplicatesSkipped s;
     currentUpdatedIndex := currentUpdatedIndex s; allCards := cards;
     scrollAttempts := scrollAttempts s |}.

(** [scrollAttempts++] *)
Definition countScroll (s : Locals) : Locals :=
  {| clock := clock s; trace := trace s; results := results s; newFound := newFound s;
     processedUrls := processedUrls s; duplicatesSkipped := duplicatesSkipped s;
     currentUpdatedIndex := currentUpdatedIndex s; allCards := allCards s;
     scrollAttempts := S (scrollAttempts s) |}.

(** [results.splice(n)] *)
Definition spliceResults (n : nat) (s : Locals) : Locals :=
  {| clock := clock s; trace := trace s; results := take n (results s);
     newFound := newFound s; processedUrls := processedUrls s;
     duplicatesSkipped := duplicatesSkipped s;
     currentUpdatedIndex := currentUpdatedIndex s; allCards := allCards s;
     scrollAttempts := scrollAttempts s |}.

Definition tick (s : Locals) : Locals := set_clock (S (clock s)) s.

Definition maxScrollAttempts : nat := 50.

(** The inner [while]: scroll until enough cards are loaded or the scroll
    budget is spent.  Every round increments [scrollAttempts], so the loop
    makes at most [maxScrollAttempts] rounds, which is the [fuel] it is
    called with. *)
Fixpoint scrollForCards (w : World) (wanted : nat) (fuel : nat) (s : Locals)
    : outcome unit * Locals :=
  match fuel with
  | 0 => (Returned tt, s)
  | S fuel' =>
      if (length (allCards s) <? wanted) && (scrollAttempts s <? maxScrollAttempts) then
        match scrollBy w (clock s) with
        | Some message => (Thrown message, tick s)
        | None =>
            match querySelectorAll w (S (clock s)) with
            | Thrown message => (Thrown message, tick (tick s))
            | Returned cards =>
                scrollForCards w wanted fuel' (countScroll (set_allCards cards (tick (tick s))))
            end
        end
      else (Returned tt, s)
  end.

(** [if (allCards.length < currentUpdatedIndex + targetResults + buffer) ..] *)
Definition loadCards (w : World) (targetResults buffer : nat) (s : Locals)
    : outcome unit * Locals :=
  let wanted := currentUpdatedIndex s + targetResults + buffer in
  if length (allCards s) <? wanted then
    match querySelectorAll w (clock s) with
    | Thrown message => (Thrown message, tick s)
    | Returned cards =>
        scrollForCards w wanted maxScrollAttempts (set_allCards cards (tick s))
    end
  else (Returned tt, s).

(** The [for] loop that fills [urlsToProcess], over the cards from index [i]
    on.  [limit] is [targetResults - newFound + 5]. *)
Fixpoint collectUrls (existingUrls : gset string) (limit : nat) (i : nat)
    (cards : list Card) (urlsToProcess : list (string * nat)) (s : Locals)
    : list (string * nat) * Locals :=
  match cards with
  | [] => (urlsToProcess, s)
  | card :: cards' =>
      match href card with
      | None => collectUrls existingUrls limit (S i) cards' urlsToProcess s
      | Some link =>
          if decide (link ∈ processedUrls s) then
            collectUrls existingUrls limit (S i) cards' urlsToProcess (skipDuplicate s)
          else if decide (link ∈ existingUrls) then
            collectUrls existingUrls limit (S i) cards' urlsToProcess (skipDuplicate s)
          else
            let queue := urlsToProcess ++ [(link, i)] in
            if limit <=? length queue then (queue, addProcessed link s)
            else collectUrls existingUrls limit (S i) cards' queue (addProcessed link s)
      end
  end.

(** The validation of the essential details. *)
Definition incomplete (details : Details) : bool :=
  negb (Js.truthy (Business_Name details))
  || negb (Js.truthy (Address details))
  || negb (Js.truthy (Phone_Number details)).

Section Controller.

Variable w : World.
Variable progressCb : Callback Details.
Variable listUrl : string.
Variable targetResults : nat.
Variable sessionId : string.
Variable existingUrls : gset string.

(** [if (insertSuccess) { results.push(details); newFound++; progressCb(..) }] *)
Definition recordInsert (details : Details) (insertSuccess : bool) (s : Locals)
    : outcome unit * Locals :=
  if insertSuccess then
    let s1 := pushResult details s in
    let percentage := percent w (newFound s1) targetResults in
    let s2 := emit (Progress percentage (results s1)) (tick s1) in
    match progressCb (clock s1) percentage (results s1) with
    | Some message => (Thrown message, s2)
    | None => (Returned tt, s2)
    end
  else (Returned tt, s).

(** The [try] block of the per-URL loop body. *)
Definition processTry (link : string) (index : nat) (s : Locals) : outcome unit * Locals :=
  match goto w (clock s) link with
  | Some message => (Thrown message, tick s)
  | None =>
      let '(details, t1) := extractBusinessDetails w link (S (clock s)) in
      let s1 := emit (Extract link) (set_clock t1 s) in
      if incomplete details then
        (Returned tt, set_currentUpdatedIndex (index + 1) s1)
      else
        let mappedDetails := withSession sessionId (mapToSupabaseColumns details) in
        let '(insertSuccess, t2) := insertWithRetry w mappedDetails (clock s1) in
        let s2 := emit (Insert mappedDetails insertSuccess) (set_clock t2 s1) in
        match recordInsert details insertSuccess s2 with
        | (Thrown message, s3) => (Thrown message, s3)
        | (Returned _, s3) =>
            let t3 := navigateBackToList w listUrl (index + 1) (clock s3) in
            (Returned tt, set_currentUpdatedIndex (index + 1) (set_clock t3 s3))
        end
  end.

Definition contextDestroyed (message : string) : bool :=
  Js.includes "Execution context was destroyed" message
  || Js.includes "Target page, context or browser has been closed" message.

(** One round of the per-URL loop: the [try] block and its [catch]. *)
Definition processUrl (link : string) (index : nat) (s : Locals) : Locals :=
  match processTry link index s with
  | (Returned _, s') => s'
  | (Thrown message, s') =>
      let s'' :=
        if contextDestroyed message
        then set_clock (reloadPageAndScrollToPosition w listUrl (index + 1) (clock s')) s'
        else s' in
      set_currentUpdatedIndex (index + 1) s''
  end.

(** [for (i = 0; i < urlsToProcess.length && newFound < targetResults; i++)] *)
Fixpoint processUrls (urlsToProcess : list (string * nat)) (s : Locals) : Locals :=
  match urlsToProcess with
  | [] => s
  | (link, index) :: rest =>
      if newFound s <? targetResults then processUrls rest (processUrl link index s)
      else s
  end.

(** The body of the outer [while]. *)
Definition mainStep (buffer : nat) (s : Locals) : outcome unit * Locals :=
  match loadCards w targetResults buffer s with
  | (Thrown message, s1) => (Thrown message, s1)
  | (Returned _, s1) =>
      let '(urlsToProcess, s2) :=
        collectUrls existingUrls (targetResults - newFound s1 + 5)
          (currentUpdatedIndex s1) (drop (currentUpdatedIndex s1) (allCards s1)) [] s1 in
      let s3 := processUrls urlsToProcess s2 in
      if newFound s3 <? targetResults
      then (Returned tt, set_currentUpdatedIndex (length (allCards s3)) s3)
      else (Returned tt, s3)
  end.

(** [while (newFound < targetResults && scrollAttempts < maxScrollAttempts)];
    [None] when [fuel] rounds were not enough. *)
Fixpoint mainLoop (fuel : nat) (buffer : nat) (s : Locals) : option (outcome unit * Locals) :=
  if (newFound s <? targetResults) && (scrollAttempts s <? maxScrollAttempts) then
    match fuel with
    | 0 => None
    | S fuel' =>
        match mainStep buffer s with
        | (Thrown message, s') => Some (Thrown message, s')
        | (Returned _, s') => mainLoop fuel' buffer s'
        end
    end
  else Some (Returned tt, s).

End Controller.

(** The object [scrapeUrlsAndDetails] resolves to. *)
Module ScrapeResult.
Record t := {
  newFound : nat;
  updatedIndex : nat;
  results : list Details
}.
End ScrapeResult.

(** The locals as declared above the [try] block. *)
Definition initialLocals (t : nat) (updatedIndex : nat) : Locals :=
  {| clock := t; trace := []; results := []; newFound := 0; processedUrls := ∅;
     duplicatesSkipped := 0; currentUpdatedIndex := updatedIndex; allCards := [];
     scrollAttempts := 0 |}.

(** [{ newFound: results.length, updatedIndex: currentUpdatedIndex, results }] *)
Definition resultOf (s : Locals) : ScrapeResult.t :=
  {| ScrapeResult.newFound := length (results s);
     ScrapeResult.updatedIndex := currentUpdatedIndex s;
     ScrapeResult.results := results s |}.

(** Opening the list view: [goto], then the two [waitForSelector] calls. *)
Definition openList (w : World) (listUrl : string) (t : nat) : outcome unit * nat :=
  match goto w t listUrl with
  | Some message => (Thrown message, S t)
  | None =>
      match waitForSelector w (S t) "div[role=feed], div[aria-label*=Results for]" with
      | Some message => (Thrown message, S (S t))
      | None =>
          match waitForSelector w (S (S t)) ".XltNde.tTVLSc" with
          | Some message => (Thrown message, S (S (S t)))
          | None => (Returned tt, S (S (S t)))
          end
      end
  end.

(** [desiredNewResults || maxResults] *)
Definition orElse (desiredNewResults : option nat) (maxResults : nat) : nat :=
  match desiredNewResults with
  | Some (S n) => S n
  | _ => maxResults
  end.

Section ScrapeUrlsAndDetails.

Variable w : World.
Variables searchTerm location : string.
Variable maxResults : nat.
Variable progressCb : Callback Details.
Variable updatedIndex : nat.
Variable sessionId : string.
Variable desiredNewResults : option nat.
Variable buffer : nat.
Variable existingUrls : gset string.

(** The [try] block.  [None] when [fuel] rounds of the main loop were not
    enough. *)
Definition scrapeTry (fuel : nat) (t : nat) : option (outcome ScrapeResult.t * Locals) :=
  let s0 := initialLocals t updatedIndex in
  let targetResults := orElse desiredNewResults maxResults in
  let listUrl := mapsUrl w searchTerm location in
  match openList w listUrl t with
  | (Thrown message, t1) => Some (Thrown message, set_clock t1 s0)
  | (Returned _, t1) =>
      match querySelector w t1 "div[role=feed]" with
      | Thrown message => Some (Thrown message, set_clock (S t1) s0)
      | Returned false =>
          Some (Returned {| ScrapeResult.newFound := 0;
                            ScrapeResult.updatedIndex := currentUpdatedIndex s0;
                            ScrapeResult.results := [] |},
                set_clock (S t1) s0)
      | Returned true =>
          match mainLoop w progressCb listUrl targetResults sessionId existingUrls
                  fuel buffer (set_clock (S t1) s0) with
          | None => None
          | Some (Thrown message, s) => Some (Thrown message, s)
          | Some (Returned _, s) =>
              let s' :=
                if targetResults <? length (results s)
                then spliceResults targetResults s else s in
              Some (Returned (resultOf s'), s')
          end
      end
  end.

(** The function: the [try] block and the [catch (functionError)] that
    answers with what the locals hold at the time of the fault. *)
Definition scrapeUrlsAndDetails (fuel : nat) (t : nat)
    : option (outcome ScrapeResult.t * Locals) :=
  match scrapeTry fuel t with
  | None => None
  | Some (Returned result, s) => Some (Returned result, s)
  | Some (Thrown _, s) => Some (Returned (resultOf s), s)
  end.

End ScrapeUrlsAndDetails.

(** ** The URL-only scraper: [scrapeUrls] *)

Section ScrapeUrls.

Variable w : World.
Variables searchTerm location : string.
Variable maxResults : nat.
Variable progressCb : Callback string.
Variable updatedIndex : nat.

(** [while (!endOfList && scrollTries < 100 && cards.length < 200)]: the
    loop makes at most 100 rounds, the [fuel] it is called with. *)
Fixpoint scrollToEnd (fuel : nat) (cards : list Card)
    (scrollTries lastCardCount lastNewCardTime : nat) (endOfList : bool) (t : nat)
    : outcome (list Card) * nat :=
  match fuel with
  | 0 => (Returned cards, t)
  | S fuel' =>
      if negb endOfList && (scrollTries <? 100) && (length cards <? 200) then
        match scrollBy w t with
        | Some message => (Thrown message, S t)
        | None =>
            match querySelectorAll w (S t) with
            | Thrown message => (Thrown message, S (S t))
            | Returned cards' =>
                let grew := lastCardCount <? length cards' in
                let lastCardCount' := if grew then length cards' else lastCardCount in
                let lastNewCardTime' := if grew then now w (S (S t)) else lastNewCardTime in
                if 10 * 1000 <? now w (S (S (S t))) - lastNewCardTime' then
                  (Returned cards', S (S (S (S t))))
                else
                  match endOfListShown w (S (S (S (S t)))) with
                  | Thrown message => (Thrown message, S (S (S (S (S t)))))
                  | Returned endOfList' =>
                      scrollToEnd fuel' cards' (S scrollTries) lastCardCount'
                        lastNewCardTime' endOfList' (S (S (S (S (S t)))))
                  end
            end
        end
      else (Returned cards, t)
  end.

(** The [for] loop over the sliced cards; a throw inside the body is caught
    and the loop goes on.  Answers the URLs and the progress calls made. *)
Fixpoint readCards (total : nat) (i : nat) (cards : list Card)
    (urls : list string) (calls : list (Z * list string)) (t : nat)
    : list string * list (Z * list string) * nat :=
  match cards with
  | [] => (urls, calls, t)
  | card :: rest =>
      match isSponsored card, href card with
      | Some false, Some link =>
          let urls' := urls ++ [link] in
          let percentage := percent w (i + 1) total in
          let _ := progressCb t percentage urls' in
          readCards total (S i) rest urls' (calls ++ [(percentage, urls')]) (S t)
      | _, _ => readCards total (S i) rest urls calls t
      end
  end.

(** [scrapeUrls] has no [catch] of its own around the list view: a fault
    there is thrown to the caller. *)
Definition scrapeUrls (t : nat) : outcome (list string) * nat :=
  match openList w (mapsUrl w searchTerm location) t with
  | (Thrown message, t1) => (Thrown message, t1)
  | (Returned _, t1) =>
      match querySelector w t1 "div[role=feed]" with
      | Thrown message => (Thrown message, S t1)
      | Returned false => (Returned [], S t1)
      | Returned true =>
          match querySelectorAll w (S t1) with
          | Thrown message => (Thrown message, S (S t1))
          | Returned cards =>
              match scrollToEnd 100 cards 0 (length cards) (now w (S (S t1))) false
                      (S (S (S t1))) with
              | (Thrown message, t2) => (Thrown message, t2)
              | (Returned cards', t2) =>
                  let startIndex := updatedIndex in
                  let endIndex :=
                    match maxResults with
                    | 0 => length cards'
                    | _ => Nat.min (updatedIndex + maxResults) (length cards')
                    end in
                  let sliced := take (endIndex - startIndex) (drop startIndex cards') in
                  let '(urls, _, t3) := readCards (length sliced) 0 sliced [] [] t2 in
                  (Returned urls, t3)
              end
          end
      end
  end.

End ScrapeUrls.

(** ** The entry point: [scrapeAndEnrich] *)

(** [{ updatedIndex, lastRetrievedCount, existingUrls }].  The query is
    awaited outside any [try]: when it throws, so does the function. *)
Definition getPermanentSearchProgress (w : World) (t : nat)
    : outcome (nat * nat * gset string) :=
  match storeSelectUrls w t with
  | Thrown message => Thrown message
  | Returned (Reply _ (Some _)) => Returned (0, 0, ∅)
  | Returned (Reply (Some (link :: links)) None) =>
      let existingResults := link :: links in
      Returned (length existingResults, length existingResults,
                list_to_set existingResults)
  | Returned (Reply _ None) => Returned (0, 0, ∅)
  end.

(** Step 5, the final correction of the in-memory list against the
    requested count.  [answer] is what the store answers to the query for
    the [maxResults] most recently created rows. *)
Definition finalCorrection (answer : outcome (reply (list Row))) (maxResults : nat)
    (results : list Details) : list Details :=
  if length results <? maxResults then
    match answer with
    | Returned (Reply (Some additionalResults) None) =>
        let dbResults := fromSupabaseColumns <$> additionalResults in
        let needed := maxResults - length results in
        let additional := take needed dbResults in
        results ++ additional
    | _ => results
    end
  else if maxResults <? length results then take maxResults results
  else results.

Section ScrapeAndEnrich.

Variable w : World.
Variables searchTerm location : string.
Variable maxResults : nat.
Variable progressCb : Callback Details.

(** The in-memory [results] when step 5 is over, the value of [newFound]
    and the clock; [None] when [fuel] rounds of the main loop were not
    enough.  Step 1 is outside any [try]: a throw of
    [getPermanentSearchProgress] is thrown to the caller.  The later steps
    are each inside a [try] of their own. *)
Definition reconciled (fuel : nat) : option (outcome (list Details * nat * nat)) :=
  match getPermanentSearchProgress w 0 with
  | Thrown message => Some (Thrown message)
  | Returned (updatedIndex, lastRetrievedCount, existingUrls) =>
      let sessionId := default "" (storeNewSession w 1) in
      match scrapeUrlsAndDetails w searchTerm location maxResults progressCb
              updatedIndex sessionId None 20 existingUrls fuel 2 with
      | None => None
      | Some (scraped, s) =>
          let results :=
            match scraped with
            | Returned scrapeResult => ScrapeResult.results scrapeResult
            | Thrown _ => []
            end in
          let newFound := length results in
          (* step 4 asks the store once and only logs the answer *)
          let t := S (clock s) in
          let results' :=
            finalCorrection (storeSelectRecent w t maxResults) maxResults results in
          Some (Returned (results', newFound, S t))
      end
  end.

(** [if (newFound === 0) return []; return results] *)
Definition scrapeAndEnrich (fuel : nat) : option (outcome (list Details)) :=
  match reconciled fuel with
  | None => None
  | Some (Thrown message) => Some (Thrown message)
  | Some (Returned (results, newFound, _)) =>
      match newFound with
      | 0 => Some (Returned [])
      | _ => Some (Returned results)
      end
  end.

End ScrapeAndEnrich.

(** * The rest of the class

    The functions of [src/combined-scraper.js] that the run loop does not
    call: the phone format of the CSV export, the URL hash, the website
    scraper and the batch runner; and the test script that calls the entry
    point. *)

(** ** Phone numbers for the CSV export: [formatPhoneNumberForCSV] *)

Definition formatPhoneNumberForCSV (phoneNumber : string) : string :=
  let digits := Js.stripNonDigits phoneNumber in
  if String.length digits =? 0 then ""
  else if Js.startsWith "91" digits && (String.length digits =? 12) then "+" +:+ digits
  else if Js.startsWith "1" digits && (String.length digits =? 11) then "+" +:+ digits
  else if String.length digits =? 10 then "+91" +:+ digits
  else "+" +:+ digits.

(** ** The URL hash: [createUrlHash] *)

(** [s.charCodeAt(i)] *)
Definition charCode (c : ascii) : Z := Z.of_N (N_of_ascii c).

(** The conversion of a number to a signed 32-bit integer that the bitwise
    operators apply to their operands: the representative of [x] modulo
    [2 ^ 32] between [- 2 ^ 31] and [2 ^ 31 - 1]. *)
Definition ToInt32 (x : Z) : Z := ((x + 2147483648) mod 4294967296 - 2147483648)%Z.

(** [x << k] *)
Definition shiftLeft (x k : Z) : Z := ToInt32 (Z.shiftl (ToInt32 x) k).

(** [x & y] *)
Definition bitAnd (x y : Z) : Z := ToInt32 (Z.land (ToInt32 x) (ToInt32 y)).

(** The [for] loop over the characters:
    [hash = ((hash << 5) - hash) + char; hash = hash & hash]. *)
Fixpoint hashChars (url : string) (hash : Z) : Z :=
  match url with
  | "" => hash
  | String c rest =>
      let hash1 := (shiftLeft hash 5 - hash + charCode c)%Z in
      hashChars rest (bitAnd hash1 hash1)
  end.

(** The digit of value [d] in [toString(36)]: 0-9, then a-z. *)
Definition digit36 (d : Z) : ascii :=
  ascii_of_N (Z.to_N (if (d <? 10)%Z then 48 + d else 87 + d)%Z).

Fixpoint digits36 (fuel : nat) (n : Z) (acc : string) : string :=
  match fuel with
  | 0 => acc
  | S fuel' =>
      if (n =? 0)%Z then acc
      else digits36 fuel' (n / 36)%Z (String (digit36 (n mod 36)%Z) acc)
  end.

(** [n.toString(36)] for an integer [n >= 0].  A number below [2 ^ k] has
    at most [k] digits. *)
Definition toString36 (n : Z) : string :=
  if (n =? 0)%Z then "0" else digits36 (S (Z.to_nat (Z.log2 n))) n "".

(** [Math.abs(hash).toString(36)].  For a string argument nothing in the
    [try] block throws, so the [catch] is not entered. *)
Definition createUrlHash (url : string) : string :=
  toString36 (Z.abs (hashChars url 0)).

(** ** The website scraper: [scrapeWebsiteForContactInfo] *)

(** [s.toLowerCase()] on character codes below 256: the letters A-Z and the
    capital letters of Latin-1. *)
Definition toLowerCaseChar (c : ascii) : ascii :=
  let code := N_of_ascii c in
  if ((65 <=? code) && (code <=? 90)
      || (192 <=? code) && (code <=? 222) && negb (code =? 215))%N
  then ascii_of_N (code + 32) else c.

Fixpoint toLowerCase (s : string) : string :=
  match s with
  | "" => ""
  | String c rest => String (toLowerCaseChar c) (toLowerCase rest)
  end.

(** [parts.join(separator)] *)
Fixpoint join (separator : string) (parts : list string) : string :=
  match parts with
  | [] => ""
  | [part] => part
  | part :: rest => part +:+ separator +:+ join separator rest
  end.

(** The object [{ email, instagram, linkedin, facebook }]. *)
Module ContactInfo.
Record t := {
  email : string;
  instagram : string;
  linkedin : string;
  facebook : string
}.
Definition empty : t := {| email := ""; instagram := ""; linkedin := ""; facebook := "" |}.
End ContactInfo.

(** The object [{ instagram, linkedin, facebook }] of a search for social
    links. *)
Module SocialMedia.
Record t := {
  instagram : string;
  linkedin : string;
  facebook : string
}.
End SocialMedia.

(** What the scripts that run inside the page answer, by the clock of the
    call: the e-mail addresses found, the social links found in the anchors,
    the social links found in the text, and the address of the first link
    to a contact page (empty when there is none). *)
Record Site := {
  emailsFound : nat → outcome (list string);
  linkedProfiles : nat → outcome SocialMedia.t;
  writtenProfiles : nat → outcome SocialMedia.t;
  contactPage : nat → outcome string
}.

(** [a || b] on strings *)
Definition orString (a b : string) : string := if Js.truthy a then a else b.

(** [if (link) { if (!link.startsWith('http')) link = 'https://' + link }] *)
Definition withScheme (link : string) : string :=
  if Js.truthy link then
    if Js.startsWith "http" link then link else "https://" +:+ link
  else link.

(** The helper [extractFromCurrentPage]: three scripts, then the choice
    between the two searches for social links. *)
Definition extractFromCurrentPage (site : Site) (t : nat) : outcome ContactInfo.t * nat :=
  match emailsFound site t with
  | Thrown message => (Thrown message, S t)
  | Returned emails =>
      match linkedProfiles site (S t) with
      | Thrown message => (Thrown message, S (S t))
      | Returned socialLinks =>
          match writtenProfiles site (S (S t)) with
          | Thrown message => (Thrown message, S (S (S t)))
          | Returned textSocialLinks =>
              (Returned
                 {| ContactInfo.email :=
                      if 0 <? length emails then join ", " (toLowerCase <$> emails) else "";
                    ContactInfo.instagram :=
                      withScheme (orString (SocialMedia.instagram socialLinks)
                                    (SocialMedia.instagram textSocialLinks));
                    ContactInfo.linkedin :=
                      withScheme (orString (SocialMedia.linkedin socialLinks)
                                    (SocialMedia.linkedin textSocialLinks));
                    ContactInfo.facebook :=
                      withScheme (orString (SocialMedia.facebook socialLinks)
                                    (SocialMedia.facebook textSocialLinks)) |},
               S (S (S t)))
          end
      end
  end.

(** [contactResult.email || contactResult.instagram || ..] as a condition *)
Definition anyContact (info : ContactInfo.t) : bool :=
  Js.truthy (ContactInfo.email info) || Js.truthy (ContactInfo.instagram info)
  || Js.truthy (ContactInfo.linkedin info) || Js.truthy (ContactInfo.facebook info).

(** The visit of the contact page, inside its own [try]: a fault there
    keeps the result of the homepage. *)
Definition visitContactPage (w : World) (site : Site) (contactHref : string)
    (result : ContactInfo.t) (t : nat) : ContactInfo.t * nat :=
  match goto w t contactHref with
  | Some _ => (result, S t)
  | None =>
      match extractFromCurrentPage site (S t) with
      | (Thrown _, t') => (result, t')
      | (Returned contactResult, t') =>
          if anyContact contactResult then (contactResult, t') else (result, t')
      end
  end.

(** The whole body is inside [try]/[catch]: a fault outside the visit of
    the contact page is answered with the empty object. *)
Definition scrapeWebsiteForContactInfo (w : World) (site : Site) (websiteUrl : string)
    (t : nat) : ContactInfo.t * nat :=
  if negb (Js.truthy websiteUrl) then (ContactInfo.empty, t)
  else
    match goto w t websiteUrl with
    | Some _ => (ContactInfo.empty, S t)
    | None =>
        match extractFromCurrentPage site (S t) with
        | (Thrown _, t1) => (ContactInfo.empty, t1)
        | (Returned result, t1) =>
            if negb (Js.truthy (ContactInfo.email result)) then
              match contactPage site t1 with
              | Thrown _ => (ContactInfo.empty, S t1)
              | Returned contactHref =>
                  if Js.truthy contactHref
                     && negb (bool_decide (contactHref = websiteUrl))
                     && negb (Js.startsWith "mailto:" contactHref)
                  then visitContactPage w site contactHref result (S t1)
                  else (result, S t1)
              end
            else (result, t1)
        end
    end.

(** ** The batch runner: [processUrlsInBatches]

    The workers of a batch run concurrently, each on a page of its own, and
    [Promise.all] puts their answers in the order of the batch.  The page
    opened for the URL at position [n] of the list is the world [pageOf n]
    with the website scripts [siteOf n]; the calls that create and close
    contexts and pages are answered by position as well ([false] when the
    call throws). *)

(** How a promise settles; the error of a rejection is not kept. *)
Inductive Settled (A : Type) : Type :=
  | Fulfilled (a : A)
  | Rejected.
Arguments Fulfilled {A} a.
Arguments Rejected {A}.

Record Browser := {
  arithmetic : Numbers;
  contextOpens : nat → bool;
  pageOpens : nat → bool;
  pageCloses : nat → bool;
  contextCloses : nat → bool;
  pageOf : nat → World;
  siteOf : nat → Site
}.

(** The [try] block of a worker: the details of the business, then the
    contact fields from its website when it has one.  Neither call throws,
    so the [catch] block is not entered. *)
Definition enrich (w : World) (site : Site) (link : string) : Details :=
  let '(result, t) := extractBusinessDetails w link 0 in
  let contactInfo :=
    if Js.truthy (Website result)
    then (scrapeWebsiteForContactInfo w site (Website result) t).1
    else ContactInfo.empty in
  {| Business_Name := Business_Name result;
     Company_Type := Company_Type result;
     Rating := Rating result;
     Reviews := Reviews result;
     Address := Address result;
     Phone_Number := Phone_Number result;
     Website := Website result;
     URL := URL result;
     Email := ContactInfo.email contactInfo;
     Instagram := ContactInfo.instagram contactInfo;
     LinkedIn := ContactInfo.linkedin contactInfo;
     Facebook := ContactInfo.facebook contactInfo |}.

(** [Math.min(Math.round(((i + batchSize) / totalUrls) * 100), 100)] *)
Definition batchProgress (N : Numbers) (done total : nat) : Z :=
  Z.min (Math_round N (times N (divide N (ofNat N done) (ofNat N total)) (ofNat N 100))) 100.

Section ProcessUrlsInBatches.

Variable browser : Browser.
Variable highStealth : bool.
Variable progressCb : Callback Details.
Variable batchSize : nat.
Variable urls : list string.

(** One worker: with high stealth it creates and closes a context of its
    own around the page. *)
Definition worker (position : nat) (link : string) : Settled Details :=
  if (if highStealth then contextOpens browser position else true)
     && pageOpens browser position
  then
    let result := enrich (pageOf browser position) (siteOf browser position) link in
    if pageCloses browser position
       && (if highStealth then contextCloses browser position else true)
    then Fulfilled result else Rejected
  else Rejected.

(** [Promise.all(batch.map(..))] for the batch that starts at [position] *)
Fixpoint promiseAll (position : nat) (batch : list string) : Settled (list Details) :=
  match batch with
  | [] => Fulfilled []
  | link :: rest =>
      match worker position link, promiseAll (S position) rest with
      | Fulfilled result, Fulfilled others => Fulfilled (result :: others)
      | _, _ => Rejected
      end
  end.

(** [for (let i = 0; i < urls.length; i += batchSize)], from [i] on;
    [None] when [fuel] rounds were not enough. *)
Fixpoint batchesFrom (fuel : nat) (i : nat) (results : list Details)
    : option (Settled (list Details)) :=
  if i <? length urls then
    match fuel with
    | 0 => None
    | S fuel' =>
        let batch := take batchSize (drop i urls) in
        if (if highStealth then true else contextOpens browser i) then
          match promiseAll i batch with
          | Rejected => Some Rejected
          | Fulfilled batchResults =>
              let results' := results ++ batchResults in
              if (if highStealth then true else contextCloses browser i) then
                let progress :=
                  batchProgress (arithmetic browser) (i + batchSize) (length urls) in
                match progressCb i progress results' with
                | Some _ => Some Rejected
                | None => batchesFrom fuel' (i + batchSize) results'
                end
              else Some Rejected
          end
        else Some Rejected
    end
  else Some (Fulfilled results).

Definition processUrlsInBatches (fuel : nat) : option (Settled (list Details)) :=
  batchesFrom fuel 0 [].

End ProcessUrlsInBatches.

(** ** The test script: [testOptimizedMode] of [src/test-optimized.js] *)

(** The last message of the test: the warning "Only found n/target", the
    success line "Found exactly n/target", or "Error during testing:" with
    the error that the [catch] of the test received. *)
Inductive Verdict :=
  | OnlyFound (found targetResults : nat)
  | FoundExactly (found targetResults : nat)
  | ErrorDuringTesting (message : string).

(** [if (results.length < targetResults) .. else ..] *)
Definition verdict (targetResults : nat) (results : list Details) : Verdict :=
  if length results <? targetResults then OnlyFound (length results) targetResults
  else FoundExactly (length results) targetResults.

(** The test asks for 12 pharmacies in Delhi, with a callback that logs;
    [None] when the main loop needs more than [fuel] rounds.  A throw of
    the entry point is caught by the test and logged. *)
Definition testOptimizedMode (w : World) (fuel : nat) : option Verdict :=
  let targetResults := 12 in
  match scrapeAndEnrich w "pharmacies" "Delhi" targetResults (λ _ _ _, None) fuel with
  | None => None
  | Some (Thrown message) => Some (ErrorDuringTesting message)
  | Some (Returned results) => Some (verdict targetResults results)
  end.

(** * Observations

    What the properties below are stated with: readers of the trace, the
    invariant of the main loop, and the assumptions on the outside world. *)

(** ** Reading a trace *)

(** The URLs submitted to the extractor, in order. *)
Fixpoint extracted (tr : list Event) : list string :=
  match tr with
  | [] => []
  | Extract link :: tr' => link :: extracted tr'
  | _ :: tr' => extracted tr'
  end.

(** The number of calls of the commit pipeline that answered [true]. *)
Fixpoint commits (tr : list Event) : nat :=
  match tr with
  | [] => 0
  | Insert _ true :: tr' => S (commits tr')
  | _ :: tr' => commits tr'
  end.

(** The arguments of the calls of the progress callback, in order. *)
Fixpoint progressCalls (tr : list Event) : list (Z * list Details) :=
  match tr with
  | [] => []
  | Progress percentage snapshot :: tr' => (percentage, snapshot) :: progressCalls tr'
  | _ :: tr' => progressCalls tr'
  end.

(** ** What one round of the per-URL loop does *)

(** The four ways a round can go, by what it adds to the trace and to the
    result list. *)
Inductive roundEffect (w : World) (targetResults : nat) (sessionId : string)
    (link : string) (s s' : Locals) : Prop :=
  | round_unreachable :
      trace s' = trace s → results s' = results s → newFound s' = newFound s →
      roundEffect w targetResults sessionId link s s'
  | round_incomplete :
      trace s' = trace s ++ [Extract link] →
      results s' = results s → newFound s' = newFound s →
      roundEffect w targetResults sessionId link s s'
  | round_not_inserted (details : Details) :
      URL details = link → incomplete details = false →
      trace s' = trace s
        ++ [Extract link; Insert (withSession sessionId (mapToSupabaseColumns details)) false] →
      results s' = results s → newFound s' = newFound s →
      roundEffect w targetResults sessionId link s s'
  | round_committed (details : Details) :
      URL details = link → incomplete details = false →
      trace s' = trace s
        ++ [Extract link; Insert (withSession sessionId (mapToSupabaseColumns details)) true;
            Progress (percent w (S (newFound s)) targetResults) (results s ++ [details])] →
      results s' = results s ++ [details] → newFound s' = S (newFound s) →
      roundEffect w targetResults sessionId link s s'.

(** ** The invariant of the main loop *)

Definition completeRow (record : Row) : Prop :=
  business_name record ≠ "" ∧ address record ≠ "" ∧ phone_number record ≠ "".

(** The call of the progress callback that announces the [n]-th commit. *)
Definition announcement (w : World) (targetResults : nat) (results : list Details)
    (n : nat) : Event :=
  Progress (percent w n targetResults) (take n results).

(** Every successful insert in [tr] is directly followed by its
    announcement. *)
Definition announced (w : World) (targetResults : nat) (results : list Details)
    (tr : list Event) : Prop :=
  ∀ i record,
    tr !! i = Some (Insert record true) →
    tr !! S i = Some (announcement w targetResults results (S (commits (take i tr)))).

Record Invariant (w : World) (targetResults : nat) (existingUrls : gset string)
    (s : Locals) : Prop := {
  inv_count : length (results s) = newFound s;
  inv_commits : commits (trace s) = newFound s;
  inv_bound : newFound s ≤ targetResults;
  inv_results_extracted : ∀ details, details ∈ results s → URL details ∈ extracted (trace s);
  inv_results_nodup : NoDup (URL <$> results s);
  inv_extracted_nodup : NoDup (extracted (trace s));
  inv_extracted_processed : ∀ link, link ∈ extracted (trace s) → link ∈ processedUrls s;
  inv_extracted_fresh : ∀ link, link ∈ extracted (trace s) → link ∉ existingUrls;
  inv_inserted_complete : ∀ record ok, Insert record ok ∈ trace s → completeRow record;
  inv_progress :
    progressCalls (trace s)
    = (λ n, (percent w n targetResults, take n (results s))) <$> seq 1 (newFound s);
  inv_announced : announced w targetResults (results s) (trace s)
}.

(** Loading cards moves the clock, the card list and the scroll counter
    only. *)
Definition sameLedger (s s' : Locals) : Prop :=
  trace s' = trace s ∧ results s' = results s ∧ newFound s' = newFound s
  ∧ processedUrls s' = processedUrls s ∧ currentUpdatedIndex s' = currentUpdatedIndex s.

(** What the queue must satisfy when the per-URL loop starts. *)
Definition pending (existingUrls : gset string) (s : Locals) (queue : list (string * nat))
    : Prop :=
  NoDup queue.*1
  ∧ ∀ link, link ∈ queue.*1 →
      (link ∉ extracted (trace s)) ∧ (link ∉ existingUrls) ∧ (link ∈ processedUrls s).

(** ** Termination *)

(** The page never shows more than [bound] cards. *)
Definition boundedPage (w : World) (bound : nat) : Prop :=
  ∀ t cards, querySelectorAll w t = Returned cards → length cards ≤ bound.


(** ** Reconciliation *)

(** The run of the main loop that [scrapeAndEnrich] starts; there is none
    when the first query of the entry point throws. *)
Definition mainRun (w : World) (searchTerm location : string) (maxResults : nat)
    (progressCb : Callback Details) (fuel : nat) : option (outcome ScrapeResult.t * Locals) :=
  match getPermanentSearchProgress w 0 with
  | Thrown _ => None
  | Returned (updatedIndex, _, existingUrls) =>
      scrapeUrlsAndDetails w searchTerm location maxResults progressCb
        updatedIndex (default "" (storeNewSession w 1)) None 20 existingUrls fuel 2
  end.

(** The URLs of the list that a call of the entry point returned. *)
Definition returnedUrls (answer : option (outcome (list Details))) : option (list string) :=
  match answer with
  | Some (Returned results) => Some (URL <$> results)
  | _ => None
  end.

(** The top-up as the specification words it: of the [target] most recent
    rows, those whose identifier the in-memory list does not hold yet, as
    many as are needed. *)
Definition topUpAsSpecified (stored : list Row) (target : nat) (results : list Details)
    : list Details :=
  let fetched := fromSupabaseColumns <$> take target stored in
  let unseen := filter (λ details, URL details ∉ URL <$> results) fetched in
  results ++ take (target - length results) unseen.

(** ** The store and the candidate source *)


(** The world [w], but the insert issued at clock [at_] is answered with
    [answer]. *)
Definition withInsertAnswer (w : World) (at_ : nat) (answer : outcome (reply (list Row)))
    : World :=
  {| numbers := numbers w;
     encodeURIComponent := encodeURIComponent w;
     goto := goto w;
     waitForSelector := waitForSelector w;
     querySelector := querySelector w;
     querySelectorAll := querySelectorAll w;
     scrollBy := scrollBy w;
     endOfListShown := endOfListShown w;
     now := now w;
     readDetails := readDetails w;
     storeInsert := λ t record, if decide (t = at_) then answer else storeInsert w t record;
     storeSelectUrls := storeSelectUrls w;
     storeNewSession := storeNewSession w;
     storeSelectRecent := storeSelectRecent w |}.

(** The candidate can be extracted with all required fields, whenever it is
    asked for. *)
Definition extractable (w : World) (link : string) : Prop :=
  ∀ t, incomplete (extractBusinessDetails w link t).1 = false.

(** The store accepts the record of the candidate at the first attempt,
    whenever it is asked to. *)
Definition committable (w : World) (link : string) : Prop :=
  ∀ t record, url record = link → insertWithRetry w record t = (true, S t).

(** The page shows a card for the candidate, whenever it is asked for its
    cards. *)
Definition listed (w : World) (link : string) : Prop :=
  ∀ t, ∃ cards,
    querySelectorAll w t = Returned cards
    ∧ {| href := Some link; isSponsored := Some false |} ∈ cards.

(** The source can supply the candidates [links]: they are distinct, not in
    the store yet, listed, extractable and committable. *)
Definition supplies (w : World) (existingUrls : gset string) (links : list string) : Prop :=
  NoDup links
  ∧ ∀ link, link ∈ links →
      (link ∉ existingUrls) ∧ listed w link ∧ extractable w link ∧ committable w link.

(** ** Numbers *)


(** Exact rational arithmetic; [Math.round] rounds halves upwards. *)
Definition exactNumbers : Numbers :=
  {| Number := Q;
     ofNat := λ n, inject_Z (Z.of_nat n);
     divide := Qdiv;
     times := Qmult;
     Math_round := λ q, Qfloor (q + (1 # 2));
     atMost := Qle |}.

(** ** Further observations *)

(** The four kinds of answer of the store to an insert, as [insertWithRetry]
    tells them apart: a row came back, the uniqueness constraint was
    violated, neither error nor row, and any other error or a throw. *)
Inductive AnswerKind := Stored | Duplicate | NoRow | Failed.

Definition kindOfAnswer (answer : outcome (reply (list Row))) : AnswerKind :=
  match answer with
  | Returned (Reply _ (Some message)) =>
      if Js.includes duplicateMessage message then Duplicate else Failed
  | Returned (Reply (Some (_ :: _)) None) => Stored
  | Returned (Reply _ None) => NoRow
  | Thrown _ => Failed
  end.

(** The record is what [extractBusinessDetails] answered for its URL at some
    time. *)
Definition extractedRecord (w : World) (details : Details) : Prop :=
  ∃ t, details = (extractBusinessDetails w (URL details) t).1.

(** Where the rows handed to the store and the records of the result list
    come from. *)
Definition provenance (w : World) (sessionId : string)
    (tr : list Event) (results : list Details) : Prop :=
  (∀ record ok,
     Insert record ok ∈ tr →
     ∃ details,
       extractedRecord w details ∧ incomplete details = false
       ∧ record = withSession sessionId (mapToSupabaseColumns details))
  ∧ ∀ details, details ∈ results → extractedRecord w details ∧ incomplete details = false.

(** The link that [scrapeUrls] reads from a card: none when the card is
    sponsored or when one of the two calls on it throws. *)
Definition visibleLink (card : Card) : option string :=
  match isSponsored card, href card with
  | Some false, Some link => Some link
  | _, _ => None
  end.

(** ** The result list and the store *)

(** The rows for which the commit pipeline answered [true], in order. *)
Fixpoint committedRows (tr : list Event) : list Row :=
  match tr with
  | [] => []
  | Insert record true :: tr' => record :: committedRows tr'
  | _ :: tr' => committedRows tr'
  end.

(** The URLs of the rows handed to the commit pipeline, in order. *)
Fixpoint submittedUrls (tr : list Event) : list string :=
  match tr with
  | [] => []
  | Insert record _ :: tr' => url record :: submittedUrls tr'
  | _ :: tr' => submittedUrls tr'
  end.

(** The rows that were committed are the rows of the records of the result
    list, in order. *)
Definition resultsAreCommitted (sessionId : string)
    (tr : list Event) (results : list Details) : Prop :=
  committedRows tr
  = (λ details, withSession sessionId (mapToSupabaseColumns details)) <$> results.

(** Every URL handed to the commit pipeline was handed to the extractor before,
    and no more often. *)
Definition submittedAfterExtraction (tr : list Event) (results : list Details) : Prop :=
  sublist (submittedUrls tr) (extracted tr).

(** ** The URL hash *)

(** The hash of Java's [String.hashCode], in exact arithmetic. *)
Fixpoint polynomial31 (url : string) (hash : Z) : Z :=
  match url with
  | "" => hash
  | String c rest => polynomial31 rest (31 * hash + charCode c)%Z
  end.

(** The value of a digit of base 36, and of a string of such digits. *)
Definition value36 (c : ascii) : Z :=
  let code := charCode c in
  (if code <? 58 then code - 48 else code - 87)%Z.

Fixpoint parse36 (s : string) (acc : Z) : Z :=
  match s with
  | "" => acc
  | String c rest => parse36 rest (acc * 36 + value36 c)%Z
  end.

(** [0-9a-z] *)
Definition isDigit36 (c : ascii) : bool :=
  let code := charCode c in
  ((48 <=? code) && (code <=? 57) || (97 <=? code) && (code <=? 122))%Z.

Fixpoint allOf (p : ascii → bool) (s : string) : bool :=
  match s with
  | "" => true
  | String c rest => p c && allOf p rest
  end.

(** ** Contact objects and workers *)

(** The fields of a contact object in normal form: the e-mail addresses in
    lower case, every social link empty or with a scheme. *)
Definition normalContact (info : ContactInfo.t) : Prop :=
  toLowerCase (ContactInfo.email info) = ContactInfo.email info
  ∧ (ContactInfo.instagram info = ""
     ∨ Js.startsWith "http" (ContactInfo.instagram info) = true)
  ∧ (ContactInfo.linkedin info = ""
     ∨ Js.startsWith "http" (ContactInfo.linkedin info) = true)
  ∧ (ContactInfo.facebook info = ""
     ∨ Js.startsWith "http" (ContactInfo.facebook info) = true).

(** What every worker answers for the URL at [position], whatever the batch
    it is in. *)
Definition enrichedAt (browser : Browser) (position : nat) (link : string) : Details :=
  enrich (pageOf browser position) (siteOf browser position) link.

(** * Scenarios *)

Module Scenario.

(** A card that is not sponsored and links to [link]. *)
Definition card (link : string) : Card :=
  {| href := Some link; isSponsored := Some false |}.

(** The cards of a page with [n] entries, linking to "a", "b", ... *)
Definition listing (n : nat) : list Card :=
  (λ i, card (String (ascii_of_nat (97 + i)) "")) <$> seq 0 n.

(** A detail view with every field present. *)
Definition complete (link : string) : Scraped :=
  {| businessName := "Pharmacy " +:+ link; companyType := "Pharmacy";
     ratingText := "4.5"; reviewsText := "12"; addressText := "1 Main Road, Delhi";
     websiteHref := ""; phoneText := "808 969-3899" |}.

(** A detail view without a phone number. *)
Definition noPhone (link : string) : Scraped :=
  {| businessName := "Pharmacy " +:+ link; companyType := "Pharmacy";
     ratingText := "4.5"; reviewsText := "12"; addressText := "1 Main Road, Delhi";
     websiteHref := ""; phoneText := "" |}.

(** The record the extractor builds from a complete detail view. *)
Definition detailsOf (link : string) : Details :=
  {| Business_Name := "Pharmacy " +:+ link; Company_Type := "Pharmacy";
     Rating := "4.5"; Reviews := "12"; Address := "1 Main Road, Delhi";
     Phone_Number := "+18089693899"; Website := ""; URL := link;
     Email := ""; Instagram := ""; LinkedIn := ""; Facebook := "" |}.

Definition accepted (record : Row) : outcome (reply (list Row)) :=
  Returned (Reply (Some [record]) None).


(** A world without faults: the page always shows [cards], the detail view
    of [link] reads as [read link], the store answers an insert with
    [insertAnswer], holds the URLs [known] at the start and answers the
    query for the most recent rows with [recent]. *)
Definition quiet (cards : list Card) (read : string → Scraped)
    (insertAnswer : Row → outcome (reply (list Row)))
    (known : list string) (recent : list Row) : World :=
  {| numbers := exactNumbers;
     encodeURIComponent := id;
     goto := λ _ _, None;
     waitForSelector := λ _ _, None;
     querySelector := λ _ _, Returned true;
     querySelectorAll := λ _, Returned cards;
     scrollBy := λ _, None;
     endOfListShown := λ _, Returned true;
     now := λ _, 0;
     readDetails := λ _ link, Some (read link);
     storeInsert := λ _ record, insertAnswer record;
     storeSelectUrls := λ _, Returned (Reply (Some known) None);
     storeNewSession := λ _, None;
     storeSelectRecent := λ _ _, Returned (Reply (Some recent) None) |}.

(** A callback that returns normally. *)
Definition silent {A} : Callback A := λ _ _ _, None.

End Scenario.


(** A page with five entries of which "b" and "d" are already in the store,
    and a request for two results. *)
Definition resumedWorld : World :=
  Scenario.quiet (Scenario.listing 5) Scenario.complete Scenario.accepted ["b"; "d"] [].

(** The page shows two entries and three results are asked for: the main
    loop commits "a" and "b", and the store, asked for its most recent rows,
    answers with these two. *)
Definition shortPage : World :=
  Scenario.quiet (Scenario.listing 2) Scenario.complete Scenario.accepted []
    [mapToSupabaseColumns (Scenario.detailsOf "b");
     mapToSupabaseColumns (Scenario.detailsOf "a")].

(** Nothing on the page can be committed, and the store holds two rows from
    earlier runs. *)
Definition barrenPage : World :=
  Scenario.quiet (Scenario.listing 3) Scenario.noPhone Scenario.accepted ["x"; "y"]
    [mapToSupabaseColumns (Scenario.detailsOf "x");
     mapToSupabaseColumns (Scenario.detailsOf "y")].

(** A page on which the feed is never found. *)
Definition noFeed : World :=
  {| numbers := exactNumbers;
     encodeURIComponent := id;
     goto := λ _ _, None;
     waitForSelector := λ _ _, None;
     querySelector := λ _ _, Returned false;
     querySelectorAll := λ _, Returned (Scenario.listing 5);
     scrollBy := λ _, None;
     endOfListShown := λ _, Returned true;
     now := λ _, 0;
     readDetails := λ _ link, Some (Scenario.complete link);
     storeInsert := λ _ record, Scenario.accepted record;
     storeSelectUrls := λ _, Returned (Reply (Some []) None);
     storeNewSession := λ _, None;
     storeSelectRecent := λ _ _, Returned (Reply (Some []) None) |}.

(** A page without the feed, on which the wait for it times out. *)
Definition feedTimeout : World :=
  {| numbers := exactNumbers;
     encodeURIComponent := id;
     goto := λ _ _, None;
     waitForSelector := λ _ selector,
       if String.eqb selector "div[role=feed], div[aria-label*=Results for]"
       then Some "TimeoutError: Waiting for selector failed: 20000ms exceeded"
       else None;
     querySelector := λ _ _, Returned false;
     querySelectorAll := λ _, Returned [];
     scrollBy := λ _, None;
     endOfListShown := λ _, Returned true;
     now := λ _, 0;
     readDetails := λ _ link, Some (Scenario.complete link);
     storeInsert := λ _ record, Scenario.accepted record;
     storeSelectUrls := λ _, Returned (Reply (Some []) None);
     storeNewSession := λ _, None;
     storeSelectRecent := λ _ _, Returned (Reply (Some []) None) |}.

(** A page of five complete entries and a store that cannot be reached: the
    query for the stored URLs throws. *)
Definition storeDown : World :=
  {| numbers := exactNumbers;
     encodeURIComponent := id;
     goto := λ _ _, None;
     waitForSelector := λ _ _, None;
     querySelector := λ _ _, Returned true;
     querySelectorAll := λ _, Returned (Scenario.listing 5);
     scrollBy := λ _, None;
     endOfListShown := λ _, Returned true;
     now := λ _, 0;
     readDetails := λ _ link, Some (Scenario.complete link);
     storeInsert := λ _ record, Scenario.accepted record;
     storeSelectUrls := λ _, Thrown "fetch failed";
     storeNewSession := λ _, None;
     storeSelectRecent := λ _ _, Returned (Reply (Some []) None) |}.

(** The page of five entries, none of which shows a phone number. *)
Definition phonelessPage : World :=
  Scenario.quiet (Scenario.listing 5) Scenario.noPhone Scenario.accepted [] [].

(** Eight entries, all complete, and a store that accepts them. *)
Definition exactFit : World :=
  Scenario.quiet (Scenario.listing 8) Scenario.complete Scenario.accepted [] [].


(** A page of 21 entries, an empty store that accepts every insert; the
    detail views of the first six entries show no phone number, the other
    fifteen are complete. *)
Definition sixIncompleteFirst : World :=
  Scenario.quiet (Scenario.listing 21)
    (λ link,
       if bool_decide (link ∈ ["a"; "b"; "c"; "d"; "e"; "f"])
       then Scenario.noPhone link else Scenario.complete link)
    Scenario.accepted [] [].

(** ** Further scenarios *)

(** The page shows three entries, and the store holds five rows of other
    searches. *)
Definition crowdedStore : World :=
  Scenario.quiet (Scenario.listing 3) Scenario.complete Scenario.accepted
    ["p"; "q"; "r"; "s"; "t"] [].

(** The first card of the page is a sponsored entry, and reading the link
    of the third card throws. *)
Definition sponsoredFirst : World :=
  Scenario.quiet
    [ {| href := Some "ad"; isSponsored := Some true |};
      Scenario.card "a";
      {| href := None; isSponsored := Some false |};
      Scenario.card "b";
      Scenario.card "c" ]
    Scenario.complete Scenario.accepted [] [].

(** A website whose homepage links to an Instagram profile and shows no
    e-mail address, and whose contact page shows an e-mail address and no
    social link.  The homepage is read at the clock values 1 to 3, the
    contact page from 6 on. *)
Definition twoPages : Site :=
  {| emailsFound := λ t, Returned (if t <? 6 then [] else ["Info@Shop.example"]);
     linkedProfiles := λ t,
       Returned {| SocialMedia.instagram :=
                     if t <? 6 then "instagram.com/shop" else "";
                   SocialMedia.linkedin := ""; SocialMedia.facebook := "" |};
     writtenProfiles := λ _,
       Returned {| SocialMedia.instagram := ""; SocialMedia.linkedin := "";
                   SocialMedia.facebook := "" |};
     contactPage := λ _, Returned "https://shop.example/contact" |}.

(** A detail view with every field present and a website. *)
Definition shopView (link : string) : Scraped :=
  {| businessName := "Shop " +:+ link; companyType := "Shop";
     ratingText := "4.5"; reviewsText := "12"; addressText := "1 Main Road, Delhi";
     websiteHref := "https://shop.example"; phoneText := "808 969-3899" |}.

(** A browser without faults: every page shows the detail view [shopView]
    and the website [twoPages]. *)
Definition calmBrowser : Browser :=
  {| arithmetic := exactNumbers;
     contextOpens := λ _, true;
     pageOpens := λ _, true;
     pageCloses := λ _, true;
     contextCloses := λ _, true;
     pageOf := λ _, Scenario.quiet [] shopView Scenario.accepted [] [];
     siteOf := λ _, twoPages |}.

(** A page of fourteen entries, all complete, and an empty store that
    accepts every insert. *)
Definition fullPage : World :=
  Scenario.quiet (Scenario.listing 14) Scenario.complete Scenario.accepted [] [].

(** * Properties *)

Arguments insertWithRetry : simpl never.
Arguments extractBusinessDetails : simpl never.
Arguments navigateBackToList : simpl never.
Arguments reloadPageAndScrollToPosition : simpl never.
Arguments percent : simpl never.
Arguments formatPhoneNumber : simpl never.

(** ** Phone normalisation *)

(** The examples in the comments of [formatPhoneNumber]. *)
Example formatPhoneNumber_ten_digits :
  formatPhoneNumber "808 969-3899" = "+18089693899".
Proof. reflexivity. Qed.

Example formatPhoneNumber_eleven_digits :
  formatPhoneNumber "1 808 969-3899" = "+18089693899".
Proof. reflexivity. Qed.

Example formatPhoneNumber_international :
  formatPhoneNumber "44 20 7946 0958" = "+442079460958".
Proof. reflexivity. Qed.

Example formatPhoneNumber_blank : formatPhoneNumber "   " = "".
Proof. reflexivity. Qed.

Example formatPhoneNumber_short_with_plus : formatPhoneNumber "+49 30" = "+49 30".
Proof. reflexivity. Qed.

Lemma whitespace_not_digit c : Js.isWhiteSpace c = true → Js.isDigit c = false.
Proof.
  destruct c as [[] [] [] [] [] [] [] []]; cbn; intros H; first [reflexivity | discriminate H].
Qed.

Lemma stripNonDigits_trimStart s :
  Js.stripNonDigits (Js.trimStart s) = Js.stripNonDigits s.
Proof.
  induction s as [|c s IH]; [reflexivity|].
  cbn [Js.trimStart]. destruct (Js.isWhiteSpace c) eqn:Hc; [|reflexivity].
  cbn [Js.stripNonDigits]. rewrite (whitespace_not_digit c Hc). exact IH.
Qed.

Lemma stripNonDigits_rev_app s acc :
  Js.stripNonDigits (String.rev_app s acc)
  = String.rev_app (Js.stripNonDigits s) (Js.stripNonDigits acc).
Proof.
  revert acc. induction s as [|c s IH]; intros acc; [reflexivity|].
  cbn [String.rev_app Js.stripNonDigits]. rewrite IH. cbn [Js.stripNonDigits].
  destruct (Js.isDigit c); reflexivity.
Qed.

Lemma length_rev_app s acc :
  String.length (String.rev_app s acc) = String.length s + String.length acc.
Proof.
  revert acc. induction s as [|c s IH]; intros acc; [reflexivity|].
  cbn [String.rev_app String.length]. rewrite IH. cbn [String.length]. lia.
Qed.

Lemma length_stripNonDigits_trim s :
  String.length (Js.stripNonDigits (Js.trim s)) = String.length (Js.stripNonDigits s).
Proof.
  unfold Js.trim, Js.trimEnd, String.rev.
  rewrite stripNonDigits_rev_app, length_rev_app, stripNonDigits_trimStart.
  rewrite stripNonDigits_rev_app, length_rev_app, stripNonDigits_trimStart.
  cbn. lia.
Qed.

(** A string that holds a digit is neither empty nor blank, so the guard at
    the top of [formatPhoneNumber] lets it through. *)
Lemma formatPhoneNumber_guard phoneNumber :
  0 < String.length (Js.stripNonDigits phoneNumber) →
  negb (Js.truthy phoneNumber) || negb (Js.truthy (Js.trim phoneNumber)) = false.
Proof.
  intros Hd.
  assert (Ht : 0 < String.length (Js.stripNonDigits (Js.trim phoneNumber)))
    by (rewrite length_stripNonDigits_trim; exact Hd).
  destruct phoneNumber as [|c s]; [cbn in Hd; lia|].
  destruct (Js.trim (String c s)) as [|c' s']; [cbn in Ht; lia|].
  reflexivity.
Qed.

(** C5. For every non-empty input, [formatPhoneNumber] decides by the number
    of digits: exactly 10 digits give "+1" and the digits; exactly 11 digits
    that start with 1 give "+" and the digits; 11 or more digits otherwise
    give "+" and the digits; exactly 7 digits give "+1" and the digits. *)
Theorem formatPhoneNumber_by_digit_count (phoneNumber : string) :
  phoneNumber ≠ "" →
  let digits := Js.stripNonDigits phoneNumber in
  (String.length digits = 10 → formatPhoneNumber phoneNumber = "+1" +:+ digits)
  ∧ (String.length digits = 11 → Js.startsWith "1" digits = true →
     formatPhoneNumber phoneNumber = "+" +:+ digits)
  ∧ (11 ≤ String.length digits → formatPhoneNumber phoneNumber = "+" +:+ digits)
  ∧ (String.length digits = 7 → formatPhoneNumber phoneNumber = "+1" +:+ digits).
Proof.
  intros _ digits. unfold formatPhoneNumber. fold digits.
  repeat split.
  - intros Hn. rewrite formatPhoneNumber_guard by (fold digits; lia).
    rewrite Hn. reflexivity.
  - intros Hn H1. rewrite formatPhoneNumber_guard by (fold digits; lia).
    rewrite Hn, H1. reflexivity.
  - intros Hn. rewrite formatPhoneNumber_guard by (fold digits; lia).
    destruct (String.length digits =? 10) eqn:E10;
      [apply Nat.eqb_eq in E10; lia|].
    destruct (String.length digits =? 11) eqn:E11.
    + destruct (Js.startsWith "1" digits); reflexivity.
    + apply Nat.eqb_neq in E11.
      assert (Hlt : (11 <? String.length digits) = true) by (apply Nat.ltb_lt; lia).
      cbn [andb]. rewrite Hlt. reflexivity.
  - intros Hn. rewrite formatPhoneNumber_guard by (fold digits; lia).
    rewrite Hn. reflexivity.
Qed.

Lemma formatPhoneNumber_by_digit_count_witness :
  formatPhoneNumber "(808) 969-3899" = "+18089693899"
  ∧ formatPhoneNumber "1 808 969-3899" = "+18089693899"
  ∧ formatPhoneNumber "44 20 7946 0958 1" = "+4420794609581"
  ∧ formatPhoneNumber "969-3899" = "+19693899".
Proof.
  assert (H1 : "(808) 969-3899" ≠ "") by discriminate.
  assert (H2 : "1 808 969-3899" ≠ "") by discriminate.
  assert (H3 : "44 20 7946 0958 1" ≠ "") by discriminate.
  assert (H4 : "969-3899" ≠ "") by discriminate.
  destruct (formatPhoneNumber_by_digit_count _ H1) as (A & _).
  destruct (formatPhoneNumber_by_digit_count _ H2) as (_ & B & _).
  destruct (formatPhoneNumber_by_digit_count _ H3) as (_ & _ & C & _).
  destruct (formatPhoneNumber_by_digit_count _ H4) as (_ & _ & _ & D).
  split; [|split; [|split]].
  - apply A. reflexivity.
  - apply B; reflexivity.
  - apply C. vm_compute. lia.
  - apply D. reflexivity.
Defined.

Lemma extracted_app tr1 tr2 : extracted (tr1 ++ tr2) = extracted tr1 ++ extracted tr2.
Proof.
  induction tr1 as [|[link|record ok|p snap] tr1 IH]; cbn; [reflexivity| |exact IH|exact IH].
  rewrite IH. reflexivity.
Qed.

Lemma commits_app tr1 tr2 : commits (tr1 ++ tr2) = commits tr1 + commits tr2.
Proof.
  induction tr1 as [|[link|record [|]|p snap] tr1 IH]; cbn; try exact IH; [reflexivity|].
  rewrite IH. reflexivity.
Qed.

Lemma progressCalls_app tr1 tr2 :
  progressCalls (tr1 ++ tr2) = progressCalls tr1 ++ progressCalls tr2.
Proof.
  induction tr1 as [|[link|record ok|p snap] tr1 IH]; cbn; [reflexivity|exact IH|exact IH|].
  rewrite IH. reflexivity.
Qed.

Lemma extractBusinessDetails_URL w link t : URL (extractBusinessDetails w link t).1 = link.
Proof.
  unfold extractBusinessDetails.
  destruct (goto w t link); [reflexivity|].
  destruct (waitForSelector w (S t) "[role=main]"); [reflexivity|].
  destruct (readDetails w (S (S t)) link); reflexivity.
Qed.

(** ** What one round of the per-URL loop does *)

Section ControllerFacts.

Variable w : World.
Variable progressCb : Callback Details.
Variable listUrl : string.
Variable targetResults : nat.
Variable sessionId : string.
Variable existingUrls : gset string.

Lemma processUrl_frame link index s :
  let s' := processUrl w progressCb listUrl targetResults sessionId link index s in
  processedUrls s' = processedUrls s ∧ allCards s' = allCards s
  ∧ scrollAttempts s' = scrollAttempts s ∧ currentUpdatedIndex s' = index + 1.
Proof.
  unfold processUrl, processTry, recordInsert.
  destruct (goto w (clock s) link); cbn.
  { destruct (contextDestroyed _); cbn; auto. }
  destruct (extractBusinessDetails w link (S (clock s))) as [details t1]; cbn.
  destruct (incomplete details); cbn; [auto|].
  destruct (insertWithRetry _ _ _) as [[|] t2]; cbn; [|auto].
  destruct (progressCb _ _ _); cbn; [|auto].
  destruct (contextDestroyed _); cbn; auto.
Qed.

Lemma processUrl_effect link index s :
  roundEffect w targetResults sessionId link s
    (processUrl w progressCb listUrl targetResults sessionId link index s).
Proof.
  unfold processUrl, processTry, recordInsert.
  destruct (goto w (clock s) link); cbn.
  { apply round_unreachable; destruct (contextDestroyed _); reflexivity. }
  pose proof (extractBusinessDetails_URL w link (S (clock s))) as Hurl.
  destruct (extractBusinessDetails w link (S (clock s))) as [details t1]; cbn in *.
  destruct (incomplete details) eqn:Hinc; cbn.
  { apply round_incomplete; reflexivity. }
  destruct (insertWithRetry _ _ _) as [[|] t2]; cbn.
  - destruct (progressCb _ _ _); cbn.
    + apply (round_committed _ _ _ _ _ _ details); auto;
        destruct (contextDestroyed _); cbn; rewrite <- ?app_assoc; reflexivity.
    + apply (round_committed _ _ _ _ _ _ details); auto; cbn;
        rewrite <- ?app_assoc; reflexivity.
  - apply (round_not_inserted _ _ _ _ _ _ details); auto; cbn;
      rewrite <- ?app_assoc; reflexivity.
Qed.

End ControllerFacts.

(** ** The invariant of the main loop *)

Lemma Invariant_initial w targetResults existingUrls t updatedIndex :
  Invariant w targetResults existingUrls (initialLocals t updatedIndex).
Proof.
  split; cbn; try reflexivity; try lia; try apply NoDup_nil_2.
  - intros d Hd. inversion Hd.
  - intros link Hl. inversion Hl.
  - intros link Hl. inversion Hl.
  - intros r b Hr. inversion Hr.
  - intros i r Hi. rewrite lookup_nil in Hi. discriminate.
Qed.

(** The invariant reads the trace, the result list, the counter and the
    ledger only. *)
Lemma Invariant_frame w targetResults existingUrls s s' :
  trace s' = trace s → results s' = results s → newFound s' = newFound s →
  processedUrls s ⊆ processedUrls s' →
  Invariant w targetResults existingUrls s → Invariant w targetResults existingUrls s'.
Proof.
  intros Ht Hr Hn Hp [I1 I2 I3 I4 I5 I6 I7 I8 I9 I10 I11].
  split; rewrite ?Ht, ?Hr, ?Hn; auto.
Qed.

Lemma commits_take_lt tr i record :
  tr !! i = Some (Insert record true) → S (commits (take i tr)) ≤ commits tr.
Proof.
  intros Hi. rewrite <- (take_drop_middle tr i _ Hi) at 2.
  rewrite commits_app. cbn. lia.
Qed.

Lemma take_app_short {A} (l k : list A) n : n ≤ length l → take n (l ++ k) = take n l.
Proof.
  intros Hn. rewrite take_app.
  replace (n - length l) with 0 by lia. rewrite take_0, app_nil_r. reflexivity.
Qed.

(** Appending a block of events keeps [announced], when the result list only
    grows at its end and the block announces its own inserts. *)
Lemma announced_app w targetResults res more tr ext :
  announced w targetResults res tr →
  commits tr = length res →
  (∀ j record,
     ext !! j = Some (Insert record true) →
     ext !! S j
     = Some (announcement w targetResults (res ++ more) (S (commits tr + commits (take j ext))))) →
  announced w targetResults (res ++ more) (tr ++ ext).
Proof.
  intros Htr Hc Hext i record Hi.
  destruct (decide (i < length tr)) as [Hlt|Hge].
  - rewrite lookup_app_l in Hi by exact Hlt.
    pose proof (Htr i record Hi) as Hnext.
    pose proof (lookup_lt_Some _ _ _ Hnext) as Hlt'.
    pose proof (commits_take_lt _ _ _ Hi) as Hle.
    rewrite lookup_app_l by exact Hlt'.
    rewrite take_app_short by lia.
    rewrite Hnext. unfold announcement.
    rewrite take_app_short by lia. reflexivity.
  - rewrite lookup_app_r in Hi by lia.
    rewrite lookup_app_r by lia.
    replace (S i - length tr) with (S (i - length tr)) by lia.
    rewrite (Hext _ _ Hi).
    rewrite (take_app tr ext i), (take_ge tr i) by lia.
    rewrite commits_app. reflexivity.
Qed.

Lemma truthy_nonempty s : Js.truthy s = true → s ≠ "".
Proof. destruct s; [discriminate|]. intros _. discriminate. Qed.

Lemma completeRow_mapped sessionId details :
  incomplete details = false →
  completeRow (withSession sessionId (mapToSupabaseColumns details)).
Proof.
  unfold incomplete. intros H.
  apply orb_false_elim in H as [H H3]. apply orb_false_elim in H as [H1 H2].
  apply negb_false_iff in H1, H2, H3.
  unfold completeRow, withSession.
  destruct (Js.truthy sessionId); cbn; auto using truthy_nonempty.
Qed.

Lemma roundEffect_extracted w targetResults sessionId link s s' :
  roundEffect w targetResults sessionId link s s' →
  ∀ other, other ∈ extracted (trace s') → other ∈ extracted (trace s) ∨ other = link.
Proof.
  intros [Ht _ _|Ht _ _|d _ _ Ht _ _|d _ _ Ht _ _] other; rewrite Ht, ?extracted_app; cbn;
    rewrite ?elem_of_app, ?list_elem_of_singleton; tauto.
Qed.

Lemma roundEffect_invariant w targetResults existingUrls sessionId link s s' :
  Invariant w targetResults existingUrls s →
  newFound s < targetResults →
  link ∉ extracted (trace s) → link ∉ existingUrls → link ∈ processedUrls s →
  processedUrls s' = processedUrls s →
  roundEffect w targetResults sessionId link s s' →
  Invariant w targetResults existingUrls s'.
Proof.
  intros Inv Hlt Hnew Hfresh Hproc Hp Heff.
  assert (Hsub : processedUrls s ⊆ processedUrls s') by (rewrite Hp; reflexivity).
  destruct Inv as [I1 I2 I3 I4 I5 I6 I7 I8 I9 I10 I11].
  assert (Hnodup : NoDup (extracted (trace s) ++ [link])).
  { apply NoDup_app. split; [exact I6|]. split; [|apply NoDup_singleton].
    intros x Hx Hx'. apply list_elem_of_singleton in Hx'. subst x. contradiction. }
  assert (Hin : ∀ x, x ∈ extracted (trace s) ++ [link] → x ∈ processedUrls s' ∧ x ∉ existingUrls).
  { intros x Hx. apply elem_of_app in Hx as [Hx|Hx].
    - split; [apply Hsub, I7, Hx|apply I8, Hx].
    - apply list_elem_of_singleton in Hx. subst x. split; [apply Hsub, Hproc|exact Hfresh]. }
  destruct Heff as [Ht Hr Hn|Ht Hr Hn|d Hu Hc Ht Hr Hn|d Hu Hc Ht Hr Hn].
  - split; rewrite ?Ht, ?Hr, ?Hn; auto.
  - split; rewrite ?Ht, ?Hr, ?Hn, ?extracted_app, ?commits_app, ?progressCalls_app; cbn;
      rewrite ?app_nil_r; auto; try lia.
    + intros details Hd. apply elem_of_app. left. auto.
    + intros x Hx. apply (Hin x Hx).
    + intros x Hx. apply (Hin x Hx).
    + intros record ok Hrec. apply elem_of_app in Hrec as [Hrec|Hrec]; [eauto|].
      apply list_elem_of_singleton in Hrec. discriminate.
    + rewrite <- (app_nil_r (results s)).
      apply announced_app; [exact I11|lia|].
      intros [|[|j]] record Hj; cbn in Hj; discriminate.
  - split; rewrite ?Ht, ?Hr, ?Hn, ?extracted_app, ?commits_app, ?progressCalls_app; cbn;
      rewrite ?app_nil_r; auto; try lia.
    + intros details Hd. apply elem_of_app. left. auto.
    + intros x Hx. apply (Hin x Hx).
    + intros x Hx. apply (Hin x Hx).
    + intros record ok Hrec. apply elem_of_app in Hrec as [Hrec|Hrec]; [eauto|].
      apply elem_of_cons in Hrec as [Hrec|Hrec]; [discriminate|].
      apply list_elem_of_singleton in Hrec. injection Hrec as -> _.
      apply completeRow_mapped, Hc.
    + rewrite <- (app_nil_r (results s)).
      apply announced_app; [exact I11|lia|].
      intros [|[|[|j]]] record Hj; cbn in Hj; discriminate.
  - split; rewrite ?Ht, ?Hr, ?Hn, ?extracted_app, ?commits_app, ?progressCalls_app; cbn;
      rewrite ?app_nil_r; auto; try lia.
    + rewrite length_app. cbn. lia.
    + intros details Hd. apply elem_of_app in Hd as [Hd|Hd].
      * apply elem_of_app. left. auto.
      * apply list_elem_of_singleton in Hd. subst details. rewrite Hu.
        apply elem_of_app. right. apply list_elem_of_singleton. reflexivity.
    + rewrite fmap_app. cbn. rewrite Hu.
      apply NoDup_app. split; [exact I5|]. split; [|apply NoDup_singleton].
      intros x Hx Hx'. apply list_elem_of_singleton in Hx'. subst x.
      apply list_elem_of_fmap in Hx as (details & Hd1 & Hd2).
      apply Hnew. rewrite Hd1. apply I4, Hd2.
    + intros x Hx. apply (Hin x Hx).
    + intros x Hx. apply (Hin x Hx).
    + intros record ok Hrec. apply elem_of_app in Hrec as [Hrec|Hrec]; [eauto|].
      apply elem_of_cons in Hrec as [Hrec|Hrec]; [discriminate|].
      apply elem_of_cons in Hrec as [Hrec|Hrec].
      * injection Hrec as -> _. apply completeRow_mapped, Hc.
      * apply list_elem_of_singleton in Hrec. discriminate.
    + change (progressCalls (trace s)
              ++ [(percent w (S (newFound s)) targetResults, results s ++ [d])]
              = (λ n, (percent w n targetResults, take n (results s ++ [d])))
                  <$> seq 1 (S (newFound s))).
      rewrite I10, seq_S, fmap_app. f_equal.
      * apply list_fmap_ext. intros i n Hn'.
        apply lookup_seq in Hn' as [-> Hi].
        rewrite take_app_short by lia. reflexivity.
      * cbn. rewrite take_ge by (rewrite length_app; cbn; lia). reflexivity.
    + apply announced_app; [exact I11|lia|].
      intros [|[|[|j]]] record Hj; cbn in Hj; try discriminate.
      cbn. unfold announcement. rewrite I2, Nat.add_0_r.
      rewrite take_ge by (rewrite length_app; cbn; lia).
      reflexivity.
Qed.

(** ** Loading and queueing cards *)

Lemma sameLedger_refl s : sameLedger s s.
Proof. repeat split. Qed.

Lemma sameLedger_trans s1 s2 s3 : sameLedger s1 s2 → sameLedger s2 s3 → sameLedger s1 s3.
Proof.
  intros (A1 & A2 & A3 & A4 & A5) (B1 & B2 & B3 & B4 & B5).
  repeat split; congruence.
Qed.

Lemma scrollForCards_ledger w wanted fuel s :
  sameLedger s (scrollForCards w wanted fuel s).2.
Proof.
  revert s. induction fuel as [|fuel IH]; intros s; cbn; [apply sameLedger_refl|].
  destruct (_ && _); [|apply sameLedger_refl].
  destruct (scrollBy w (clock s)); [repeat split|].
  destruct (querySelectorAll w (S (clock s))) as [cards|message]; [|repeat split].
  eapply sameLedger_trans; [|apply IH]. repeat split.
Qed.

Lemma loadCards_ledger w targetResults buffer s :
  sameLedger s (loadCards w targetResults buffer s).2.
Proof.
  unfold loadCards. destruct (_ <? _); [|apply sameLedger_refl].
  destruct (querySelectorAll w (clock s)) as [cards|message]; [|repeat split].
  eapply sameLedger_trans; [|apply scrollForCards_ledger]. repeat split.
Qed.

Lemma sameLedger_invariant w targetResults existingUrls s s' :
  sameLedger s s' →
  Invariant w targetResults existingUrls s → Invariant w targetResults existingUrls s'.
Proof.
  intros (A1 & A2 & A3 & A4 & A5). apply Invariant_frame; auto. rewrite A4. reflexivity.
Qed.

(** What [collectUrls] queues: links that the ledger did not know, each
    once, and now marked as processed. *)
Lemma collectUrls_spec existingUrls limit cards :
  ∀ i queue s,
    let r := collectUrls existingUrls limit i cards queue s in
    trace r.2 = trace s ∧ results r.2 = results s ∧ newFound r.2 = newFound s
    ∧ allCards r.2 = allCards s ∧ scrollAttempts r.2 = scrollAttempts s
    ∧ processedUrls s ⊆ processedUrls r.2
    ∧ ∃ new, r.1 = queue ++ new ∧ NoDup new.*1
        ∧ ∀ link, link ∈ new.*1 →
            (link ∉ processedUrls s) ∧ (link ∉ existingUrls) ∧ (link ∈ processedUrls r.2).
Proof.
  induction cards as [|card cards IH]; intros i queue s; cbn.
  { do 5 (split; [reflexivity|]). split; [reflexivity|]. exists []. rewrite app_nil_r.
    split; [reflexivity|]. split; [apply NoDup_nil_2|]. intros link H. inversion H. }
  destruct (href card) as [link|]; [|apply IH].
  destruct (decide (link ∈ processedUrls s)) as [Hp|Hp]; [apply (IH _ _ (skipDuplicate s))|].
  destruct (decide (link ∈ existingUrls)) as [He|He]; [apply (IH _ _ (skipDuplicate s))|].
  destruct (limit <=? length (queue ++ [(link, i)])).
  - cbn. do 5 (split; [reflexivity|]). split; [apply union_subseteq_r|].
    exists [(link, i)]. split; [reflexivity|]. split; [apply NoDup_singleton|].
    intros other H. cbn in H. apply list_elem_of_singleton in H. subst other.
    split; [exact Hp|]. split; [exact He|].
    apply elem_of_union_l, elem_of_singleton. reflexivity.
  - specialize (IH (S i) (queue ++ [(link, i)]) (addProcessed link s)).
    cbn in IH. destruct IH as (A1 & A2 & A3 & A4 & A5 & A6 & new & B1 & B2 & B3).
    assert (Hmarked : link ∈ ({[link]} ∪ processedUrls s : gset string))
      by (apply elem_of_union_l, elem_of_singleton; reflexivity).
    do 5 (split; [assumption|]).
    split; [etrans; [apply union_subseteq_r|exact A6]|].
    exists ((link, i) :: new). rewrite B1, <- app_assoc.
    split; [reflexivity|]. split.
    + cbn. apply NoDup_cons. split; [|exact B2].
      intros Hin. apply B3 in Hin as [Hin _]. exact (Hin Hmarked).
    + intros other H. cbn in H. apply elem_of_cons in H as [-> | H].
      * split; [exact Hp|]. split; [exact He|]. apply A6, Hmarked.
      * apply B3 in H as (H1 & H2 & H3).
        split; [|split; assumption].
        intros Hold. apply H1, elem_of_union_r, Hold.
Qed.

(** ** The per-URL loop keeps the invariant *)

Section LoopFacts.

Variable w : World.
Variable progressCb : Callback Details.
Variable listUrl : string.
Variable targetResults : nat.
Variable sessionId : string.
Variable existingUrls : gset string.

Lemma processUrls_invariant queue :
  ∀ s,
    Invariant w targetResults existingUrls s → pending existingUrls s queue →
    let s' := processUrls w progressCb listUrl targetResults sessionId queue s in
    Invariant w targetResults existingUrls s'
    ∧ allCards s' = allCards s ∧ scrollAttempts s' = scrollAttempts s.
Proof.
  induction queue as [|[link index] queue IH]; intros s Inv [Hnd Hq];
    cbn [processUrls]; [auto|].
  destruct (newFound s <? targetResults) eqn:Hlt; [|auto].
  apply Nat.ltb_lt in Hlt.
  pose proof (processUrl_frame w progressCb listUrl targetResults sessionId link index s)
    as (F1 & F2 & F3 & F4).
  pose proof (processUrl_effect w progressCb listUrl targetResults sessionId link index s)
    as Heff.
  set (s1 := processUrl w progressCb listUrl targetResults sessionId link index s) in *.
  cbn in Hnd. apply NoDup_cons in Hnd as [Hhead Hnd].
  destruct (Hq link) as (Q1 & Q2 & Q3); [cbn; left|].
  assert (Inv1 : Invariant w targetResults existingUrls s1)
    by (eapply roundEffect_invariant; eauto).
  destruct (IH s1 Inv1) as (R1 & R2 & R3).
  { split; [exact Hnd|]. intros other Ho.
    destruct (Hq other) as (O1 & O2 & O3); [cbn; right; exact Ho|].
    split; [|split; [exact O2|rewrite F1; exact O3]].
    intros Hin. apply (roundEffect_extracted _ _ _ _ _ _ Heff) in Hin as [Hin | ->]; auto. }
  split; [exact R1|]. split; congruence.
Qed.

Lemma mainStep_invariant buffer s :
  Invariant w targetResults existingUrls s →
  Invariant w targetResults existingUrls
    (mainStep w progressCb listUrl targetResults sessionId existingUrls buffer s).2.
Proof.
  intros Inv. unfold mainStep.
  pose proof (loadCards_ledger w targetResults buffer s) as Hled.
  destruct (loadCards w targetResults buffer s) as [[[]|message] s1]; cbn in Hled;
    [|cbn; eapply sameLedger_invariant; eauto].
  assert (Inv1 : Invariant w targetResults existingUrls s1)
    by (eapply sameLedger_invariant; eauto).
  pose proof (collectUrls_spec existingUrls (targetResults - newFound s1 + 5)
                (drop (currentUpdatedIndex s1) (allCards s1)) (currentUpdatedIndex s1) [] s1)
    as (C1 & C2 & C3 & C4 & C5 & C6 & new & C7 & C8 & C9).
  destruct (collectUrls _ _ _ _ _ _) as [queue s2]; cbn [fst snd app] in *. subst queue.
  assert (Inv2 : Invariant w targetResults existingUrls s2)
    by (eapply Invariant_frame; eauto).
  destruct (processUrls_invariant new s2 Inv2) as (P1 & P2 & P3).
  { split; [exact C8|]. intros link Hl. apply C9 in Hl as (L1 & L2 & L3).
    split; [|split; assumption]. rewrite C1. intros Hin.
    apply L1. apply (inv_extracted_processed _ _ _ _ Inv1), Hin. }
  destruct (_ <? _); cbn [snd]; [|exact P1].
  eapply Invariant_frame; [..|exact P1]; reflexivity.
Qed.

Lemma mainLoop_invariant fuel buffer :
  ∀ s r,
    Invariant w targetResults existingUrls s →
    mainLoop w progressCb listUrl targetResults sessionId existingUrls fuel buffer s = Some r →
    Invariant w targetResults existingUrls r.2.
Proof.
  induction fuel as [|fuel IH]; intros s r Inv; cbn [mainLoop].
  - destruct (_ && _); [discriminate|]. intros [= <-]. exact Inv.
  - destruct (_ && _); [|intros [= <-]; exact Inv].
    pose proof (mainStep_invariant buffer s Inv) as Inv1.
    destruct (mainStep _ _ _ _ _ _ _ _) as [[[]|message] s1]; cbn in Inv1.
    + apply IH, Inv1.
    + intros [= <-]. exact Inv1.
Qed.

End LoopFacts.

(** ** Runs of [scrapeUrlsAndDetails] *)

Lemma Invariant_started w targetResults existingUrls t t' updatedIndex :
  Invariant w targetResults existingUrls (set_clock t' (initialLocals t updatedIndex)).
Proof.
  eapply Invariant_frame; [..|apply (Invariant_initial _ _ _ t updatedIndex)]; reflexivity.
Qed.

Section RunFacts.

Variable w : World.
Variables searchTerm location : string.
Variable maxResults : nat.
Variable progressCb : Callback Details.
Variable updatedIndex : nat.
Variable sessionId : string.
Variable desiredNewResults : option nat.
Variable buffer : nat.
Variable existingUrls : gset string.

Abbreviation targetResults := (orElse desiredNewResults maxResults).
Abbreviation run :=
  (scrapeUrlsAndDetails w searchTerm location maxResults progressCb updatedIndex
     sessionId desiredNewResults buffer existingUrls).
Abbreviation attempt :=
  (scrapeTry w searchTerm location maxResults progressCb updatedIndex
     sessionId desiredNewResults buffer existingUrls).

Lemma scrapeTry_invariant fuel t r s :
  attempt fuel t = Some (r, s) →
  Invariant w targetResults existingUrls s
  ∧ ∀ result, r = Returned result → result = resultOf s.
Proof.
  unfold scrapeTry.
  destruct (openList w _ t) as [[[]|message] t1].
  2:{ intros [= <- <-]. split; [|discriminate].
      apply Invariant_started. }
  destruct (querySelector w t1 "div[role=feed]") as [[|]|message]; cycle 1.
  { intros [= <- <-]. split; [|intros result [= <-]; reflexivity].
    apply Invariant_started. }
  { intros [= <- <-]. split; [|discriminate]. apply Invariant_started. }
  destruct (mainLoop _ _ _ _ _ _ _ _ _) as [[[[]|message] s1]|] eqn:Hloop; [| |discriminate].
  - apply mainLoop_invariant in Hloop;
      [|apply Invariant_started].
    cbn [snd] in Hloop.
    assert (Hlen : (targetResults <? length (results s1)) = false).
    { apply Nat.ltb_ge. rewrite (inv_count _ _ _ _ Hloop). apply (inv_bound _ _ _ _ Hloop). }
    rewrite Hlen. intros [= <- <-]. split; [exact Hloop|]. intros result [= <-]. reflexivity.
  - apply mainLoop_invariant in Hloop;
      [|apply Invariant_started].
    intros [= <- <-]. split; [exact Hloop|discriminate].
Qed.

(** Whatever happens inside, a run that ends answers with the locals it
    ends with, and these satisfy the invariant. *)
Lemma scrapeUrlsAndDetails_invariant fuel t r s :
  run fuel t = Some (r, s) →
  r = Returned (resultOf s) ∧ Invariant w targetResults existingUrls s.
Proof.
  unfold scrapeUrlsAndDetails.
  destruct (attempt fuel t) as [[[result|message] s1]|] eqn:Htry; [| |discriminate].
  - apply scrapeTry_invariant in Htry as [Inv Hres].
    intros [= <- <-]. rewrite (Hres result eq_refl). auto.
  - apply scrapeTry_invariant in Htry as [Inv Hres].
    intros [= <- <-]. auto.
Qed.

End RunFacts.

(** ** Termination of the main loop *)


Lemma processUrls_frame w progressCb listUrl targetResults sessionId queue :
  ∀ s,
    let s' := processUrls w progressCb listUrl targetResults sessionId queue s in
    allCards s' = allCards s ∧ scrollAttempts s' = scrollAttempts s.
Proof.
  induction queue as [|[link index] queue IH]; intros s; cbn [processUrls]; [auto|].
  destruct (newFound s <? targetResults); [|auto].
  destruct (IH (processUrl w progressCb listUrl targetResults sessionId link index s))
    as [H1 H2].
  destruct (processUrl_frame w progressCb listUrl targetResults sessionId link index s)
    as (_ & F2 & F3 & _).
  cbn zeta. split; congruence.
Qed.

Section Termination.

Variable w : World.
Variable progressCb : Callback Details.
Variable listUrl : string.
Variable targetResults : nat.
Variable sessionId : string.
Variable existingUrls : gset string.
Variable bound : nat.
Hypothesis page_bounded : boundedPage w bound.




End Termination.

(** ** Fault containment (C6) *)

Section Containment.

Variable w : World.
Variables searchTerm location : string.
Variable maxResults : nat.
Variable progressCb : Callback Details.
Variable updatedIndex : nat.
Variable sessionId : string.
Variable desiredNewResults : option nat.
Variable buffer : nat.
Variable existingUrls : gset string.

Abbreviation run :=
  (scrapeUrlsAndDetails w searchTerm location maxResults progressCb updatedIndex
     sessionId desiredNewResults buffer existingUrls).
Abbreviation attempt :=
  (scrapeTry w searchTerm location maxResults progressCb updatedIndex
     sessionId desiredNewResults buffer existingUrls).


End Containment.

(** The first query of the entry point answers or throws, and
    [getPermanentSearchProgress] with it. *)
Lemma getPermanentSearchProgress_returns w t answer :
  storeSelectUrls w t = Returned answer →
  ∃ updatedIndex lastRetrievedCount existingUrls,
    getPermanentSearchProgress w t
    = Returned (updatedIndex, lastRetrievedCount, existingUrls).
Proof.
  intros H. unfold getPermanentSearchProgress. rewrite H.
  destruct answer as [[[|link links]|] [message|]]; eauto.
Qed.

Lemma getPermanentSearchProgress_throws w t message :
  storeSelectUrls w t = Thrown message ↔ getPermanentSearchProgress w t = Thrown message.
Proof.
  unfold getPermanentSearchProgress.
  destruct (storeSelectUrls w t) as [[[[|link links]|] [message'|]]|message'];
    split; congruence.
Qed.


(** * The claims *)

(** ** C3: identifiers are not repeated *)

(** C3 (amended). In every run of the main loop, the URLs of the records in
    its result list are pairwise distinct, no URL is submitted to the
    extractor twice, and no URL of the durably-known set is submitted to the
    extractor. *)
Theorem main_loop_never_repeats_an_identifier
    (w : World) (searchTerm location : string) (maxResults : nat)
    (progressCb : Callback Details) (updatedIndex : nat) (sessionId : string)
    (desiredNewResults : option nat) (buffer : nat) (existingUrls : gset string)
    (fuel t : nat) (result : ScrapeResult.t) (s : Locals) :
  scrapeUrlsAndDetails w searchTerm location maxResults progressCb updatedIndex
    sessionId desiredNewResults buffer existingUrls fuel t = Some (Returned result, s) →
  NoDup (URL <$> ScrapeResult.results result)
  ∧ NoDup (extracted (trace s))
  ∧ ∀ link, link ∈ extracted (trace s) → link ∉ existingUrls.
Proof.
  intros Hrun. apply scrapeUrlsAndDetails_invariant in Hrun as [[= ->] Inv].
  split; [apply (inv_results_nodup _ _ _ _ Inv)|].
  split; [apply (inv_extracted_nodup _ _ _ _ Inv)|apply (inv_extracted_fresh _ _ _ _ Inv)].
Qed.

Lemma main_loop_never_repeats_an_identifier_witness :
  ∃ result s,
    scrapeUrlsAndDetails resumedWorld "pharmacies" "Delhi" 2 Scenario.silent 0 "" None 20
      {["b"; "d"]} 3 2 = Some (Returned result, s)
    ∧ URL <$> ScrapeResult.results result = ["a"; "c"]
    ∧ NoDup (URL <$> ScrapeResult.results result)
    ∧ extracted (trace s) = ["a"; "c"].
Proof.
  eexists _, _. split; [vm_compute; reflexivity|].
  split; [reflexivity|]. split; [|reflexivity].
  eapply (main_loop_never_repeats_an_identifier resumedWorld "pharmacies" "Delhi" 2
            Scenario.silent 0 "" None 20 {["b"; "d"]} 3 2).
  vm_compute. reflexivity.
Defined.

(** When the main loop has met the target, the entry point answers with the
    list of the main loop, untouched. *)
Lemma scrapeAndEnrich_target_met
    (w : World) (searchTerm location : string) (maxResults : nat)
    (progressCb : Callback Details) (fuel : nat) (result : ScrapeResult.t) (s : Locals) :
  mainRun w searchTerm location maxResults progressCb fuel = Some (Returned result, s) →
  length (ScrapeResult.results result) = maxResults →
  scrapeAndEnrich w searchTerm location maxResults progressCb fuel
  = Some (Returned (ScrapeResult.results result)).
Proof.
  unfold mainRun, scrapeAndEnrich, reconciled.
  destruct (getPermanentSearchProgress w 0)
    as [[[updatedIndex lastRetrievedCount] existingUrls]|message]; [|discriminate].
  intros Hrun Hlen. rewrite Hrun. unfold finalCorrection.
  rewrite Hlen, Nat.ltb_irrefl.
  destruct maxResults as [|n]; [|reflexivity].
  destruct (ScrapeResult.results result); [reflexivity|discriminate].
Qed.

(** C3, as stated, fails: the list that the entry point returns holds "b"
    twice. *)
Lemma returned_list_repeats_an_identifier :
  returnedUrls (scrapeAndEnrich shortPage "pharmacies" "Delhi" 3 Scenario.silent 3)
  = Some ["a"; "b"; "b"]
  ∧ ¬ NoDup ["a"; "b"; "b"].
Proof.
  split; [vm_compute; reflexivity|].
  intros H. apply NoDup_cons in H as [_ H]. apply NoDup_cons in H as [H _].
  apply H. left.
Qed.

(** ** C4 and C10: the reconciliation step *)

Section Reconciliation.

Variable w : World.
Variables searchTerm location : string.
Variable maxResults : nat.
Variable progressCb : Callback Details.

Lemma reconciled_after_run fuel result s :
  mainRun w searchTerm location maxResults progressCb fuel = Some (Returned result, s) →
  reconciled w searchTerm location maxResults progressCb fuel
  = Some (Returned
            (finalCorrection (storeSelectRecent w (S (clock s)) maxResults) maxResults
               (ScrapeResult.results result),
             length (ScrapeResult.results result), S (S (clock s)))).
Proof.
  unfold mainRun, reconciled.
  destruct (getPermanentSearchProgress w 0)
    as [[[updatedIndex lastRetrievedCount] existingUrls]|message]; [|discriminate].
  intros ->. reflexivity.
Qed.

Lemma finalCorrection_length answer results :
  length results ≤ maxResults →
  length (finalCorrection answer maxResults results) ≤ maxResults.
Proof.
  intros Hlen. unfold finalCorrection.
  destruct (length results <? maxResults) eqn:Hshort.
  - destruct answer as [[[stored|] [message|]]|message]; try exact Hlen.
    rewrite length_app, length_take. lia.
  - destruct (maxResults <? length results); [|exact Hlen].
    rewrite length_take. lia.
Qed.

(** C4 (amended). Whenever the in-memory list is shorter than the target
    when the main loop is over, the reconciliation step asks the store for
    the [maxResults] most recently created rows, maps them into the shape
    of a record and appends the first [maxResults - length] of them,
    without looking at their identifiers; when the store answers with an
    error or with fewer rows the list stays short.  The corrected list
    never exceeds the target, and it is what the run returns when the main
    loop has committed at least one record. *)
Theorem top_up_appends_the_first_rows (fuel : nat) (result : ScrapeResult.t) (s : Locals) :
  mainRun w searchTerm location maxResults progressCb fuel = Some (Returned result, s) →
  length (ScrapeResult.results result) < maxResults →
  let results := ScrapeResult.results result in
  let corrected :=
    match storeSelectRecent w (S (clock s)) maxResults with
    | Returned (Reply (Some stored) None) =>
        results ++ take (maxResults - length results) (fromSupabaseColumns <$> stored)
    | _ => results
    end in
  reconciled w searchTerm location maxResults progressCb fuel
  = Some (Returned (corrected, length results, S (S (clock s))))
  ∧ length corrected ≤ maxResults
  ∧ (results ≠ [] →
     scrapeAndEnrich w searchTerm location maxResults progressCb fuel
     = Some (Returned corrected)).
Proof.
  intros Hrun Hshort results corrected.
  pose proof (reconciled_after_run fuel result s Hrun) as Hrec.
  assert (Hcorr : finalCorrection (storeSelectRecent w (S (clock s)) maxResults) maxResults
                    results = corrected).
  { unfold finalCorrection, corrected.
    apply Nat.ltb_lt in Hshort. fold results in Hshort. rewrite Hshort.
    destruct (storeSelectRecent w (S (clock s)) maxResults)
      as [[[stored|] [message|]]|message]; reflexivity. }
  fold results in Hrec. rewrite Hcorr in Hrec.
  split; [exact Hrec|]. split.
  - rewrite <- Hcorr. apply finalCorrection_length. fold results in Hshort. lia.
  - intros Hne. unfold scrapeAndEnrich. rewrite Hrec.
    destruct results; [contradiction|reflexivity].
Qed.

(** C10. When the main loop has committed no new record, the entry point
    returns the empty list, whatever the in-memory list holds after the
    top-up: [newFound] is read before the top-up runs. *)
Theorem zero_new_commits_return_nothing (fuel : nat) (result : ScrapeResult.t) (s : Locals) :
  mainRun w searchTerm location maxResults progressCb fuel = Some (Returned result, s) →
  ScrapeResult.results result = [] →
  reconciled w searchTerm location maxResults progressCb fuel
  = Some (Returned
            (finalCorrection (storeSelectRecent w (S (clock s)) maxResults) maxResults [],
             0, S (S (clock s))))
  ∧ scrapeAndEnrich w searchTerm location maxResults progressCb fuel = Some (Returned []).
Proof.
  intros Hrun Hnone.
  pose proof (reconciled_after_run fuel result s Hrun) as Hrec.
  rewrite Hnone in Hrec. cbn [length] in Hrec.
  split; [exact Hrec|]. unfold scrapeAndEnrich. rewrite Hrec. reflexivity.
Qed.

End Reconciliation.

(** C4, as stated, fails: with "a" and "b" in memory and the rows of "b", "a"
    and "c" in the store, the code appends "b" a second time where the
    specification appends "c". *)
Lemma top_up_does_not_skip_present_records :
  let a := Scenario.detailsOf "a" in
  let b := Scenario.detailsOf "b" in
  let c := Scenario.detailsOf "c" in
  let stored := mapToSupabaseColumns <$> [b; a; c] in
  finalCorrection (Returned (Reply (Some stored) None)) 3 [a; b] = [a; b; b]
  ∧ topUpAsSpecified stored 3 [a; b] = [a; b; c]
  ∧ finalCorrection (Returned (Reply (Some stored) None)) 3 [a; b]
    ≠ topUpAsSpecified stored 3 [a; b].
Proof.
  split; [reflexivity|]. split; [vm_compute; reflexivity|].
  vm_compute. discriminate.
Qed.

Lemma top_up_appends_the_first_rows_witness :
  ∃ result s,
    mainRun shortPage "pharmacies" "Delhi" 3 Scenario.silent 3 = Some (Returned result, s)
    ∧ URL <$> ScrapeResult.results result = ["a"; "b"]
    ∧ returnedUrls (scrapeAndEnrich shortPage "pharmacies" "Delhi" 3 Scenario.silent 3)
      = Some ["a"; "b"; "b"].
Proof.
  eexists _, _. split; [vm_compute; reflexivity|]. split; [reflexivity|].
  edestruct (top_up_appends_the_first_rows shortPage "pharmacies" "Delhi" 3
               Scenario.silent 3) as (_ & _ & Hret).
  - vm_compute. reflexivity.
  - cbn. lia.
  - rewrite Hret; [reflexivity|discriminate].
Defined.

Lemma zero_new_commits_return_nothing_witness :
  ∃ topped t,
    reconciled barrenPage "pharmacies" "Delhi" 2 Scenario.silent 3
    = Some (Returned (topped, 0, t))
    ∧ URL <$> topped = ["x"; "y"]
    ∧ scrapeAndEnrich barrenPage "pharmacies" "Delhi" 2 Scenario.silent 3
      = Some (Returned []).
Proof.
  edestruct (zero_new_commits_return_nothing barrenPage "pharmacies" "Delhi" 2
               Scenario.silent 3) as [Hrec Hret].
  - vm_compute. reflexivity.
  - reflexivity.
  - eexists _, _. split; [exact Hrec|]. split; [reflexivity|exact Hret].
Defined.

(** ** C8: the results container is missing *)

(** C8 (amended). When a run does not locate the scrollable results
    container (opening the list view throws, as it does when the wait for
    the container times out, or the lookup of the container finds nothing
    or throws), [scrapeUrlsAndDetails] answers with zero new records, the
    empty list and the cursor it was given, having extracted and stored
    nothing; it does not throw.  [scrapeUrls] answers with the empty list
    when the list view opens and the lookup finds nothing; it throws when
    opening the list view throws and when the lookup throws. *)
Theorem missing_container_ends_the_source
    (w : World) (searchTerm location : string) (maxResults : nat)
    (progressCb : Callback Details) (urlProgressCb : Callback string)
    (updatedIndex : nat) (sessionId : string) (desiredNewResults : option nat)
    (buffer : nat) (existingUrls : gset string) (fuel t : nat) :
  ((∀ t1, openList w (mapsUrl w searchTerm location) t = (Returned tt, t1) →
          querySelector w t1 "div[role=feed]" ≠ Returned true) →
   ∃ s,
     scrapeUrlsAndDetails w searchTerm location maxResults progressCb updatedIndex
       sessionId desiredNewResults buffer existingUrls fuel t
     = Some (Returned {| ScrapeResult.newFound := 0;
                         ScrapeResult.updatedIndex := updatedIndex;
                         ScrapeResult.results := [] |}, s)
     ∧ trace s = [] ∧ results s = [] ∧ currentUpdatedIndex s = updatedIndex)
  ∧ (∀ t1,
       openList w (mapsUrl w searchTerm location) t = (Returned tt, t1) →
       querySelector w t1 "div[role=feed]" = Returned false →
       scrapeUrlsAndDetails w searchTerm location maxResults progressCb updatedIndex
         sessionId desiredNewResults buffer existingUrls fuel t
       = Some (Returned {| ScrapeResult.newFound := 0;
                           ScrapeResult.updatedIndex := updatedIndex;
                           ScrapeResult.results := [] |},
               set_clock (S t1) (initialLocals t updatedIndex))
       ∧ scrapeUrls w searchTerm location maxResults urlProgressCb updatedIndex t
         = (Returned [], S t1))
  ∧ (∀ message t1,
       openList w (mapsUrl w searchTerm location) t = (Thrown message, t1) →
       scrapeUrls w searchTerm location maxResults urlProgressCb updatedIndex t
       = (Thrown message, t1))
  ∧ (∀ message t1,
       openList w (mapsUrl w searchTerm location) t = (Returned tt, t1) →
       querySelector w t1 "div[role=feed]" = Thrown message →
       scrapeUrls w searchTerm location maxResults urlProgressCb updatedIndex t
       = (Thrown message, S t1)).
Proof.
  split; [|split; [|split]].
  - intros Hmissing. unfold scrapeUrlsAndDetails, scrapeTry.
    destruct (openList w _ t) as [[[]|message] t1];
      [|exists (set_clock t1 (initialLocals t updatedIndex));
        split; [reflexivity|cbn; auto]].
    specialize (Hmissing t1 eq_refl).
    destruct (querySelector w t1 "div[role=feed]") as [[|]|message];
      [congruence|exists (set_clock (S t1) (initialLocals t updatedIndex));
                  split; [reflexivity|cbn; auto]..].
  - intros t1 Hopen Hfeed. unfold scrapeUrlsAndDetails, scrapeTry, scrapeUrls.
    rewrite Hopen, Hfeed. split; reflexivity.
  - intros message t1 Hopen. unfold scrapeUrls. rewrite Hopen. reflexivity.
  - intros message t1 Hopen Hfeed. unfold scrapeUrls. rewrite Hopen, Hfeed. reflexivity.
Qed.

Lemma missing_container_ends_the_source_witness :
  (scrapeUrlsAndDetails noFeed "pharmacies" "Delhi" 12 Scenario.silent 7 "" None 20 ∅ 0 0
   = Some (Returned {| ScrapeResult.newFound := 0;
                       ScrapeResult.updatedIndex := 7;
                       ScrapeResult.results := [] |},
           set_clock 4 (initialLocals 0 7))
   ∧ scrapeUrls noFeed "pharmacies" "Delhi" 12 Scenario.silent 7 0 = (Returned [], 4))
  ∧ (∃ s,
       scrapeUrlsAndDetails feedTimeout "pharmacies" "Delhi" 12 Scenario.silent 7 "" None
         20 ∅ 0 0
       = Some (Returned {| ScrapeResult.newFound := 0;
                           ScrapeResult.updatedIndex := 7;
                           ScrapeResult.results := [] |}, s)
       ∧ trace s = [] ∧ results s = [] ∧ currentUpdatedIndex s = 7)
  ∧ scrapeUrls feedTimeout "pharmacies" "Delhi" 12 Scenario.silent 7 0
    = (Thrown "TimeoutError: Waiting for selector failed: 20000ms exceeded", 2).
Proof.
  destruct (missing_container_ends_the_source noFeed "pharmacies" "Delhi" 12
              Scenario.silent Scenario.silent 7 "" None 20 ∅ 0 0) as (_ & Hnone & _).
  destruct (missing_container_ends_the_source feedTimeout "pharmacies" "Delhi" 12
              Scenario.silent Scenario.silent 7 "" None 20 ∅ 0 0)
    as (Hmissing & _ & Hthrown & _).
  split; [apply (Hnone 3); reflexivity|]. split.
  - apply Hmissing. intros t1 Hopen. vm_compute in Hopen. discriminate.
  - apply Hthrown. vm_compute. reflexivity.
Defined.

(** On a page without the feed the wait for it times out: [scrapeUrls]
    throws the timeout to its caller and returns no list, while
    [scrapeUrlsAndDetails] returns the empty result. *)
Lemma scrapeUrls_throws_without_the_container :
  scrapeUrls feedTimeout "pharmacies" "Delhi" 12 Scenario.silent 0 0
  = (Thrown "TimeoutError: Waiting for selector failed: 20000ms exceeded", 2)
  ∧ querySelector feedTimeout 2 "div[role=feed]" = Returned false
  ∧ (¬ ∃ urls t,
         scrapeUrls feedTimeout "pharmacies" "Delhi" 12 Scenario.silent 0 0
         = (Returned urls, t))
  ∧ scrapeUrlsAndDetails feedTimeout "pharmacies" "Delhi" 12 Scenario.silent 0 "" None 20
      ∅ 3 0
    = Some (Returned {| ScrapeResult.newFound := 0;
                        ScrapeResult.updatedIndex := 0;
                        ScrapeResult.results := [] |},
            set_clock 2 (initialLocals 0 0)).
Proof.
  split; [vm_compute; reflexivity|]. split; [reflexivity|].
  split; [intros (urls & t & H); vm_compute in H; discriminate|vm_compute; reflexivity].
Qed.

(** ** C7: records without a required field *)

(** C7. No record that lacks a name, an address or a phone number is handed
    to the commit pipeline; the controller extracts such a candidate once,
    leaves the result list and the counter alone, moves the cursor past it
    and goes on with the rest of the queue. *)
Theorem incomplete_records_are_skipped
    (w : World) (progressCb : Callback Details) (sessionId : string) :
  (∀ searchTerm location maxResults updatedIndex desiredNewResults buffer existingUrls
     fuel t r s,
     scrapeUrlsAndDetails w searchTerm location maxResults progressCb updatedIndex
       sessionId desiredNewResults buffer existingUrls fuel t = Some (r, s) →
     ∀ record ok, Insert record ok ∈ trace s → completeRow record)
  ∧ (∀ listUrl targetResults link index rest s,
       newFound s < targetResults →
       goto w (clock s) link = None →
       incomplete (extractBusinessDetails w link (S (clock s))).1 = true →
       processUrls w progressCb listUrl targetResults sessionId ((link, index) :: rest) s
       = processUrls w progressCb listUrl targetResults sessionId rest
           (set_currentUpdatedIndex (index + 1)
              (emit (Extract link)
                 (set_clock (extractBusinessDetails w link (S (clock s))).2 s)))).
Proof.
  split.
  - intros searchTerm location maxResults updatedIndex desiredNewResults buffer
      existingUrls fuel t r s Hrun.
    apply scrapeUrlsAndDetails_invariant in Hrun as [_ Inv].
    apply (inv_inserted_complete _ _ _ _ Inv).
  - intros listUrl targetResults link index rest s Hlt Hgoto Hinc.
    cbn [processUrls]. apply Nat.ltb_lt in Hlt. rewrite Hlt.
    unfold processUrl, processTry. rewrite Hgoto.
    destruct (extractBusinessDetails w link (S (clock s))) as [details t1].
    cbn [fst snd] in *. rewrite Hinc. reflexivity.
Qed.

Lemma incomplete_records_are_skipped_witness :
  (let s := set_clock 4 (initialLocals 0 0) in
   let s' := processUrls phonelessPage Scenario.silent "list" 2 "" [("a", 0)] s in
   trace s' = [Extract "a"] ∧ results s' = [] ∧ newFound s' = 0
   ∧ currentUpdatedIndex s' = 1)
  ∧ ∃ r s,
      scrapeUrlsAndDetails phonelessPage "pharmacies" "Delhi" 2 Scenario.silent 0 "" None
        20 ∅ 3 0 = Some (r, s)
      ∧ extracted (trace s) = ["a"; "b"; "c"; "d"; "e"]
      ∧ ∀ record ok, Insert record ok ∈ trace s → completeRow record.
Proof.
  destruct (incomplete_records_are_skipped phonelessPage Scenario.silent "")
    as [Hrun Hstep].
  split.
  - intros s s'. unfold s'.
    rewrite (Hstep "list" 2 "a" 0 [] s); [|cbn; lia|reflexivity|reflexivity].
    repeat split.
  - eexists _, _. split; [vm_compute; reflexivity|]. split; [reflexivity|].
    eapply (Hrun "pharmacies" "Delhi" 2 0 None 20 ∅ 3 0).
    vm_compute. reflexivity.
Defined.

(** ** C9: the progress callback *)





(** ** C2: the store reports a duplicate *)

(** Three attempts, then [false]; a success at the second attempt. *)
Example insertWithRetry_gives_up :
  insertWithRetry
    (Scenario.quiet [] Scenario.complete (λ _, Thrown "fetch failed") [] [])
    (mapToSupabaseColumns (Scenario.detailsOf "a")) 7
  = (false, 10).
Proof. reflexivity. Qed.

Example insertWithRetry_second_attempt :
  insertWithRetry
    (withInsertAnswer
       (Scenario.quiet [] Scenario.complete Scenario.accepted [] []) 7
       (Returned (Reply None (Some "connection reset"))))
    (mapToSupabaseColumns (Scenario.detailsOf "a")) 7
  = (true, 9).
Proof. reflexivity. Qed.









(** ** C1: the exact count *)

(** C1. The exact count fails on this page.  One result is asked for and
    the source can supply the candidates "g", "h" and "i" (and twelve more),
    yet the run returns the empty list: the first round queues six links,
    none of which is complete, and then moves the cursor to the end of the
    loaded cards, so that the cards from "g" on are never looked at. *)
Theorem exact_count_fails_after_skipped_cards :
  supplies sixIncompleteFirst ∅ ["g"; "h"; "i"]
  ∧ scrapeAndEnrich sixIncompleteFirst "pharmacies" "Delhi" 1 Scenario.silent 3
    = Some (Returned [])
  ∧ ∃ result s,
      mainRun sixIncompleteFirst "pharmacies" "Delhi" 1 Scenario.silent 3
      = Some (Returned result, s)
      ∧ extracted (trace s) = ["a"; "b"; "c"; "d"; "e"; "f"]
      ∧ ScrapeResult.updatedIndex result = 21.
Proof.
  split; [|split].
  - split.
    + repeat (apply NoDup_cons; split;
              [rewrite ?elem_of_cons, elem_of_nil; intuition discriminate|]).
      apply NoDup_nil_2.
    + intros link Hl.
      repeat (apply elem_of_cons in Hl as [-> | Hl]); [| | |inversion Hl].
      all: split; [apply not_elem_of_empty|]; split;
        [intros t; eexists; split; [reflexivity|];
         apply list_elem_of_In; vm_compute; tauto|];
        split; [intros t; reflexivity|intros t record _; reflexivity].
  - vm_compute. reflexivity.
  - eexists _, _. split; [vm_compute; reflexivity|]. split; reflexivity.
Qed.

(** * Further properties

    Of the functions of the class that the claims leave out, and of the run
    loop beyond the claims. *)

(** ** Phone numbers *)

Lemma append_cons a s t : String a s +:+ t = String a (s +:+ t).
Proof. reflexivity. Qed.

Lemma append_nil t : "" +:+ t = t.
Proof. reflexivity. Qed.

Ltac string_cons := rewrite ?append_cons, ?append_nil.

Lemma stripNonDigits_idempotent s :
  Js.stripNonDigits (Js.stripNonDigits s) = Js.stripNonDigits s.
Proof.
  induction s as [|c s IH]; [reflexivity|].
  cbn [Js.stripNonDigits]. destruct (Js.isDigit c) eqn:Hc; [|exact IH].
  cbn [Js.stripNonDigits]. rewrite Hc, IH. reflexivity.
Qed.

Lemma length_zero_empty s : String.length s = 0 → s = "".
Proof. destruct s; [reflexivity|discriminate]. Qed.

(** A blank string holds no digit. *)
Lemma blank_no_digits s : Js.trim s = "" → Js.stripNonDigits s = "".
Proof.
  intros H. apply length_zero_empty.
  rewrite <- length_stripNonDigits_trim, H. reflexivity.
Qed.

(** The guard at the top of [formatPhoneNumber] is the test for a blank
    string. *)
Lemma formatPhoneNumber_guard_blank s :
  negb (Js.truthy s) || negb (Js.truthy (Js.trim s)) = true ↔ Js.trim s = "".
Proof.
  destruct s as [|c s]; [split; reflexivity|].
  cbn [Js.truthy negb orb].
  destruct (Js.trim (String c s)); cbn; split; congruence.
Qed.

Lemma startsWith_plus_nonempty s : Js.startsWith "+" s = true → s ≠ "".
Proof. destruct s; [discriminate|discriminate]. Qed.

(** X1. [formatPhoneNumber] answers the empty string exactly for a blank
    input; every other answer starts with a plus sign. *)
Theorem formatPhoneNumber_blank_or_plus (phoneNumber : string) :
  (formatPhoneNumber phoneNumber = "" ↔ Js.trim phoneNumber = "")
  ∧ (formatPhoneNumber phoneNumber ≠ "" →
     Js.startsWith "+" (formatPhoneNumber phoneNumber) = true).
Proof.
  unfold formatPhoneNumber.
  destruct (negb (Js.truthy phoneNumber) || negb (Js.truthy (Js.trim phoneNumber))) eqn:G.
  - apply formatPhoneNumber_guard_blank in G. split; [tauto|congruence].
  - assert (Hnb : Js.trim phoneNumber ≠ "").
    { intros E. apply formatPhoneNumber_guard_blank in E. congruence. }
    set (digits := Js.stripNonDigits phoneNumber).
    assert (Hplus :
      ∀ r, Js.startsWith "+" r = true →
           (r = "" ↔ Js.trim phoneNumber = "") ∧ (r ≠ "" → Js.startsWith "+" r = true)).
    { intros r Hr. pose proof (startsWith_plus_nonempty r Hr). tauto. }
    repeat match goal with
           | |- context [if ?b then _ else _] => destruct b eqn:?
           end; apply Hplus; first [reflexivity | assumption].
Qed.

Lemma formatPhoneNumber_blank_or_plus_witness :
  formatPhoneNumber "   " = "" ∧ Js.startsWith "+" (formatPhoneNumber "+49 30") = true.
Proof.
  destruct (formatPhoneNumber_blank_or_plus "   ") as [[_ Hblank] _].
  destruct (formatPhoneNumber_blank_or_plus "+49 30") as [_ Hplus].
  split; [apply Hblank; reflexivity|].
  apply Hplus. intros E. vm_compute in E. discriminate E.
Defined.

(** A plus sign followed by digits, neither ten nor seven of them, is in
    normal form. *)
Lemma formatPhoneNumber_plus_digits d :
  Js.stripNonDigits d = d → String.length d ≠ 10 → String.length d ≠ 7 →
  formatPhoneNumber ("+" +:+ d) = "+" +:+ d.
Proof.
  intros Hd H10 H7. destruct d as [|c d]; [reflexivity|].
  unfold formatPhoneNumber. string_cons.
  rewrite formatPhoneNumber_guard.
  2:{ change (Js.stripNonDigits (String "+" (String c d)))
        with (Js.stripNonDigits (String c d)).
      rewrite Hd. cbn. lia. }
  change (Js.stripNonDigits (String "+" (String c d))) with (Js.stripNonDigits (String c d)).
  rewrite Hd.
  destruct (Nat.eqb_spec (String.length (String c d)) 10) as [E|_]; [contradiction|].
  destruct (Nat.eqb_spec (String.length (String c d)) 7) as [E|_]; [contradiction|].
  destruct (_ && _); [reflexivity|].
  destruct (_ && _); [reflexivity|].
  destruct (_ <? _); reflexivity.
Qed.

(** The three shapes of an answer of [formatPhoneNumber]. *)
Lemma formatPhoneNumber_shape s :
  formatPhoneNumber s = ""
  ∨ (∃ d, formatPhoneNumber s = "+" +:+ d ∧ Js.stripNonDigits d = d
          ∧ String.length d ≠ 10 ∧ String.length d ≠ 7)
  ∨ (formatPhoneNumber s = s ∧ Js.startsWith "+" s = true
     ∧ String.length (Js.stripNonDigits s) ≠ 10).
Proof.
  unfold formatPhoneNumber.
  destruct (negb (Js.truthy s) || negb (Js.truthy (Js.trim s))); [left; reflexivity|].
  right.
  pose proof (stripNonDigits_idempotent s) as Hd.
  set (digits := Js.stripNonDigits s) in *.
  assert (H1 : Js.stripNonDigits ("1" +:+ digits) = "1" +:+ digits).
  { string_cons. cbn. rewrite Hd. reflexivity. }
  assert (L1 : String.length ("1" +:+ digits) = S (String.length digits)) by reflexivity.
  destruct (Nat.eqb_spec (String.length digits) 10) as [E10|N10].
  { left. exists ("1" +:+ digits). split; [reflexivity|]. split; [exact H1|]. lia. }
  destruct (Nat.eqb_spec (String.length digits) 11) as [E11|N11].
  { left. exists digits. destruct (Js.startsWith "1" digits); cbn [andb negb];
      (split; [reflexivity|]; split; [exact Hd|]; lia). }
  cbn [andb].
  destruct (Nat.ltb_spec 11 (String.length digits)) as [G11|L11].
  { left. exists digits. split; [reflexivity|]. split; [exact Hd|]. lia. }
  destruct (Nat.eqb_spec (String.length digits) 7) as [E7|N7].
  { left. exists ("1" +:+ digits). split; [reflexivity|]. split; [exact H1|]. lia. }
  destruct (Js.startsWith "+" s); [right; split; [reflexivity|split; [reflexivity|exact N10]]|].
  left. exists digits. split; [reflexivity|]. split; [exact Hd|]. lia.
Qed.

(** X2. Formatting a formatted number changes nothing. *)
Theorem formatPhoneNumber_idempotent (phoneNumber : string) :
  formatPhoneNumber (formatPhoneNumber phoneNumber) = formatPhoneNumber phoneNumber.
Proof.
  destruct (formatPhoneNumber_shape phoneNumber) as [E|[(d & E & Hd & H10 & H7)|[E _]]].
  - rewrite E. reflexivity.
  - rewrite E. apply formatPhoneNumber_plus_digits; assumption.
  - rewrite E. exact E.
Qed.

(** X3. [formatPhoneNumber] keeps every digit of its input, in order, and
    adds the digit 1 in front exactly when the input has ten or seven
    digits. *)
Theorem formatPhoneNumber_keeps_the_digits (phoneNumber : string) :
  let digits := Js.stripNonDigits phoneNumber in
  Js.stripNonDigits (formatPhoneNumber phoneNumber)
  = if (String.length digits =? 10) || (String.length digits =? 7)
    then "1" +:+ digits else digits.
Proof.
  intros digits. unfold formatPhoneNumber. fold digits.
  destruct (negb (Js.truthy phoneNumber) || negb (Js.truthy (Js.trim phoneNumber))) eqn:G.
  - apply formatPhoneNumber_guard_blank, blank_no_digits in G.
    unfold digits. rewrite G. reflexivity.
  - assert (Hd : Js.stripNonDigits digits = digits) by apply stripNonDigits_idempotent.
    assert (Hs : Js.stripNonDigits phoneNumber = digits) by reflexivity.
    clearbody digits. remember (String.length digits) as n eqn:Hn.
    destruct (Nat.eqb_spec n 10) as [->|H10]; [string_cons; cbn; rewrite Hd; reflexivity|].
    destruct (Nat.eqb_spec n 7) as [->|H7]; [string_cons; cbn; rewrite Hd; reflexivity|].
    cbn [orb].
    destruct ((n =? 11) && Js.startsWith "1" digits); [string_cons; cbn; exact Hd|].
    destruct ((n =? 11) && negb (Js.startsWith "1" digits)); [string_cons; cbn; exact Hd|].
    destruct (11 <? n); [string_cons; cbn; exact Hd|].
    destruct (Js.startsWith "+" phoneNumber); [exact Hs|string_cons; cbn; exact Hd].
Qed.

Lemma formatPhoneNumberForCSV_plus_digits e :
  Js.stripNonDigits e = e → e ≠ "" → String.length e ≠ 10 →
  formatPhoneNumberForCSV ("+" +:+ e) = "+" +:+ e.
Proof.
  intros He Hne H10. unfold formatPhoneNumberForCSV. string_cons.
  change (Js.stripNonDigits (String "+" e)) with (Js.stripNonDigits e). rewrite He.
  destruct (Nat.eqb_spec (String.length e) 0) as [E|_];
    [apply length_zero_empty in E; contradiction|].
  destruct (_ && _); [reflexivity|].
  destruct (_ && _); [reflexivity|].
  destruct (Nat.eqb_spec (String.length e) 10) as [E|_]; [contradiction|reflexivity].
Qed.

(** The two shapes of an answer of [formatPhoneNumberForCSV]. *)
Lemma formatPhoneNumberForCSV_shape s :
  (Js.stripNonDigits s = "" ∧ formatPhoneNumberForCSV s = "")
  ∨ (Js.stripNonDigits s ≠ ""
     ∧ ∃ e, formatPhoneNumberForCSV s = "+" +:+ e ∧ Js.stripNonDigits e = e
            ∧ e ≠ "" ∧ String.length e ≠ 10).
Proof.
  unfold formatPhoneNumberForCSV.
  pose proof (stripNonDigits_idempotent s) as Hd.
  set (digits := Js.stripNonDigits s) in *. clearbody digits.
  destruct (Nat.eqb_spec (String.length digits) 0) as [E0|N0].
  { left. apply length_zero_empty in E0. split; [exact E0|reflexivity]. }
  assert (Hne : digits ≠ "") by (intros ->; apply N0; reflexivity).
  right. split; [exact Hne|].
  destruct (Js.startsWith "91" digits && (String.length digits =? 12)) eqn:B1.
  { apply andb_prop in B1 as [_ B1%Nat.eqb_eq]. exists digits.
    split; [reflexivity|]. split; [exact Hd|]. split; [exact Hne|lia]. }
  destruct (Js.startsWith "1" digits && (String.length digits =? 11)) eqn:B2.
  { apply andb_prop in B2 as [_ B2%Nat.eqb_eq]. exists digits.
    split; [reflexivity|]. split; [exact Hd|]. split; [exact Hne|lia]. }
  destruct (Nat.eqb_spec (String.length digits) 10) as [E10|N10].
  - exists ("91" +:+ digits). split; [reflexivity|]. split; [|split].
    + string_cons. cbn. rewrite Hd. reflexivity.
    + discriminate.
    + string_cons. cbn [String.length]. lia.
  - exists digits. split; [reflexivity|]. split; [exact Hd|]. split; assumption.
Qed.

(** X4. [formatPhoneNumberForCSV] answers the empty string exactly when the
    input holds no digit; every other answer is a plus sign followed by
    digits only, and formatting it again changes nothing. *)
Theorem formatPhoneNumberForCSV_plus_and_digits (phoneNumber : string) :
  let formatted := formatPhoneNumberForCSV phoneNumber in
  (formatted = "" ↔ Js.stripNonDigits phoneNumber = "")
  ∧ (formatted ≠ "" → formatted = "+" +:+ Js.stripNonDigits formatted)
  ∧ formatPhoneNumberForCSV formatted = formatted.
Proof.
  cbv zeta.
  destruct (formatPhoneNumberForCSV_shape phoneNumber)
    as [[Hd E]|(Hd & e & E & He & Hne & H10)]; rewrite E.
  - split; [tauto|]. split; [congruence|reflexivity].
  - split; [|split].
    + string_cons. split; [discriminate|contradiction].
    + intros _. string_cons.
      change (Js.stripNonDigits (String "+" e)) with (Js.stripNonDigits e).
      rewrite He. reflexivity.
    + apply formatPhoneNumberForCSV_plus_digits; assumption.
Qed.

Lemma formatPhoneNumberForCSV_plus_and_digits_witness :
  formatPhoneNumberForCSV "n/a" = ""
  ∧ formatPhoneNumberForCSV "98765 43210"
    = "+" +:+ Js.stripNonDigits (formatPhoneNumberForCSV "98765 43210").
Proof.
  destruct (formatPhoneNumberForCSV_plus_and_digits "n/a") as ([_ Hnone] & _).
  destruct (formatPhoneNumberForCSV_plus_and_digits "98765 43210") as (_ & Hsome & _).
  split; [apply Hnone; reflexivity|].
  apply Hsome. intros E. vm_compute in E. discriminate E.
Defined.

(** X5. The export format of a number that [formatPhoneNumber] has
    normalised is the plus sign and the digits of the normalised number:
    the Indian country code is never added to it.  On a raw number of ten
    digits the two formatters disagree. *)
Theorem formatPhoneNumberForCSV_after_formatPhoneNumber (phoneNumber : string) :
  let normalised := formatPhoneNumber phoneNumber in
  let digits := Js.stripNonDigits phoneNumber in
  formatPhoneNumberForCSV normalised
  = (if String.length (Js.stripNonDigits normalised) =? 0 then ""
     else "+" +:+ Js.stripNonDigits normalised)
  ∧ (String.length digits = 10 →
     formatPhoneNumberForCSV phoneNumber = "+91" +:+ digits
     ∧ formatPhoneNumberForCSV normalised = "+1" +:+ digits).
Proof.
  cbv zeta.
  assert (Hfirst :
    formatPhoneNumberForCSV (formatPhoneNumber phoneNumber)
    = (if String.length (Js.stripNonDigits (formatPhoneNumber phoneNumber)) =? 0 then ""
       else "+" +:+ Js.stripNonDigits (formatPhoneNumber phoneNumber))).
  { unfold formatPhoneNumberForCSV.
    assert (H10 : String.length (Js.stripNonDigits (formatPhoneNumber phoneNumber)) ≠ 10).
    { destruct (formatPhoneNumber_shape phoneNumber)
        as [E|[(d & E & Hd & H10 & _)|(E & _ & H10)]]; rewrite E.
      - cbn. lia.
      - string_cons.
        change (Js.stripNonDigits (String "+" d)) with (Js.stripNonDigits d).
        rewrite Hd. exact H10.
      - exact H10. }
    set (e := Js.stripNonDigits (formatPhoneNumber phoneNumber)) in *.
    destruct (String.length e =? 0); [reflexivity|].
    destruct (_ && _); [reflexivity|].
    destruct (_ && _); [reflexivity|].
    destruct (Nat.eqb_spec (String.length e) 10) as [E|_]; [contradiction|reflexivity]. }
  split; [exact Hfirst|].
  intros H10. split.
  - unfold formatPhoneNumberForCSV. rewrite H10. cbn [Nat.eqb].
    rewrite !andb_false_r. reflexivity.
  - rewrite Hfirst.
    assert (E : formatPhoneNumber phoneNumber = "+1" +:+ Js.stripNonDigits phoneNumber).
    { unfold formatPhoneNumber. rewrite formatPhoneNumber_guard by lia.
      rewrite H10. reflexivity. }
    rewrite E. string_cons.
    change (Js.stripNonDigits (String "+" (String "1" (Js.stripNonDigits phoneNumber))))
      with (String "1" (Js.stripNonDigits (Js.stripNonDigits phoneNumber))).
    rewrite stripNonDigits_idempotent. reflexivity.
Qed.

Lemma formatPhoneNumberForCSV_after_formatPhoneNumber_witness :
  formatPhoneNumberForCSV "808 969-3899" = "+918089693899"
  ∧ formatPhoneNumberForCSV (formatPhoneNumber "808 969-3899") = "+18089693899".
Proof.
  destruct (formatPhoneNumberForCSV_after_formatPhoneNumber "808 969-3899") as [_ H].
  apply H. reflexivity.
Defined.

(** ** The URL hash *)

Lemma ToInt32_range x : (- 2147483648 ≤ ToInt32 x < 2147483648)%Z.
Proof.
  unfold ToInt32.
  pose proof (Z.mod_pos_bound (x + 2147483648) 4294967296). lia.
Qed.

Lemma ToInt32_congruent x y :
  (x mod 4294967296 = y mod 4294967296)%Z → ToInt32 x = ToInt32 y.
Proof.
  intros H. unfold ToInt32. f_equal.
  rewrite (Zplus_mod x), (Zplus_mod y), H. reflexivity.
Qed.

Lemma ToInt32_mod x : (ToInt32 x mod 4294967296 = x mod 4294967296)%Z.
Proof.
  unfold ToInt32.
  Z.to_euclidean_division_equations. lia.
Qed.

Lemma ToInt32_small x : (- 2147483648 ≤ x < 2147483648)%Z → ToInt32 x = x.
Proof.
  unfold ToInt32.
  intros H. rewrite Z.mod_small by lia. lia.
Qed.

Lemma bitAnd_diag x : bitAnd x x = ToInt32 x.
Proof.
  unfold bitAnd. rewrite Z.land_diag. apply ToInt32_small, ToInt32_range.
Qed.

(** One round of the loop multiplies by 31 and adds the character code,
    modulo [2 ^ 32]. *)
Lemma hashChars_step h c :
  bitAnd (shiftLeft (ToInt32 h) 5 - ToInt32 h + c) (shiftLeft (ToInt32 h) 5 - ToInt32 h + c)
  = ToInt32 (31 * h + c).
Proof.
  rewrite bitAnd_diag. apply ToInt32_congruent.
  unfold shiftLeft. rewrite (ToInt32_small (ToInt32 h)) by apply ToInt32_range.
  rewrite Z.shiftl_mul_pow2 by lia.
  pose proof (ToInt32_mod (ToInt32 h * 2 ^ 5)) as H1.
  pose proof (ToInt32_mod h) as H2.
  revert H1 H2.
  generalize (ToInt32 (ToInt32 h * 2 ^ 5)). generalize (ToInt32 h). intros a b.
  change (2 ^ 5)%Z with 32%Z.
  Z.to_euclidean_division_equations. lia.
Qed.

Lemma hashChars_cons c url hash :
  hashChars (String c url) hash
  = hashChars url (bitAnd (shiftLeft hash 5 - hash + charCode c)
                          (shiftLeft hash 5 - hash + charCode c)).
Proof. reflexivity. Qed.

Lemma hashChars_polynomial31 url :
  ∀ h, hashChars url (ToInt32 h) = ToInt32 (polynomial31 url h).
Proof.
  induction url as [|c url IH]; intros h; [reflexivity|].
  rewrite hashChars_cons, hashChars_step. apply IH.
Qed.

Lemma createUrlHash_polynomial31 url :
  createUrlHash url = toString36 (Z.abs (ToInt32 (polynomial31 url 0))).
Proof.
  unfold createUrlHash. rewrite <- hashChars_polynomial31.
  replace (ToInt32 0) with 0%Z by (vm_compute; reflexivity). reflexivity.
Qed.

Lemma polynomial31_app p s h :
  polynomial31 (p +:+ s) h = polynomial31 s (polynomial31 p h).
Proof.
  revert h. induction p as [|c p IH]; intros h; [reflexivity|].
  string_cons. cbn [polynomial31]. apply IH.
Qed.

(** The digits of base 36. *)
Lemma digit36_spec d :
  (0 ≤ d < 36)%Z → value36 (digit36 d) = d ∧ isDigit36 (digit36 d) = true.
Proof.
  intros H.
  assert (E : ∃ k, k < 36 ∧ d = Z.of_nat k) by (exists (Z.to_nat d); lia).
  destruct E as (k & Hk & ->). clear H.
  do 36 (destruct k as [|k]; [split; vm_compute; reflexivity|]). lia.
Qed.

Lemma parse36_digits36 fuel :
  ∀ n acc, (0 ≤ n < 2 ^ Z.of_nat fuel)%Z →
    parse36 (digits36 fuel n acc) 0 = parse36 acc n.
Proof.
  induction fuel as [|fuel IH]; intros n acc Hn.
  - cbn [digits36]. replace n with 0%Z by (cbn in Hn; lia). reflexivity.
  - cbn [digits36]. destruct (Z.eqb_spec n 0) as [->|Hne]; [reflexivity|].
    rewrite IH.
    + cbn [parse36]. f_equal.
      destruct (digit36_spec (n mod 36)) as [-> _]; [apply Z.mod_pos_bound; lia|].
      pose proof (Z.div_mod n 36). lia.
    + rewrite Nat2Z.inj_succ, Z.pow_succ_r in Hn by lia.
      split; [apply Z.div_pos; lia|].
      apply Z.div_lt_upper_bound; lia.
Qed.

Lemma log2_fuel n : (0 < n)%Z → (0 ≤ n < 2 ^ Z.of_nat (S (Z.to_nat (Z.log2 n))))%Z.
Proof.
  intros Hn. split; [lia|].
  rewrite Nat2Z.inj_succ, Z2Nat.id by apply Z.log2_nonneg.
  apply Z.log2_spec. exact Hn.
Qed.

(** Reading the digits gives the number back. *)
Lemma parse36_toString36 n : (0 ≤ n)%Z → parse36 (toString36 n) 0 = n.
Proof.
  intros Hn. unfold toString36.
  destruct (Z.eqb_spec n 0) as [->|Hne]; [reflexivity|].
  rewrite parse36_digits36 by (apply log2_fuel; lia). reflexivity.
Qed.

Lemma length_digits36 fuel :
  ∀ n acc k, (0 ≤ n < 36 ^ Z.of_nat k)%Z →
    String.length acc ≤ String.length (digits36 fuel n acc)
    ∧ String.length (digits36 fuel n acc) ≤ k + String.length acc.
Proof.
  induction fuel as [|fuel IH]; intros n acc k Hn; [cbn; lia|].
  cbn [digits36]. destruct (Z.eqb_spec n 0) as [->|Hne]; [lia|].
  destruct k as [|k]; [cbn in Hn; lia|].
  rewrite Nat2Z.inj_succ, Z.pow_succ_r in Hn by lia.
  destruct (IH (n / 36)%Z (String (digit36 (n mod 36)) acc) k) as [H1 H2].
  { split; [apply Z.div_pos; lia|]. apply Z.div_lt_upper_bound; lia. }
  cbn [String.length] in H1, H2. lia.
Qed.

Lemma allOf_digits36 fuel :
  ∀ n acc, (0 ≤ n)%Z → allOf isDigit36 acc = true →
    allOf isDigit36 (digits36 fuel n acc) = true.
Proof.
  induction fuel as [|fuel IH]; intros n acc Hn Hacc; [exact Hacc|].
  cbn [digits36]. destruct (Z.eqb_spec n 0) as [->|Hne]; [exact Hacc|].
  apply IH; [apply Z.div_pos; lia|].
  cbn [allOf]. rewrite Hacc.
  destruct (digit36_spec (n mod 36)) as [_ ->]; [apply Z.mod_pos_bound; lia|reflexivity].
Qed.

(** X6. [createUrlHash] is Java's string hash: the sum of the character
    codes weighted by the powers of 31, reduced to a signed 32-bit integer,
    without its sign, in base 36.  Two URLs get the same hash exactly when
    these 32-bit integers agree up to their sign. *)
Theorem createUrlHash_is_the_31_hash (url other : string) :
  createUrlHash url = toString36 (Z.abs (ToInt32 (polynomial31 url 0)))
  ∧ (createUrlHash url = createUrlHash other
     ↔ Z.abs (ToInt32 (polynomial31 url 0)) = Z.abs (ToInt32 (polynomial31 other 0))).
Proof.
  split; [apply createUrlHash_polynomial31|].
  rewrite !createUrlHash_polynomial31. split; [|congruence].
  intros H.
  rewrite <- (parse36_toString36 (Z.abs (ToInt32 (polynomial31 url 0)))) by lia.
  rewrite <- (parse36_toString36 (Z.abs (ToInt32 (polynomial31 other 0)))) by lia.
  rewrite H. reflexivity.
Qed.

(** X7. The hash of a URL of any length is between one and six characters
    long, each of them a digit or a lower-case letter. *)
Theorem createUrlHash_is_short (url : string) :
  1 ≤ String.length (createUrlHash url) ≤ 6
  ∧ allOf isDigit36 (createUrlHash url) = true.
Proof.
  rewrite createUrlHash_polynomial31.
  pose proof (ToInt32_range (polynomial31 url 0)) as Hr.
  set (n := Z.abs (ToInt32 (polynomial31 url 0))).
  assert (Hn : (0 ≤ n ≤ 2147483648)%Z) by lia. clearbody n.
  unfold toString36. destruct (Z.eqb_spec n 0) as [->|Hne]; [cbn; split; [lia|reflexivity]|].
  split.
  - destruct (length_digits36 (S (Z.to_nat (Z.log2 n))) n "" 6) as [_ H2].
    { change (36 ^ Z.of_nat 6)%Z with 2176782336%Z. lia. }
    split; [|change (String.length "") with 0 in H2; lia].
    cbn [digits36]. destruct (Z.eqb_spec n 0) as [E|_]; [contradiction|].
    destruct (length_digits36 (Z.to_nat (Z.log2 n)) (n / 36)%Z
                (String (digit36 (n mod 36)) "") 6) as [H1 _].
    { change (36 ^ Z.of_nat 6)%Z with 2176782336%Z.
      split; [apply Z.div_pos; lia|]. apply Z.div_lt_upper_bound; lia. }
    cbn [String.length] in H1. lia.
  - apply allOf_digits36; [lia|reflexivity].
Qed.

(** X8. The hash does not tell all URLs apart: replacing "Aa" by "BB"
    anywhere in a URL leaves its hash unchanged. *)
Theorem createUrlHash_collides (before after : string) :
  before +:+ "Aa" +:+ after ≠ before +:+ "BB" +:+ after
  ∧ createUrlHash (before +:+ "Aa" +:+ after) = createUrlHash (before +:+ "BB" +:+ after).
Proof.
  split.
  - induction before as [|c before IH]; [discriminate|].
    string_cons. intros H. apply IH. injection H as H. exact H.
  - rewrite !createUrlHash_polynomial31, !polynomial31_app.
    do 3 f_equal. string_cons. cbn [polynomial31].
    f_equal. change (charCode "A") with 65%Z. change (charCode "a") with 97%Z.
    change (charCode "B") with 66%Z. lia.
Qed.

(** ** Records and the store *)

(** X9. A record that is mapped to the columns of the store, with or
    without a session, and read back is the record itself: no field is lost
    or exchanged for another. *)
Theorem columns_round_trip (details : Details) (sessionId : string) :
  fromSupabaseColumns (withSession sessionId (mapToSupabaseColumns details)) = details.
Proof.
  unfold withSession. destruct details, (Js.truthy sessionId); reflexivity.
Qed.

(** X10. [insertWithRetry] asks the store at most three times and stops at
    the first answer that is not a fault.  It answers [true] exactly when
    that answer is a stored row or a duplicate report; an answer with
    neither error nor row ends the attempts with [false]. *)
Theorem insertWithRetry_stops_at_the_first_answer (w : World) (record : Row) (t : nat) :
  ∃ k,
    k < 3
    ∧ (insertWithRetry w record t).2 = t + k + 1
    ∧ (∀ j, j < k → kindOfAnswer (storeInsert w (t + j) record) = Failed)
    ∧ (insertWithRetry w record t).1
      = match kindOfAnswer (storeInsert w (t + k) record) with
        | Stored | Duplicate => true
        | NoRow | Failed => false
        end
    ∧ (kindOfAnswer (storeInsert w (t + k) record) = Failed → k = 2).
Proof.
  assert (Hstop :
    ∀ k rest, k < 3 →
      (∀ j, j < k → kindOfAnswer (storeInsert w (t + j) record) = Failed) →
      kindOfAnswer (storeInsert w (t + k) record) ≠ Failed ∨ k = 2 →
      rest = (match kindOfAnswer (storeInsert w (t + k) record) with
              | Stored | Duplicate => true
              | NoRow | Failed => false
              end, t + k + 1) →
      ∃ k, k < 3 ∧ rest.2 = t + k + 1
        ∧ (∀ j, j < k → kindOfAnswer (storeInsert w (t + j) record) = Failed)
        ∧ rest.1
          = match kindOfAnswer (storeInsert w (t + k) record) with
            | Stored | Duplicate => true
            | NoRow | Failed => false
            end
        ∧ (kindOfAnswer (storeInsert w (t + k) record) = Failed → k = 2)).
  { intros k rest Hk Hbefore Hlast ->. exists k. cbn [fst snd].
    split; [exact Hk|]. split; [reflexivity|]. split; [exact Hbefore|].
    split; [reflexivity|]. intros E. destruct Hlast as [N|E2]; [contradiction|exact E2]. }
  assert (Hstep :
    ∀ k remaining,
      insertAttempts w record (S remaining) (t + k)
      = match kindOfAnswer (storeInsert w (t + k) record) with
        | Stored | Duplicate => (true, t + k + 1)
        | NoRow => (false, t + k + 1)
        | Failed => insertAttempts w record remaining (t + S k)
        end).
  { intros k remaining. cbn [insertAttempts]. unfold kindOfAnswer.
    replace (S (t + k)) with (t + k + 1) by lia.
    replace (t + S k) with (t + k + 1) by lia.
    destruct (storeInsert w (t + k) record) as [[[[|row rows]|] [message|]]|message];
      try reflexivity; destruct (Js.includes duplicateMessage message); reflexivity. }
  unfold insertWithRetry.
  replace (insertAttempts w record 3 t) with (insertAttempts w record 3 (t + 0))
    by (f_equal; lia).
  rewrite (Hstep 0 2).
  destruct (kindOfAnswer (storeInsert w (t + 0) record)) eqn:E0;
    try (apply (Hstop 0); [lia|intros j Hj; lia|left; congruence|rewrite E0; reflexivity]).
  rewrite (Hstep 1 1).
  destruct (kindOfAnswer (storeInsert w (t + 1) record)) eqn:E1;
    try (apply (Hstop 1);
         [lia|intros j Hj; replace j with 0 by lia; exact E0|left; congruence
         |rewrite E1; reflexivity]).
  rewrite (Hstep 2 0). cbn [insertAttempts].
  apply (Hstop 2); [lia| |right; reflexivity|].
  - intros j Hj. destruct j as [|[|j]]; [exact E0|exact E1|lia].
  - replace (t + 3) with (t + 2 + 1) by lia.
    destruct (kindOfAnswer (storeInsert w (t + 2) record)); reflexivity.
Qed.

(** ** What the main loop keeps *)

Section LedgerFacts.

Variable w : World.
Variable progressCb : Callback Details.
Variable listUrl : string.
Variable targetResults : nat.
Variable sessionId : string.
Variable existingUrls : gset string.

(** A property of the trace and of the result list that every round of the
    per-URL loop keeps. *)
Variable kept : list Event → list Details → Prop.
Hypothesis kept_round :
  ∀ link index s,
    kept (trace s) (results s) →
    let s' := processUrl w progressCb listUrl targetResults sessionId link index s in
    kept (trace s') (results s').

Lemma processUrls_kept queue :
  ∀ s,
    kept (trace s) (results s) →
    let s' := processUrls w progressCb listUrl targetResults sessionId queue s in
    kept (trace s') (results s').
Proof.
  induction queue as [|[link index] queue IH]; intros s H; cbn [processUrls]; [exact H|].
  destruct (_ <? _); [|exact H]. apply IH, kept_round, H.
Qed.

Lemma mainStep_kept buffer s :
  kept (trace s) (results s) →
  let s' := (mainStep w progressCb listUrl targetResults sessionId existingUrls buffer s).2 in
  kept (trace s') (results s').
Proof.
  intros H. unfold mainStep.
  pose proof (loadCards_ledger w targetResults buffer s) as (L1 & L2 & _).
  destruct (loadCards w targetResults buffer s) as [[[]|message] s1]; cbn [snd] in L1, L2;
    [|cbn; rewrite L1, L2; exact H].
  pose proof (collectUrls_spec existingUrls (targetResults - newFound s1 + 5)
                (drop (currentUpdatedIndex s1) (allCards s1)) (currentUpdatedIndex s1) [] s1)
    as (C1 & C2 & _).
  destruct (collectUrls _ _ _ _ _ _) as [queue s2]; cbn [fst snd] in *.
  assert (H2 : kept (trace s2) (results s2)) by (rewrite C1, C2, L1, L2; exact H).
  pose proof (processUrls_kept queue s2 H2) as H3.
  destruct (_ <? _); exact H3.
Qed.

Lemma mainLoop_kept fuel buffer :
  ∀ s r,
    kept (trace s) (results s) →
    mainLoop w progressCb listUrl targetResults sessionId existingUrls fuel buffer s = Some r →
    kept (trace r.2) (results r.2).
Proof.
  induction fuel as [|fuel IH]; intros s r H; cbn [mainLoop].
  - destruct (_ && _); [discriminate|]. intros [= <-]. exact H.
  - destruct (_ && _); [|intros [= <-]; exact H].
    pose proof (mainStep_kept buffer s H) as H1.
    destruct (mainStep _ _ _ _ _ _ _ _) as [[[]|message] s1]; cbn in H1.
    + apply IH, H1.
    + intros [= <-]. exact H1.
Qed.

End LedgerFacts.

(** What every round keeps holds at the end of a run. *)
Lemma scrapeUrlsAndDetails_kept
    (w : World) (searchTerm location : string) (maxResults : nat)
    (progressCb : Callback Details) (updatedIndex : nat) (sessionId : string)
    (desiredNewResults : option nat) (buffer : nat) (existingUrls : gset string)
    (kept : list Event → list Details → Prop) (fuel t : nat)
    (r : outcome ScrapeResult.t) (s : Locals) :
  kept [] [] →
  (∀ link index s,
     kept (trace s) (results s) →
     let s' := processUrl w progressCb (mapsUrl w searchTerm location)
                 (orElse desiredNewResults maxResults) sessionId link index s in
     kept (trace s') (results s')) →
  scrapeUrlsAndDetails w searchTerm location maxResults progressCb updatedIndex
    sessionId desiredNewResults buffer existingUrls fuel t = Some (r, s) →
  kept (trace s) (results s).
Proof.
  intros H0 Hround. unfold scrapeUrlsAndDetails, scrapeTry.
  destruct (openList w _ t) as [[[]|message] t1]; [|intros [= <- <-]; exact H0].
  destruct (querySelector w t1 "div[role=feed]") as [[|]|message];
    [|intros [= <- <-]; exact H0..].
  destruct (mainLoop _ _ _ _ _ _ _ _ _) as [[[[]|message] s1]|] eqn:Hloop; [| |discriminate].
  - pose proof Hloop as Hinv.
    apply mainLoop_invariant in Hinv; [|apply Invariant_started].
    apply (mainLoop_kept _ _ _ _ _ _ kept Hround) in Hloop; [|exact H0].
    cbn [snd] in Hinv, Hloop.
    assert (Hlen : (orElse desiredNewResults maxResults <? length (results s1)) = false).
    { apply Nat.ltb_ge. rewrite (inv_count _ _ _ _ Hinv). apply (inv_bound _ _ _ _ Hinv). }
    rewrite Hlen. intros [= <- <-]. exact Hloop.
  - apply (mainLoop_kept _ _ _ _ _ _ kept Hround) in Hloop; [|exact H0].
    intros [= <- <-]. exact Hloop.
Qed.

Lemma processUrl_provenance w progressCb listUrl targetResults sessionId link index s :
  provenance w sessionId (trace s) (results s) →
  let s' := processUrl w progressCb listUrl targetResults sessionId link index s in
  provenance w sessionId (trace s') (results s').
Proof.
  intros [HI HR]. unfold processUrl, processTry, recordInsert.
  destruct (goto w (clock s) link); cbn.
  { destruct (contextDestroyed _); cbn; split; assumption. }
  assert (Hrec : extractedRecord w (extractBusinessDetails w link (S (clock s))).1).
  { exists (S (clock s)). rewrite extractBusinessDetails_URL. reflexivity. }
  destruct (extractBusinessDetails w link (S (clock s))) as [details t1]; cbn in *.
  destruct (incomplete details) eqn:Hinc; cbn.
  { split; [|exact HR]. intros record ok Hin.
    apply elem_of_app in Hin as [Hin|Hin]; [eauto|].
    apply list_elem_of_singleton in Hin. discriminate. }
  assert (Hrows :
    ∀ ok' more record ok,
      (∀ e, e ∈ more → ∃ p snap, e = Progress p snap) →
      Insert record ok
        ∈ ((trace s ++ [Extract link])
             ++ [Insert (withSession sessionId (mapToSupabaseColumns details)) ok']) ++ more →
      ∃ details0,
        extractedRecord w details0 ∧ incomplete details0 = false
        ∧ record = withSession sessionId (mapToSupabaseColumns details0)).
  { intros ok' more record ok Hmore Hin.
    rewrite !elem_of_app, !list_elem_of_singleton in Hin.
    destruct Hin as [[[Hin|Hin]|Hin]|Hin]; [eauto|discriminate| |].
    - exists details. injection Hin as -> _. auto.
    - apply Hmore in Hin as (p & snap & Hin). discriminate. }
  assert (Hres :
    ∀ d, d ∈ results s ++ [details] → extractedRecord w d ∧ incomplete d = false).
  { intros d Hd. rewrite elem_of_app, list_elem_of_singleton in Hd.
    destruct Hd as [Hd | ->]; auto. }
  destruct (insertWithRetry _ _ _) as [[|] t2]; cbn.
  - destruct (progressCb _ _ _); cbn; [destruct (contextDestroyed _); cbn|];
      (split; [|exact Hres]); intros record ok Hin;
      (eapply Hrows; [|exact Hin]); intros e He;
      apply list_elem_of_singleton in He; eauto.
  - split; [|exact HR]. intros record ok Hin.
    apply (Hrows false [] record ok); [intros e He; inversion He|].
    rewrite app_nil_r. exact Hin.
Qed.

(** The rows and the records of a run come from the extractor. *)
Lemma scrapeUrlsAndDetails_provenance
    w searchTerm location maxResults progressCb updatedIndex sessionId desiredNewResults
    buffer existingUrls fuel t r s :
  scrapeUrlsAndDetails w searchTerm location maxResults progressCb updatedIndex
    sessionId desiredNewResults buffer existingUrls fuel t = Some (r, s) →
  provenance w sessionId (trace s) (results s).
Proof.
  apply (scrapeUrlsAndDetails_kept _ _ _ _ _ _ _ _ _ _ (provenance w sessionId)).
  - split; [intros record ok H|intros details H]; inversion H.
  - intros link index s0. apply processUrl_provenance.
Qed.

(** What [extractBusinessDetails] answers: the contact fields are empty,
    and the phone number is a normal form of [formatPhoneNumber]. *)
Lemma extractedRecord_shape w details :
  extractedRecord w details →
  Email details = "" ∧ Instagram details = "" ∧ LinkedIn details = ""
  ∧ Facebook details = ""
  ∧ formatPhoneNumber (Phone_Number details) = Phone_Number details
  ∧ (Phone_Number details = "" ∨ Js.startsWith "+" (Phone_Number details) = true).
Proof.
  intros [t ->]. unfold extractBusinessDetails.
  assert (Hempty :
    ∀ link,
      Email (emptyDetails link) = "" ∧ Instagram (emptyDetails link) = ""
      ∧ LinkedIn (emptyDetails link) = "" ∧ Facebook (emptyDetails link) = ""
      ∧ formatPhoneNumber (Phone_Number (emptyDetails link)) = Phone_Number (emptyDetails link)
      ∧ (Phone_Number (emptyDetails link) = ""
         ∨ Js.startsWith "+" (Phone_Number (emptyDetails link)) = true)).
  { intros link. do 4 (split; [reflexivity|]). split; [reflexivity|left; reflexivity]. }
  destruct (goto w t _); [apply Hempty|].
  destruct (waitForSelector w (S t) _); [apply Hempty|].
  destruct (readDetails w (S (S t)) _) as [page|]; [|apply Hempty].
  cbn [fst Email Instagram LinkedIn Facebook Phone_Number].
  do 4 (split; [reflexivity|]).
  destruct (formatPhoneNumber_shape (phoneText page))
    as [E|[(d & E & Hd & H10 & H7)|(E & Hplus & _)]]; rewrite E.
  - split; [reflexivity|left; reflexivity].
  - split; [apply formatPhoneNumber_plus_digits; assumption|right; reflexivity].
  - split; [exact E|right; exact Hplus].
Qed.

(** ** Runs of the main loop *)

Section RunProperties.

Variable w : World.
Variables searchTerm location : string.
Variable maxResults : nat.
Variable progressCb : Callback Details.
Variable updatedIndex : nat.
Variable sessionId : string.
Variable desiredNewResults : option nat.
Variable buffer : nat.
Variable existingUrls : gset string.

Abbreviation targetResults := (orElse desiredNewResults maxResults).
Abbreviation run :=
  (scrapeUrlsAndDetails w searchTerm location maxResults progressCb updatedIndex
     sessionId desiredNewResults buffer existingUrls).

Lemma phone_number_withSession details :
  phone_number (withSession sessionId (mapToSupabaseColumns details)) = Phone_Number details.
Proof. unfold withSession. destruct (Js.truthy sessionId); reflexivity. Qed.

Lemma incomplete_phone details : incomplete details = false → Phone_Number details ≠ "".
Proof.
  unfold incomplete. intros H. apply orb_false_elim in H as [_ H].
  apply negb_false_iff in H. apply truthy_nonempty, H.
Qed.

(** X11. The main loop hands the records to the store as the extractor
    built them: in every row given to [insertWithRetry] and in every record
    of the result list the e-mail address and the three social links are
    empty. *)
Theorem main_loop_leaves_contact_fields_empty
    (fuel t : nat) (result : ScrapeResult.t) (s : Locals) :
  run fuel t = Some (Returned result, s) →
  (∀ record ok,
     Insert record ok ∈ trace s →
     email record = "" ∧ instagram record = "" ∧ linkedin record = ""
     ∧ facebook record = "")
  ∧ ∀ details,
      details ∈ ScrapeResult.results result →
      Email details = "" ∧ Instagram details = "" ∧ LinkedIn details = ""
      ∧ Facebook details = "".
Proof.
  intros Hrun.
  pose proof (scrapeUrlsAndDetails_provenance _ _ _ _ _ _ _ _ _ _ _ _ _ _ Hrun) as [HI HR].
  apply scrapeUrlsAndDetails_invariant in Hrun as [[= ->] _].
  split.
  - intros record ok Hin. apply HI in Hin as (details & Hrec & _ & ->).
    apply extractedRecord_shape in Hrec as (E1 & E2 & E3 & E4 & _).
    unfold withSession. destruct (Js.truthy sessionId); cbn; auto.
  - intros details Hin. apply HR in Hin as [Hrec _].
    apply extractedRecord_shape in Hrec as (E1 & E2 & E3 & E4 & _). auto.
Qed.

(** X12. Every phone number that the main loop hands to the store or keeps
    in the result list starts with a plus sign and is a normal form of
    [formatPhoneNumber]. *)
Theorem committed_phone_numbers_are_normalised
    (fuel t : nat) (result : ScrapeResult.t) (s : Locals) :
  run fuel t = Some (Returned result, s) →
  (∀ record ok,
     Insert record ok ∈ trace s →
     Js.startsWith "+" (phone_number record) = true
     ∧ formatPhoneNumber (phone_number record) = phone_number record)
  ∧ ∀ details,
      details ∈ ScrapeResult.results result →
      Js.startsWith "+" (Phone_Number details) = true
      ∧ formatPhoneNumber (Phone_Number details) = Phone_Number details.
Proof.
  intros Hrun.
  pose proof (scrapeUrlsAndDetails_provenance _ _ _ _ _ _ _ _ _ _ _ _ _ _ Hrun) as [HI HR].
  apply scrapeUrlsAndDetails_invariant in Hrun as [[= ->] _].
  assert (Hphone :
    ∀ details,
      extractedRecord w details → incomplete details = false →
      Js.startsWith "+" (Phone_Number details) = true
      ∧ formatPhoneNumber (Phone_Number details) = Phone_Number details).
  { intros details Hrec Hinc.
    apply extractedRecord_shape in Hrec as (_ & _ & _ & _ & Hfix & [Hnone|Hplus]).
    - apply incomplete_phone in Hinc. contradiction.
    - auto. }
  split.
  - intros record ok Hin. apply HI in Hin as (details & Hrec & Hinc & ->).
    rewrite phone_number_withSession. apply Hphone; assumption.
  - intros details Hin. apply HR in Hin as [Hrec Hinc]. apply Hphone; assumption.
Qed.

Lemma scrollForCards_budget wanted fuel :
  ∀ s,
    scrollAttempts s ≤ maxScrollAttempts →
    scrollAttempts (scrollForCards w wanted fuel s).2 ≤ maxScrollAttempts.
Proof.
  induction fuel as [|fuel IH]; intros s Hs; cbn [scrollForCards]; [exact Hs|].
  destruct (length (allCards s) <? wanted); cbn [andb]; [|exact Hs].
  destruct (Nat.ltb_spec (scrollAttempts s) maxScrollAttempts) as [Hlt|_]; [|exact Hs].
  destruct (scrollBy w (clock s)); [exact Hs|].
  destruct (querySelectorAll w (S (clock s))); [|exact Hs].
  apply IH. cbn. lia.
Qed.

Lemma mainStep_budget listUrl s :
  scrollAttempts s ≤ maxScrollAttempts →
  scrollAttempts
    (mainStep w progressCb listUrl targetResults sessionId existingUrls buffer s).2
  ≤ maxScrollAttempts.
Proof.
  intros Hs. unfold mainStep.
  assert (H1 : scrollAttempts (loadCards w targetResults buffer s).2 ≤ maxScrollAttempts).
  { unfold loadCards. destruct (_ <? _); [|exact Hs].
    destruct (querySelectorAll w (clock s)); [|exact Hs].
    apply scrollForCards_budget, Hs. }
  destruct (loadCards w targetResults buffer s) as [[[]|message] s1]; cbn [snd] in H1;
    [|exact H1].
  pose proof (collectUrls_spec existingUrls (targetResults - newFound s1 + 5)
                (drop (currentUpdatedIndex s1) (allCards s1)) (currentUpdatedIndex s1) [] s1)
    as (_ & _ & _ & _ & C5 & _).
  destruct (collectUrls _ _ _ _ _ _) as [queue s2]; cbn [fst snd] in *.
  pose proof (processUrls_frame w progressCb listUrl targetResults sessionId queue s2)
    as [_ P].
  cbv zeta in P. destruct (_ <? _); cbn; lia.
Qed.

Lemma mainLoop_budget listUrl fuel :
  ∀ s r,
    scrollAttempts s ≤ maxScrollAttempts →
    mainLoop w progressCb listUrl targetResults sessionId existingUrls fuel buffer s = Some r →
    scrollAttempts r.2 ≤ maxScrollAttempts.
Proof.
  induction fuel as [|fuel IH]; intros s r Hs; cbn [mainLoop].
  - destruct (_ && _); [discriminate|]. intros [= <-]. exact Hs.
  - destruct (_ && _); [|intros [= <-]; exact Hs].
    pose proof (mainStep_budget listUrl s Hs) as H1.
    destruct (mainStep _ _ _ _ _ _ _ _) as [[[]|message] s1]; cbn [snd] in H1.
    + apply IH, H1.
    + intros [= <-]. exact H1.
Qed.

Lemma scrapeUrlsAndDetails_budget fuel t r s :
  run fuel t = Some (r, s) → scrollAttempts s ≤ maxScrollAttempts.
Proof.
  unfold scrapeUrlsAndDetails, scrapeTry.
  assert (H0 : ∀ t', scrollAttempts (set_clock t' (initialLocals t updatedIndex))
                     ≤ maxScrollAttempts) by (intros t'; cbn; lia).
  destruct (openList w _ t) as [[[]|message] t1]; [|intros [= <- <-]; apply H0].
  destruct (querySelector w t1 "div[role=feed]") as [[|]|message];
    [|intros [= <- <-]; apply H0..].
  destruct (mainLoop _ _ _ _ _ _ _ _ _) as [[[[]|message] s1]|] eqn:Hloop; [| |discriminate].
  - apply mainLoop_budget in Hloop; [|apply H0]. cbn [snd] in Hloop.
    destruct (_ <? _); intros [= <- <-]; exact Hloop.
  - apply mainLoop_budget in Hloop; [|apply H0]. intros [= <- <-]. exact Hloop.
Qed.

(** X13. A run of [scrapeUrlsAndDetails] scrolls for more cards at most
    fifty times in all, however many rounds the main loop makes: the scroll
    counter is shared by the rounds and never passes [maxScrollAttempts].
    The run answers with as many records as it counted, never more than the
    target. *)
Theorem run_stays_within_its_bounds
    (fuel t : nat) (result : ScrapeResult.t) (s : Locals) :
  run fuel t = Some (Returned result, s) →
  scrollAttempts s ≤ maxScrollAttempts
  ∧ ScrapeResult.newFound result = newFound s
  ∧ length (ScrapeResult.results result) = newFound s
  ∧ newFound s ≤ targetResults.
Proof.
  intros Hrun.
  pose proof (scrapeUrlsAndDetails_budget _ _ _ _ Hrun) as Hsa.
  apply scrapeUrlsAndDetails_invariant in Hrun as [[= ->] Inv].
  pose proof (inv_count _ _ _ _ Inv). pose proof (inv_bound _ _ _ _ Inv).
  split; [exact Hsa|]. split; [assumption|split; assumption].
Qed.

End RunProperties.

Lemma main_loop_leaves_contact_fields_empty_witness :
  ∃ result s,
    scrapeUrlsAndDetails exactFit "pharmacies" "Delhi" 2 Scenario.silent 0 "" None 20 ∅ 3 0
    = Some (Returned result, s)
    ∧ URL <$> ScrapeResult.results result = ["a"; "b"]
    ∧ ∀ details,
        details ∈ ScrapeResult.results result →
        Email details = "" ∧ Instagram details = "" ∧ LinkedIn details = ""
        ∧ Facebook details = "".
Proof.
  eexists _, _. split; [vm_compute; reflexivity|]. split; [reflexivity|].
  eapply (main_loop_leaves_contact_fields_empty exactFit "pharmacies" "Delhi" 2
            Scenario.silent 0 "" None 20 ∅ 3 0).
  vm_compute. reflexivity.
Defined.

Lemma committed_phone_numbers_are_normalised_witness :
  ∃ result s,
    scrapeUrlsAndDetails exactFit "pharmacies" "Delhi" 2 Scenario.silent 0 "" None 20 ∅ 3 0
    = Some (Returned result, s)
    ∧ Phone_Number <$> ScrapeResult.results result = ["+18089693899"; "+18089693899"]
    ∧ ∀ details,
        details ∈ ScrapeResult.results result →
        Js.startsWith "+" (Phone_Number details) = true
        ∧ formatPhoneNumber (Phone_Number details) = Phone_Number details.
Proof.
  eexists _, _. split; [vm_compute; reflexivity|]. split; [reflexivity|].
  eapply (committed_phone_numbers_are_normalised exactFit "pharmacies" "Delhi" 2
            Scenario.silent 0 "" None 20 ∅ 3 0).
  vm_compute. reflexivity.
Defined.

Lemma run_stays_within_its_bounds_witness :
  ∃ result s,
    scrapeUrlsAndDetails phonelessPage "pharmacies" "Delhi" 2 Scenario.silent 0 "" None 20
      ∅ 3 0
    = Some (Returned result, s)
    ∧ scrollAttempts s = 50
    ∧ scrollAttempts s ≤ maxScrollAttempts
    ∧ length (ScrapeResult.results result) = newFound s.
Proof.
  eexists _, _. split; [vm_compute; reflexivity|]. split; [reflexivity|].
  edestruct (run_stays_within_its_bounds phonelessPage "pharmacies" "Delhi" 2
               Scenario.silent 0 "" None 20 ∅ 3 0) as (B1 & _ & B3 & _);
    [vm_compute; reflexivity|].
  split; [exact B1|exact B3].
Defined.

(** ** A cursor beyond the end of the page *)

Section BeyondThePage.

Variable w : World.
Variable progressCb : Callback Details.
Variable listUrl : string.
Variable targetResults : nat.
Variable sessionId : string.
Variable existingUrls : gset string.
Variable buffer : nat.
Variable bound : nat.
Hypothesis page_bounded : boundedPage w bound.

(** When more cards are wanted than the page can show, the inner loop ends
    only by a fault or with the scroll budget spent. *)
Lemma scrollForCards_exhausts wanted fuel :
  ∀ s s',
    bound < wanted → length (allCards s) ≤ bound →
    maxScrollAttempts ≤ fuel + scrollAttempts s →
    scrollForCards w wanted fuel s = (Returned tt, s') →
    maxScrollAttempts ≤ scrollAttempts s' ∧ length (allCards s') ≤ bound.
Proof.
  induction fuel as [|fuel IH]; intros s s' Hw Hlen Hfuel; cbn [scrollForCards].
  - intros [= <-]. split; [lia|exact Hlen].
  - assert (Hshort : (length (allCards s) <? wanted) = true) by (apply Nat.ltb_lt; lia).
    rewrite Hshort. cbn [andb].
    destruct (Nat.ltb_spec (scrollAttempts s) maxScrollAttempts) as [Hlt|Hge];
      [|intros [= <-]; split; [exact Hge|exact Hlen]].
    destruct (scrollBy w (clock s)); [discriminate|].
    destruct (querySelectorAll w (S (clock s))) as [cards|message] eqn:Hcards;
      [|discriminate].
    apply IH; [exact Hw|cbn; apply (page_bounded _ _ Hcards)|cbn; lia].
Qed.

(** A round of the main loop that starts with the cursor beyond the end of
    the page extracts nothing; when it ends without a fault, the scroll
    budget is spent and the cursor is the number of cards shown. *)
Lemma mainStep_beyond s :
  bound < currentUpdatedIndex s → length (allCards s) ≤ bound →
  newFound s < targetResults →
  let r := mainStep w progressCb listUrl targetResults sessionId existingUrls buffer s in
  trace r.2 = trace s ∧ results r.2 = results s
  ∧ match r.1 with
    | Returned _ =>
        maxScrollAttempts ≤ scrollAttempts r.2
        ∧ currentUpdatedIndex r.2 = length (allCards r.2)
        ∧ length (allCards r.2) ≤ bound
    | Thrown _ => currentUpdatedIndex r.2 = currentUpdatedIndex s
    end.
Proof.
  intros Hcur Hlen Hnew. unfold mainStep, loadCards.
  assert (Hshort :
    (length (allCards s) <? currentUpdatedIndex s + targetResults + buffer) = true)
    by (apply Nat.ltb_lt; lia).
  rewrite Hshort.
  destruct (querySelectorAll w (clock s)) as [cards|message] eqn:Hcards;
    [|cbn; auto].
  pose proof (scrollForCards_ledger w (currentUpdatedIndex s + targetResults + buffer)
                maxScrollAttempts (set_allCards cards (tick s))) as (L1 & L2 & L3 & _ & L5).
  pose proof (scrollForCards_exhausts (currentUpdatedIndex s + targetResults + buffer)
                maxScrollAttempts (set_allCards cards (tick s))) as Hex.
  destruct (scrollForCards _ _ _ _) as [[[]|message] s1]; cbn [fst snd] in *;
    [|cbn; auto].
  destruct (Hex s1) as [E1 E2];
    [lia|apply (page_bounded _ _ Hcards)|lia|reflexivity|].
  cbn [set_allCards tick set_clock currentUpdatedIndex trace results newFound]
    in L1, L2, L3, L5.
  rewrite drop_ge by lia. cbn [collectUrls processUrls].
  assert (Hnew1 : (newFound s1 <? targetResults) = true) by (apply Nat.ltb_lt; lia).
  rewrite Hnew1. cbn. auto.
Qed.

Lemma mainLoop_beyond fuel s :
  bound < currentUpdatedIndex s → length (allCards s) ≤ bound → 1 ≤ fuel →
  ∃ r s',
    mainLoop w progressCb listUrl targetResults sessionId existingUrls fuel buffer s
    = Some (r, s')
    ∧ trace s' = trace s ∧ results s' = results s
    ∧ (currentUpdatedIndex s' = currentUpdatedIndex s
       ∨ (currentUpdatedIndex s' = length (allCards s')
          ∧ length (allCards s') ≤ bound
          ∧ maxScrollAttempts ≤ scrollAttempts s')).
Proof.
  intros Hcur Hlen Hfuel. destruct fuel as [|fuel]; [lia|]. cbn [mainLoop].
  destruct (Nat.ltb_spec (newFound s) targetResults) as [Hnew|_]; cbn [andb];
    [|exists (Returned tt), s; auto].
  destruct (scrollAttempts s <? maxScrollAttempts); [|exists (Returned tt), s; auto].
  pose proof (mainStep_beyond s Hcur Hlen Hnew) as (M1 & M2 & M3). cbv zeta in *.
  destruct (mainStep _ _ _ _ _ _ _ _) as [[[]|message] s1]; cbn [fst snd] in *.
  - destruct M3 as (M3 & M4 & M5).
    assert (Hspent : (scrollAttempts s1 <? maxScrollAttempts) = false)
      by (apply Nat.ltb_ge; exact M3).
    exists (Returned tt), s1. split; [|auto 6].
    destruct fuel; cbn [mainLoop]; rewrite Hspent, andb_false_r; reflexivity.
  - exists (Thrown message), s1. auto.
Qed.

End BeyondThePage.

Lemma scrapeUrlsAndDetails_beyond
    (w : World) (searchTerm location : string) (maxResults : nat)
    (progressCb : Callback Details) (updatedIndex : nat) (sessionId : string)
    (desiredNewResults : option nat) (buffer : nat) (existingUrls : gset string)
    (bound fuel t : nat) :
  boundedPage w bound → bound < updatedIndex → 1 ≤ fuel →
  ∃ s,
    scrapeUrlsAndDetails w searchTerm location maxResults progressCb updatedIndex
      sessionId desiredNewResults buffer existingUrls fuel t
    = Some (Returned (resultOf s), s)
    ∧ trace s = [] ∧ results s = []
    ∧ (currentUpdatedIndex s = updatedIndex
       ∨ (currentUpdatedIndex s = length (allCards s)
          ∧ length (allCards s) ≤ bound
          ∧ maxScrollAttempts ≤ scrollAttempts s)).
Proof.
  intros Hb Hcur Hfuel. unfold scrapeUrlsAndDetails, scrapeTry.
  destruct (openList w _ t) as [[[]|message] t1];
    [|exists (set_clock t1 (initialLocals t updatedIndex));
      split; [reflexivity|cbn; auto]].
  destruct (querySelector w t1 "div[role=feed]") as [[|]|message];
    [|exists (set_clock (S t1) (initialLocals t updatedIndex));
      split; [reflexivity|cbn; auto]..].
  destruct (mainLoop_beyond w progressCb (mapsUrl w searchTerm location)
              (orElse desiredNewResults maxResults) sessionId existingUrls buffer bound Hb
              fuel (set_clock (S t1) (initialLocals t updatedIndex)))
    as (r & s' & Hloop & T1 & T2 & T3); [cbn; lia|cbn; lia|exact Hfuel|].
  rewrite Hloop. cbn in T1, T2, T3.
  destruct r as [[]|message].
  - rewrite T2. cbn [length].
    destruct (Nat.ltb_spec (orElse desiredNewResults maxResults) 0) as [H|_]; [lia|].
    exists s'. auto.
  - exists s'. auto.
Qed.

(** X14. When the cursor a run starts from lies beyond the last card that
    the page can show, the run extracts nothing and answers with an empty
    list; its cursor stays, or falls back to the number of cards shown after
    the scroll budget is spent.  [scrapeAndEnrich] starts from the number of
    rows in the store: when the store holds more rows than the page can show
    cards it returns the empty list. *)
Theorem cursor_beyond_the_page
    (w : World) (searchTerm location : string) (maxResults : nat)
    (progressCb : Callback Details) (bound fuel : nat) :
  boundedPage w bound → 1 ≤ fuel →
  (∀ updatedIndex sessionId desiredNewResults buffer existingUrls t,
     bound < updatedIndex →
     ∃ s,
       scrapeUrlsAndDetails w searchTerm location maxResults progressCb updatedIndex
         sessionId desiredNewResults buffer existingUrls fuel t
       = Some (Returned (resultOf s), s)
       ∧ trace s = [] ∧ results s = []
       ∧ (currentUpdatedIndex s = updatedIndex
          ∨ (currentUpdatedIndex s = length (allCards s)
             ∧ length (allCards s) ≤ bound
             ∧ maxScrollAttempts ≤ scrollAttempts s)))
  ∧ ∀ known,
      storeSelectUrls w 0 = Returned (Reply (Some known) None) → bound < length known →
      scrapeAndEnrich w searchTerm location maxResults progressCb fuel = Some (Returned []).
Proof.
  intros Hb Hfuel. split.
  - intros. apply scrapeUrlsAndDetails_beyond with (bound := bound); assumption.
  - intros known Hstore Hknown.
    unfold scrapeAndEnrich, reconciled, getPermanentSearchProgress. rewrite Hstore.
    destruct known as [|link links]; [cbn in Hknown; lia|].
    destruct (scrapeUrlsAndDetails_beyond w searchTerm location maxResults progressCb
                (length (link :: links)) (default "" (storeNewSession w 1)) None 20
                (list_to_set (link :: links)) bound fuel 2 Hb Hknown Hfuel)
      as (s & Hrun & _ & T2 & _).
    rewrite Hrun. cbn [ScrapeResult.results resultOf]. rewrite T2. reflexivity.
Qed.

Lemma cursor_beyond_the_page_witness :
  (∃ s,
     scrapeUrlsAndDetails crowdedStore "pharmacies" "Delhi" 2 Scenario.silent 5 "" None 20
       ∅ 1 0
     = Some (Returned (resultOf s), s)
     ∧ trace s = [] ∧ results s = [])
  ∧ (λ r, (currentUpdatedIndex r.2, scrollAttempts r.2))
      <$> scrapeUrlsAndDetails crowdedStore "pharmacies" "Delhi" 2 Scenario.silent 5 ""
            None 20 ∅ 1 0
    = Some (3, 50)
  ∧ scrapeAndEnrich crowdedStore "pharmacies" "Delhi" 2 Scenario.silent 1
    = Some (Returned []).
Proof.
  assert (Hb : boundedPage crowdedStore 3).
  { intros t cards [= <-]. cbn. lia. }
  destruct (cursor_beyond_the_page crowdedStore "pharmacies" "Delhi" 2 Scenario.silent 3 1
              Hb (le_n 1)) as [Hrun Hentry].
  split; [|split].
  - destruct (Hrun 5 "" None 20 ∅ 0) as (s & E & T1 & T2 & _); [lia|].
    exists s. auto.
  - vm_compute. reflexivity.
  - apply (Hentry ["p"; "q"; "r"; "s"; "t"]); [reflexivity|cbn; lia].
Defined.

(** ** The entry point *)

Lemma scrapeAndEnrich_length
    (w : World) (searchTerm location : string) (maxResults : nat)
    (progressCb : Callback Details) (fuel : nat) (returned : list Details) :
  scrapeAndEnrich w searchTerm location maxResults progressCb fuel
  = Some (Returned returned) →
  length returned ≤ maxResults.
Proof.
  unfold scrapeAndEnrich, reconciled.
  destruct (getPermanentSearchProgress w 0)
    as [[[updatedIndex lastRetrievedCount] known]|message]; [|discriminate].
  destruct (scrapeUrlsAndDetails _ _ _ _ _ _ _ _ _ _ _ _) as [[r s]|] eqn:Hrun;
    [|discriminate].
  apply scrapeUrlsAndDetails_invariant in Hrun as [-> Inv].
  cbn [ScrapeResult.results resultOf].
  pose proof (inv_count _ _ _ _ Inv) as Hcount.
  pose proof (inv_bound _ _ _ _ Inv) as Hbound. cbn [orElse] in Hbound.
  destruct (length (results s)) eqn:Hlen; intros [= <-]; [cbn; lia|].
  apply finalCorrection_length. lia.
Qed.

(** X15. [scrapeAndEnrich] never returns more records than were asked for,
    whatever the page and the store do.  So the test script, which prints
    its success line "Found exactly n/12" whenever the list is not shorter
    than 12, prints it for n = 12 only. *)
Theorem scrapeAndEnrich_never_exceeds_the_request (w : World) (fuel : nat) :
  (∀ searchTerm location maxResults progressCb returned,
     scrapeAndEnrich w searchTerm location maxResults progressCb fuel
     = Some (Returned returned) →
     length returned ≤ maxResults)
  ∧ ∀ found targetResults,
      testOptimizedMode w fuel = Some (FoundExactly found targetResults) →
      found = 12 ∧ targetResults = 12.
Proof.
  split.
  - intros searchTerm location maxResults progressCb returned.
    apply scrapeAndEnrich_length.
  - intros found targetResults. unfold testOptimizedMode.
    destruct (scrapeAndEnrich _ _ _ _ _ _) as [[returned|message]|] eqn:Hrun;
      [|discriminate..].
    apply scrapeAndEnrich_length in Hrun. unfold verdict.
    destruct (Nat.ltb_spec (length returned) 12) as [Hlt|Hge]; [discriminate|].
    intros [= <- <-]. split; [lia|reflexivity].
Qed.

Lemma scrapeAndEnrich_never_exceeds_the_request_witness :
  (∃ returned,
     scrapeAndEnrich shortPage "pharmacies" "Delhi" 3 Scenario.silent 3
     = Some (Returned returned)
     ∧ length returned ≤ 3)
  ∧ testOptimizedMode fullPage 3 = Some (FoundExactly 12 12).
Proof.
  destruct (scrapeAndEnrich_never_exceeds_the_request shortPage 3) as [Hshort _].
  destruct (scrapeAndEnrich_never_exceeds_the_request fullPage 3) as [_ Hfull].
  split.
  - eexists. split; [vm_compute; reflexivity|].
    eapply (Hshort "pharmacies" "Delhi" 3 Scenario.silent). vm_compute. reflexivity.
  - assert (E : ∃ found targetResults,
                  testOptimizedMode fullPage 3 = Some (FoundExactly found targetResults))
      by (eexists _, _; vm_compute; reflexivity).
    destruct E as (found & targetResults & E).
    destruct (Hfull found targetResults E) as [-> ->]. exact E.
Defined.

(** X16. When the main loop has met the target, [scrapeAndEnrich] returns
    the list of the main loop as it is, whatever the store answers
    afterwards: exactly as many records as were asked for, with pairwise
    distinct URLs, each with a name, an address and a phone number, and none
    of them with a URL among those that the store answered with to the
    query at the start of the run.  (When that query answers with an error
    the run knows no URL of the store, and nothing is said about them.) *)
Theorem met_target_is_returned_as_it_is
    (w : World) (searchTerm location : string) (maxResults : nat)
    (progressCb : Callback Details) (fuel : nat) (result : ScrapeResult.t) (s : Locals) :
  mainRun w searchTerm location maxResults progressCb fuel = Some (Returned result, s) →
  length (ScrapeResult.results result) = maxResults →
  scrapeAndEnrich w searchTerm location maxResults progressCb fuel
  = Some (Returned (ScrapeResult.results result))
  ∧ NoDup (URL <$> ScrapeResult.results result)
  ∧ (∀ details, details ∈ ScrapeResult.results result → incomplete details = false)
  ∧ ∀ known,
      storeSelectUrls w 0 = Returned (Reply (Some known) None) →
      ∀ details, details ∈ ScrapeResult.results result → URL details ∉ known.
Proof.
  intros Hrun Hlen. split.
  - apply (scrapeAndEnrich_target_met _ _ _ _ _ _ _ s); assumption.
  - unfold mainRun in Hrun.
    destruct (getPermanentSearchProgress w 0)
      as [[[updatedIndex lastRetrievedCount] existingUrls]|message] eqn:Hprogress;
      [|discriminate].
    pose proof (scrapeUrlsAndDetails_provenance _ _ _ _ _ _ _ _ _ _ _ _ _ _ Hrun) as [_ HR].
    apply scrapeUrlsAndDetails_invariant in Hrun as [[= ->] Inv].
    cbn [ScrapeResult.results resultOf]. split; [apply (inv_results_nodup _ _ _ _ Inv)|].
    split; [intros details Hin; apply HR, Hin|].
    intros known Hstore details Hin.
    assert (Hfresh : URL details ∉ existingUrls)
      by apply (inv_extracted_fresh _ _ _ _ Inv), (inv_results_extracted _ _ _ _ Inv), Hin.
    unfold getPermanentSearchProgress in Hprogress. rewrite Hstore in Hprogress.
    destruct known as [|link links]; [apply not_elem_of_nil|].
    injection Hprogress as _ _ <-.
    change (URL details ∉ list_to_set (C := gset string) (link :: links)) in Hfresh.
    rewrite elem_of_list_to_set in Hfresh. exact Hfresh.
Qed.

Lemma met_target_is_returned_as_it_is_witness :
  ∃ result s,
    mainRun resumedWorld "pharmacies" "Delhi" 2 Scenario.silent 3 = Some (Returned result, s)
    ∧ returnedUrls (scrapeAndEnrich resumedWorld "pharmacies" "Delhi" 2 Scenario.silent 3)
      = Some ["c"; "e"]
    ∧ NoDup (URL <$> ScrapeResult.results result)
    ∧ ∀ details,
        details ∈ ScrapeResult.results result → URL details ∉ ["b"; "d"].
Proof.
  eexists _, _. split; [vm_compute; reflexivity|].
  edestruct (met_target_is_returned_as_it_is resumedWorld "pharmacies" "Delhi" 2
               Scenario.silent 3) as (E & Hnd & _ & Hfresh);
    [vm_compute; reflexivity|reflexivity|].
  split; [rewrite E; reflexivity|]. split; [exact Hnd|].
  apply Hfresh. reflexivity.
Defined.

Lemma mainLoop_nothing_wanted w progressCb listUrl sessionId existingUrls fuel buffer s :
  mainLoop w progressCb listUrl 0 sessionId existingUrls fuel buffer s
  = Some (Returned tt, s).
Proof. destruct fuel; reflexivity. Qed.

(** X17. Asked for no result, [scrapeAndEnrich] returns the empty list on
    every page, whenever the query for the stored URLs at its start answers
    (with rows or with an error); its main loop then extracts and stores
    nothing and leaves the cursor where the stored rows put it.  When that
    query throws, [scrapeAndEnrich] throws the same error. *)
Theorem nothing_requested_nothing_done
    (w : World) (searchTerm location : string) (progressCb : Callback Details)
    (fuel : nat) :
  (∀ answer,
     storeSelectUrls w 0 = Returned answer →
     scrapeAndEnrich w searchTerm location 0 progressCb fuel = Some (Returned [])
     ∧ ∃ s updatedIndex lastRetrievedCount existingUrls,
         getPermanentSearchProgress w 0
         = Returned (updatedIndex, lastRetrievedCount, existingUrls)
         ∧ mainRun w searchTerm location 0 progressCb fuel
           = Some (Returned (resultOf s), s)
         ∧ trace s = [] ∧ results s = []
         ∧ currentUpdatedIndex s = updatedIndex)
  ∧ ∀ message,
      storeSelectUrls w 0 = Thrown message →
      scrapeAndEnrich w searchTerm location 0 progressCb fuel = Some (Thrown message).
Proof.
  assert (Hrun :
    ∀ updatedIndex sessionId existingUrls t,
      ∃ s,
        scrapeUrlsAndDetails w searchTerm location 0 progressCb updatedIndex sessionId None
          20 existingUrls fuel t = Some (Returned (resultOf s), s)
        ∧ trace s = [] ∧ results s = [] ∧ currentUpdatedIndex s = updatedIndex).
  { intros updatedIndex sessionId existingUrls t.
    unfold scrapeUrlsAndDetails, scrapeTry.
    destruct (openList w _ t) as [[[]|message] t1];
      [|exists (set_clock t1 (initialLocals t updatedIndex));
        split; [reflexivity|cbn; auto]].
    destruct (querySelector w t1 "div[role=feed]") as [[|]|message];
      [|exists (set_clock (S t1) (initialLocals t updatedIndex));
        split; [reflexivity|cbn; auto]..].
    cbn [orElse]. rewrite mainLoop_nothing_wanted.
    exists (set_clock (S t1) (initialLocals t updatedIndex)).
    split; [reflexivity|cbn; auto]. }
  split.
  - intros answer Hstore.
    destruct (getPermanentSearchProgress_returns w 0 answer Hstore)
      as (updatedIndex & lastRetrievedCount & existingUrls & Hprogress).
    destruct (Hrun updatedIndex (default "" (storeNewSession w 1)) existingUrls 2)
      as (s & E & T1 & T2 & T3).
    split.
    + unfold scrapeAndEnrich, reconciled. rewrite Hprogress, E.
      cbn [ScrapeResult.results resultOf]. rewrite T2. reflexivity.
    + exists s, updatedIndex, lastRetrievedCount, existingUrls.
      split; [exact Hprogress|]. unfold mainRun. rewrite Hprogress. auto.
  - intros message Hstore. unfold scrapeAndEnrich, reconciled, getPermanentSearchProgress.
    rewrite Hstore. reflexivity.
Qed.

Lemma nothing_requested_nothing_done_witness :
  scrapeAndEnrich resumedWorld "pharmacies" "Delhi" 0 Scenario.silent 3 = Some (Returned [])
  ∧ (∃ s,
       mainRun resumedWorld "pharmacies" "Delhi" 0 Scenario.silent 3
       = Some (Returned (resultOf s), s)
       ∧ trace s = [] ∧ results s = [] ∧ currentUpdatedIndex s = 2)
  ∧ scrapeAndEnrich storeDown "pharmacies" "Delhi" 0 Scenario.silent 3
    = Some (Thrown "fetch failed").
Proof.
  destruct (nothing_requested_nothing_done resumedWorld "pharmacies" "Delhi"
              Scenario.silent 3) as [Hanswered _].
  destruct (nothing_requested_nothing_done storeDown "pharmacies" "Delhi"
              Scenario.silent 3) as [_ Hthrown].
  destruct (Hanswered (Reply (Some ["b"; "d"]) None) eq_refl)
    as (E & s & updatedIndex & lastRetrievedCount & existingUrls & Hprogress & Hrun
        & T1 & T2 & T3).
  split; [exact E|]. split.
  - exists s. split; [exact Hrun|]. split; [exact T1|]. split; [exact T2|].
    rewrite T3. vm_compute in Hprogress. injection Hprogress as <- _ _. reflexivity.
  - apply Hthrown. reflexivity.
Defined.

(** ** The URL-only scraper *)

Section ScrapeUrlsFacts.

Variable w : World.
Variables searchTerm location : string.
Variable maxResults : nat.
Variable progressCb : Callback string.
Variable updatedIndex : nat.

(** The loop over the cards keeps the links of the cards that are not
    sponsored and can be read, in the order of the page. *)
Lemma readCards_links total cards :
  ∀ i urls calls t,
    (readCards w progressCb total i cards urls calls t).1.1
    = urls ++ omap visibleLink cards.
Proof.
  induction cards as [|card cards IH]; intros i urls calls t; cbn [readCards].
  - change (omap visibleLink []) with (@nil string). rewrite app_nil_r. reflexivity.
  - change (omap visibleLink (card :: cards))
      with (match visibleLink card with
            | Some link => link :: omap visibleLink cards
            | None => omap visibleLink cards
            end).
    unfold visibleLink at 1.
    destruct (isSponsored card) as [[|]|], (href card) as [link|];
      rewrite IH; try reflexivity.
    rewrite <- app_assoc. reflexivity.
Qed.

(** The cards that the scroll loop ends with were loaded from the page,
    before the loop or in one of its rounds. *)
Lemma scrollToEnd_loaded fuel :
  ∀ cards scrollTries lastCardCount lastNewCardTime endOfList t cards' t',
    scrollToEnd w fuel cards scrollTries lastCardCount lastNewCardTime endOfList t
    = (Returned cards', t') →
    cards' = cards ∨ ∃ at_, querySelectorAll w at_ = Returned cards'.
Proof.
  induction fuel as [|fuel IH]; intros cards tries count time ended t cards' t';
    cbn [scrollToEnd].
  - intros [= <- _]. left. reflexivity.
  - destruct (_ && _); [|intros [= <- _]; left; reflexivity].
    destruct (scrollBy w t); [discriminate|].
    destruct (querySelectorAll w (S t)) as [loaded|message] eqn:Hloaded; [|discriminate].
    destruct (_ <? _ - _).
    + intros [= <- _]. right. exists (S t). exact Hloaded.
    + destruct (endOfListShown w _); [|discriminate].
      intros H. apply IH in H as [-> | H]; [right; exists (S t); exact Hloaded|].
      right. exact H.
Qed.

Lemma take_slice {A} (cards : list A) (start count : nat) :
  take (Nat.min (start + count) (length cards) - start) (drop start cards)
  = take count (drop start cards).
Proof.
  destruct (decide (start + count ≤ length cards)) as [Hle|Hgt].
  - rewrite Nat.min_l by lia. f_equal. lia.
  - rewrite Nat.min_r by lia.
    rewrite !take_ge by (rewrite length_drop; lia). reflexivity.
Qed.

(** X18. [scrapeUrls] returns a list in two cases only, and in both the
    list view has opened.  When the lookup of the feed finds nothing the
    list is empty.  When it finds the feed, the list holds the links of the
    cards that the scroll loop ended with, which the page showed, from
    position [updatedIndex] on, at most [maxResults] cards when
    [maxResults] is positive and all of them when it is 0, in the order of
    the page, leaving out every sponsored card and every card on which
    reading the link or the sponsored mark throws; and whenever the feed is
    found and the scroll loop ends without a throw, [scrapeUrls] returns
    that list. *)
Theorem scrapeUrls_reads_the_visible_cards (t : nat) :
  (∀ urls t',
     scrapeUrls w searchTerm location maxResults progressCb updatedIndex t
     = (Returned urls, t') →
     ∃ t1,
       openList w (mapsUrl w searchTerm location) t = (Returned tt, t1)
       ∧ ((querySelector w t1 "div[role=feed]" = Returned false ∧ urls = [])
          ∨ (querySelector w t1 "div[role=feed]" = Returned true
             ∧ ∃ loaded cards t2 at_,
                 querySelectorAll w (S t1) = Returned loaded
                 ∧ scrollToEnd w 100 loaded 0 (length loaded) (now w (S (S t1))) false
                     (S (S (S t1))) = (Returned cards, t2)
                 ∧ querySelectorAll w at_ = Returned cards
                 ∧ urls = omap visibleLink
                            (match maxResults with
                             | 0 => drop updatedIndex cards
                             | _ => take maxResults (drop updatedIndex cards)
                             end))))
  ∧ ∀ t1 loaded cards t2,
      openList w (mapsUrl w searchTerm location) t = (Returned tt, t1) →
      querySelector w t1 "div[role=feed]" = Returned true →
      querySelectorAll w (S t1) = Returned loaded →
      scrollToEnd w 100 loaded 0 (length loaded) (now w (S (S t1))) false (S (S (S t1)))
      = (Returned cards, t2) →
      ∃ t',
        scrapeUrls w searchTerm location maxResults progressCb updatedIndex t
        = (Returned (omap visibleLink
                       (match maxResults with
                        | 0 => drop updatedIndex cards
                        | _ => take maxResults (drop updatedIndex cards)
                        end)), t').
Proof.
  assert (Hslice : ∀ cards : list Card,
            take (match maxResults with
                  | 0 => length cards
                  | S _ => Nat.min (updatedIndex + maxResults) (length cards)
                  end - updatedIndex) (drop updatedIndex cards)
            = match maxResults with
              | 0 => drop updatedIndex cards
              | _ => take maxResults (drop updatedIndex cards)
              end).
  { intros cards. destruct maxResults as [|n].
    - apply take_ge. rewrite length_drop. lia.
    - apply take_slice. }
  split.
  - intros urls t'. unfold scrapeUrls.
    destruct (openList w _ t) as [[[]|message] t1]; [|discriminate].
    intros Hrun. exists t1. split; [reflexivity|]. revert Hrun.
    destruct (querySelector w t1 "div[role=feed]") as [[|]|message];
      [|intros [= <- _]; left; split; reflexivity|discriminate].
    destruct (querySelectorAll w (S t1)) as [loaded|message] eqn:Hloaded; [|discriminate].
    destruct (scrollToEnd _ _ _ _ _ _ _ _) as [[cards|message] t2] eqn:Hscroll;
      [|discriminate].
    assert (Hat : ∃ at_, querySelectorAll w at_ = Returned cards).
    { apply scrollToEnd_loaded in Hscroll as [-> | H];
        [exists (S t1); exact Hloaded|exact H]. }
    destruct Hat as [at_ Hat].
    rewrite Hslice.
    pose proof (readCards_links
                  (length (match maxResults with
                           | 0 => drop updatedIndex cards
                           | S _ => take maxResults (drop updatedIndex cards)
                           end))
                  (match maxResults with
                   | 0 => drop updatedIndex cards
                   | S _ => take maxResults (drop updatedIndex cards)
                   end) 0 [] [] t2) as Hread.
    destruct (readCards _ _ _ _ _ _ _ _) as [[urls' calls] t3]. cbn [fst] in Hread.
    intros [= <- _]. right. split; [reflexivity|].
    exists loaded, cards, t2, at_. rewrite Hread. auto.
  - intros t1 loaded cards t2 Hopen Hfeed Hloaded Hscroll. unfold scrapeUrls.
    rewrite Hopen, Hfeed, Hloaded, Hscroll, Hslice.
    pose proof (readCards_links
                  (length (match maxResults with
                           | 0 => drop updatedIndex cards
                           | S _ => take maxResults (drop updatedIndex cards)
                           end))
                  (match maxResults with
                   | 0 => drop updatedIndex cards
                   | S _ => take maxResults (drop updatedIndex cards)
                   end) 0 [] [] t2) as Hread.
    destruct (readCards _ _ _ _ _ _ _ _) as [[urls' calls] t3]. cbn [fst] in Hread.
    exists t3. rewrite Hread. reflexivity.
Qed.

End ScrapeUrlsFacts.

Lemma scrapeUrls_reads_the_visible_cards_witness :
  ∃ t' t1,
    scrapeUrls sponsoredFirst "pharmacies" "Delhi" 3 Scenario.silent 1 0
    = (Returned ["a"; "b"], t')
    ∧ openList sponsoredFirst (mapsUrl sponsoredFirst "pharmacies" "Delhi") 0
      = (Returned tt, t1)
    ∧ querySelector sponsoredFirst t1 "div[role=feed]" = Returned true
    ∧ ∃ at_ cards,
        querySelectorAll sponsoredFirst at_ = Returned cards
        ∧ ["a"; "b"] = omap visibleLink (take 3 (drop 1 cards)).
Proof.
  destruct (scrapeUrls_reads_the_visible_cards sponsoredFirst "pharmacies" "Delhi" 3
              Scenario.silent 1 0) as [Hreturned _].
  assert (E : ∃ t', scrapeUrls sponsoredFirst "pharmacies" "Delhi" 3 Scenario.silent 1 0
                    = (Returned ["a"; "b"], t'))
    by (eexists; vm_compute; reflexivity).
  destruct E as [t' E].
  destruct (Hreturned _ _ E)
    as (t1 & Hopen & [[Hfeed _]|(Hfeed & loaded & cards & t2 & at_ & _ & _ & Hat & Hurls)]).
  - vm_compute in Hfeed. discriminate.
  - exists t', t1. split; [exact E|]. split; [exact Hopen|]. split; [exact Hfeed|].
    exists at_, cards. split; [exact Hat|exact Hurls].
Defined.

(** ** The website scraper *)

Lemma withScheme_http link :
  withScheme link = "" ∨ Js.startsWith "http" (withScheme link) = true.
Proof.
  unfold withScheme. destruct link as [|c link]; [left; reflexivity|]. cbn [Js.truthy].
  destruct (Js.startsWith "http" (String c link)) eqn:H; right; [exact H|reflexivity].
Qed.

Lemma toLowerCaseChar_idempotent c :
  toLowerCaseChar (toLowerCaseChar c) = toLowerCaseChar c.
Proof. destruct c as [[] [] [] [] [] [] [] []]; vm_compute; reflexivity. Qed.

Lemma toLowerCase_idempotent s : toLowerCase (toLowerCase s) = toLowerCase s.
Proof.
  induction s as [|c s IH]; [reflexivity|].
  cbn [toLowerCase]. rewrite toLowerCaseChar_idempotent, IH. reflexivity.
Qed.

Lemma toLowerCase_append a b : toLowerCase (a +:+ b) = toLowerCase a +:+ toLowerCase b.
Proof.
  induction a as [|c a IH]; [reflexivity|].
  string_cons. cbn [toLowerCase]. string_cons. rewrite IH. reflexivity.
Qed.

Lemma toLowerCase_join parts :
  toLowerCase (join ", " (toLowerCase <$> parts)) = join ", " (toLowerCase <$> parts).
Proof.
  induction parts as [|part parts IH]; [reflexivity|].
  destruct parts as [|next parts]; [apply toLowerCase_idempotent|].
  change (join ", " (toLowerCase <$> part :: next :: parts))
    with (toLowerCase part +:+ ", " +:+ join ", " (toLowerCase <$> next :: parts)).
  rewrite !toLowerCase_append, toLowerCase_idempotent, IH. reflexivity.
Qed.

Lemma normalContact_empty : normalContact ContactInfo.empty.
Proof. split; [reflexivity|]. repeat split; left; reflexivity. Qed.

Lemma extractFromCurrentPage_normal site t info t' :
  extractFromCurrentPage site t = (Returned info, t') → normalContact info.
Proof.
  unfold extractFromCurrentPage.
  destruct (emailsFound site t) as [emails|]; [|discriminate].
  destruct (linkedProfiles site (S t)) as [socialLinks|]; [|discriminate].
  destruct (writtenProfiles site (S (S t))) as [textSocialLinks|]; [|discriminate].
  intros [= <- _]. split; [|repeat split; apply withScheme_http].
  cbn [ContactInfo.email]. destruct (0 <? length emails); [|reflexivity].
  apply toLowerCase_join.
Qed.

Lemma extractFromCurrentPage_clock site t info t' :
  extractFromCurrentPage site t = (Returned info, t') → t' = S (S (S t)).
Proof.
  unfold extractFromCurrentPage.
  destruct (emailsFound site t); [|discriminate].
  destruct (linkedProfiles site (S t)); [|discriminate].
  destruct (writtenProfiles site (S (S t))); [|discriminate].
  intros [= _ <-]. reflexivity.
Qed.

(** The answer of [scrapeWebsiteForContactInfo] is the empty object, what
    the homepage gave, or what the contact page gave. *)
Lemma scrapeWebsiteForContactInfo_source w site websiteUrl t :
  let answer := scrapeWebsiteForContactInfo w site websiteUrl t in
  let home := extractFromCurrentPage site (S t) in
  answer.1 = ContactInfo.empty
  ∨ home.1 = Returned answer.1
  ∨ ∃ result,
      home.1 = Returned result ∧ ContactInfo.email result = ""
      ∧ (extractFromCurrentPage site (S (S home.2))).1 = Returned answer.1
      ∧ anyContact answer.1 = true.
Proof.
  cbv zeta. unfold scrapeWebsiteForContactInfo.
  destruct (Js.truthy websiteUrl); cbn [negb]; [|left; reflexivity].
  destruct (goto w t websiteUrl); [left; reflexivity|].
  destruct (extractFromCurrentPage site (S t)) as [[result|message] t1] eqn:Hhome;
    [|left; reflexivity].
  cbn [fst snd].
  destruct (ContactInfo.email result) as [|c rest] eqn:Hemail; cbn [Js.truthy negb];
    [|right; left; reflexivity].
  destruct (contactPage site t1) as [contactHref|message]; [|left; reflexivity].
  destruct (_ && _); [|right; left; reflexivity].
  unfold visitContactPage.
  destruct (goto w (S t1) contactHref); [right; left; reflexivity|].
  destruct (extractFromCurrentPage site (S (S t1))) as [[contactResult|message] t2]
    eqn:Hcontact; [|right; left; reflexivity].
  destruct (anyContact contactResult) eqn:Hany; [|right; left; reflexivity].
  right. right. exists result. cbn [fst]. auto.
Qed.

Lemma scrapeWebsiteForContactInfo_normal w site websiteUrl t :
  normalContact (scrapeWebsiteForContactInfo w site websiteUrl t).1.
Proof.
  destruct (scrapeWebsiteForContactInfo_source w site websiteUrl t)
    as [E|[E|(result & _ & _ & E & _)]].
  - rewrite E. apply normalContact_empty.
  - destruct (extractFromCurrentPage site (S t)) as [r t1] eqn:Hhome. cbn [fst] in E.
    subst r. apply (extractFromCurrentPage_normal _ _ _ _ Hhome).
  - destruct (extractFromCurrentPage site (S (S _))) as [r t2] eqn:Hcontact.
    cbn [fst] in E. subst r. apply (extractFromCurrentPage_normal _ _ _ _ Hcontact).
Qed.

(** X19. Whatever the website shows and whatever fails on it,
    [scrapeWebsiteForContactInfo] answers with a contact object in normal
    form: the e-mail addresses are in lower case, and each social link is
    empty or starts with "http".  For an empty address it answers with the
    empty object without touching the page. *)
Theorem website_contacts_are_normalised
    (w : World) (site : Site) (websiteUrl : string) (t : nat) :
  let info := (scrapeWebsiteForContactInfo w site websiteUrl t).1 in
  toLowerCase (ContactInfo.email info) = ContactInfo.email info
  ∧ (ContactInfo.instagram info = ""
     ∨ Js.startsWith "http" (ContactInfo.instagram info) = true)
  ∧ (ContactInfo.linkedin info = ""
     ∨ Js.startsWith "http" (ContactInfo.linkedin info) = true)
  ∧ (ContactInfo.facebook info = ""
     ∨ Js.startsWith "http" (ContactInfo.facebook info) = true)
  ∧ scrapeWebsiteForContactInfo w site "" t = (ContactInfo.empty, t).
Proof.
  cbv zeta.
  destruct (scrapeWebsiteForContactInfo_normal w site websiteUrl t) as (N1 & N2 & N3 & N4).
  split; [exact N1|]. split; [exact N2|]. split; [exact N3|]. split; [exact N4|reflexivity].
Qed.

(** X20. The answer of [scrapeWebsiteForContactInfo] comes from one page:
    it is the empty object, or what the homepage gave, or what the contact
    page gave; the two are never merged, so that the links of the homepage
    are given up when the contact page shows anything.  The contact page is
    visited only when the homepage shows no e-mail address: otherwise the
    answer is that of the homepage, after four calls on the page. *)
Theorem website_answer_comes_from_one_page
    (w : World) (site : Site) (websiteUrl : string) (t : nat) :
  let answer := scrapeWebsiteForContactInfo w site websiteUrl t in
  let home := extractFromCurrentPage site (S t) in
  (answer.1 = ContactInfo.empty
   ∨ home.1 = Returned answer.1
   ∨ ∃ result,
       home.1 = Returned result ∧ ContactInfo.email result = ""
       ∧ (extractFromCurrentPage site (S (S home.2))).1 = Returned answer.1
       ∧ anyContact answer.1 = true)
  ∧ ∀ result,
      websiteUrl ≠ "" → goto w t websiteUrl = None →
      home.1 = Returned result → ContactInfo.email result ≠ "" →
      answer = (result, t + 4).
Proof.
  cbv zeta. split; [apply scrapeWebsiteForContactInfo_source|].
  intros result Hurl Hgoto Hhome Hemail. unfold scrapeWebsiteForContactInfo.
  destruct websiteUrl as [|c rest]; [contradiction|]. cbn [Js.truthy negb].
  rewrite Hgoto.
  destruct (extractFromCurrentPage site (S t)) as [r t1] eqn:Hextract. cbn [fst] in Hhome.
  subst r. apply extractFromCurrentPage_clock in Hextract as ->.
  destruct (ContactInfo.email result); [contradiction|]. cbn [Js.truthy negb].
  f_equal. lia.
Qed.

Lemma website_answer_comes_from_one_page_witness :
  let w := Scenario.quiet [] Scenario.complete Scenario.accepted [] [] in
  (extractFromCurrentPage twoPages 1).1
  = Returned {| ContactInfo.email := "";
                ContactInfo.instagram := "https://instagram.com/shop";
                ContactInfo.linkedin := ""; ContactInfo.facebook := "" |}
  ∧ (scrapeWebsiteForContactInfo w twoPages "https://shop.example" 0).1
    = {| ContactInfo.email := "info@shop.example"; ContactInfo.instagram := "";
         ContactInfo.linkedin := ""; ContactInfo.facebook := "" |}
  ∧ scrapeWebsiteForContactInfo w twoPages "https://shop.example" 10
    = ({| ContactInfo.email := "info@shop.example"; ContactInfo.instagram := "";
          ContactInfo.linkedin := ""; ContactInfo.facebook := "" |}, 14).
Proof.
  intros w. split; [reflexivity|]. split; [reflexivity|].
  destruct (website_answer_comes_from_one_page w twoPages "https://shop.example" 10)
    as [_ H].
  apply (H {| ContactInfo.email := "info@shop.example"; ContactInfo.instagram := "";
              ContactInfo.linkedin := ""; ContactInfo.facebook := "" |});
    [discriminate|reflexivity|reflexivity|discriminate].
Defined.

(** ** The batch runner *)

Section BatchFacts.

Variable browser : Browser.
Variable highStealth : bool.
Variable progressCb : Callback Details.
Variable batchSize : nat.
Variable urls : list string.

Lemma promiseAll_fulfilled batch :
  ∀ position results,
    promiseAll browser highStealth position batch = Fulfilled results →
    results = imap (λ k, enrichedAt browser (position + k)) batch.
Proof.
  induction batch as [|link batch IH]; intros position results; cbn [promiseAll].
  - intros [= <-]. reflexivity.
  - unfold worker at 1.
    destruct (_ && _); [|discriminate]. destruct (_ && _); [|discriminate].
    destruct (promiseAll _ _ _ batch) as [others|] eqn:Hrest; [|discriminate].
    intros [= <-]. apply IH in Hrest as ->.
    cbn [imap]. unfold enrichedAt at 1. rewrite Nat.add_0_r. f_equal.
    apply imap_ext. intros k link' _. unfold compose.
    replace (S position + k) with (position + S k) by lia. reflexivity.
Qed.

Lemma batchesFrom_fulfilled fuel :
  ∀ i results out,
    batchesFrom browser highStealth progressCb batchSize urls fuel i results
    = Some (Fulfilled out) →
    out = results ++ imap (λ k, enrichedAt browser (i + k)) (drop i urls).
Proof.
  induction fuel as [|fuel IH]; intros i results out; cbn [batchesFrom].
  - destruct (Nat.ltb_spec i (length urls)) as [Hlt|Hge]; [discriminate|].
    intros [= <-]. rewrite drop_ge by exact Hge. rewrite app_nil_r. reflexivity.
  - destruct (Nat.ltb_spec i (length urls)) as [Hlt|Hge].
    2:{ intros [= <-]. rewrite drop_ge by exact Hge. rewrite app_nil_r. reflexivity. }
    destruct (if highStealth then true else contextOpens browser i); [|discriminate].
    destruct (promiseAll _ _ _ _) as [batchResults|] eqn:Hall; [|discriminate].
    destruct (if highStealth then true else contextCloses browser i); [|discriminate].
    destruct (progressCb _ _ _); [discriminate|].
    intros H. apply IH in H as ->. apply promiseAll_fulfilled in Hall as ->.
    rewrite <- app_assoc. f_equal.
    rewrite <- (take_drop batchSize (drop i urls)) at 2.
    rewrite imap_app. f_equal. rewrite drop_drop.
    apply imap_ext. intros k link Hk. apply lookup_lt_Some in Hk.
    rewrite length_drop in Hk. rewrite length_take, length_drop.
    replace (i + batchSize + k) with (i + (batchSize `min` (length urls - i) + k)) by lia.
    reflexivity.
Qed.

End BatchFacts.

Lemma URL_enrich w site link : URL (enrich w site link) = link.
Proof.
  unfold enrich.
  pose proof (extractBusinessDetails_URL w link 0) as H.
  destruct (extractBusinessDetails w link 0) as [result t]. exact H.
Qed.

Lemma URL_imap (f : nat → string → Details) (links : list string) :
  (∀ k link, URL (f k link) = link) → URL <$> imap f links = links.
Proof.
  revert f. induction links as [|link links IH]; intros f Hf; [reflexivity|].
  cbn [imap fmap list_fmap]. rewrite Hf. f_equal. apply IH. intros k link'. apply Hf.
Qed.

(** The contact fields that a worker adds to a record. *)
Lemma enrich_contact w site link :
  let details := enrich w site link in
  (Website details = "" →
   Email details = "" ∧ Instagram details = "" ∧ LinkedIn details = ""
   ∧ Facebook details = "")
  ∧ normalContact
      {| ContactInfo.email := Email details; ContactInfo.instagram := Instagram details;
         ContactInfo.linkedin := LinkedIn details; ContactInfo.facebook := Facebook details |}.
Proof.
  cbv zeta. unfold enrich.
  destruct (extractBusinessDetails w link 0) as [result t].
  cbn [Website Email Instagram LinkedIn Facebook].
  destruct (Website result) as [|c rest] eqn:Hsite; cbn [Js.truthy].
  - split; [auto|apply normalContact_empty].
  - split; [discriminate|].
    destruct (scrapeWebsiteForContactInfo_normal w site (String c rest) t)
      as (N1 & N2 & N3 & N4).
    split; [exact N1|]. split; [exact N2|]. split; [exact N3|exact N4].
Qed.

Section BatchProperties.

Variable browser : Browser.
Variable highStealth : bool.
Variable progressCb : Callback Details.
Variable batchSize : nat.
Variable urls : list string.

(** X21. When [processUrlsInBatches] returns, its list holds one record
    for every URL it was given, in the order of the URLs, and each record is
    what the worker built on the page of that URL: the batch size and the
    stealth level have no part in the list.  A record without a website has
    empty contact fields; the contact fields of the others are in normal
    form. *)
Theorem batches_answer_one_record_per_url (fuel : nat) (out : list Details) :
  processUrlsInBatches browser highStealth progressCb batchSize urls fuel
  = Some (Fulfilled out) →
  out = imap (enrichedAt browser) urls
  ∧ URL <$> out = urls
  ∧ ∀ details,
      details ∈ out →
      (Website details = "" →
       Email details = "" ∧ Instagram details = "" ∧ LinkedIn details = ""
       ∧ Facebook details = "")
      ∧ toLowerCase (Email details) = Email details
      ∧ (Instagram details = "" ∨ Js.startsWith "http" (Instagram details) = true)
      ∧ (LinkedIn details = "" ∨ Js.startsWith "http" (LinkedIn details) = true)
      ∧ (Facebook details = "" ∨ Js.startsWith "http" (Facebook details) = true).
Proof.
  unfold processUrlsInBatches. intros H.
  apply batchesFrom_fulfilled in H. cbn [app drop] in H. subst out.
  split; [apply imap_ext; intros; reflexivity|].
  split.
  - apply URL_imap. intros k link. apply URL_enrich.
  - intros details Hin. apply elem_of_lookup_imap in Hin as (k & link & -> & _).
    destruct (enrich_contact (pageOf browser k) (siteOf browser k) link) as [E N].
    split; [exact E|exact N].
Qed.

Lemma batchesFrom_ends fuel :
  ∀ i results,
    0 < batchSize → length urls - i ≤ fuel →
    ∃ r, batchesFrom browser highStealth progressCb batchSize urls fuel i results = Some r.
Proof.
  induction fuel as [|fuel IH]; intros i results Hsize Hfuel; cbn [batchesFrom];
    destruct (Nat.ltb_spec i (length urls)) as [Hlt|Hge]; try lia; eauto.
  destruct (if highStealth then true else contextOpens browser i); [|eauto].
  destruct (promiseAll _ _ _ _); [|eauto].
  destruct (if highStealth then true else contextCloses browser i); [|eauto].
  destruct (progressCb _ _ _); [eauto|].
  apply IH; [exact Hsize|lia].
Qed.

Lemma batchesFrom_runs_on fuel :
  ∀ results out,
    urls ≠ [] →
    batchesFrom browser highStealth progressCb 0 urls fuel 0 results ≠ Some (Fulfilled out).
Proof.
  induction fuel as [|fuel IH]; intros results out Hurls; cbn [batchesFrom];
    (destruct (Nat.ltb_spec 0 (length urls)) as [Hlt|Hge];
       [|destruct urls; [contradiction|cbn in Hge; lia]]); [discriminate|].
  destruct (if highStealth then true else contextOpens browser 0); [|discriminate].
  destruct (promiseAll _ _ _ _); [|discriminate].
  destruct (if highStealth then true else contextCloses browser 0); [|discriminate].
  destruct (progressCb _ _ _); [discriminate|].
  apply IH, Hurls.
Qed.

End BatchProperties.

(** X22. With a positive batch size [processUrlsInBatches] ends after at
    most as many batches as there are URLs.  With the batch size 0 and a URL
    to work on, the loop never moves on: the function does not return a
    list, however long it runs. *)
Theorem batches_end_for_a_positive_size
    (browser : Browser) (highStealth : bool) (progressCb : Callback Details)
    (urls : list string) :
  (∀ batchSize fuel,
     0 < batchSize → length urls ≤ fuel →
     ∃ r, processUrlsInBatches browser highStealth progressCb batchSize urls fuel = Some r)
  ∧ ∀ fuel out,
      urls ≠ [] →
      processUrlsInBatches browser highStealth progressCb 0 urls fuel
      ≠ Some (Fulfilled out).
Proof.
  split.
  - intros batchSize fuel Hsize Hfuel. apply batchesFrom_ends; [exact Hsize|lia].
  - intros fuel out Hurls. apply batchesFrom_runs_on, Hurls.
Qed.

Lemma batches_answer_one_record_per_url_witness :
  ∃ out,
    processUrlsInBatches calmBrowser false Scenario.silent 2 ["a"; "b"; "c"] 3
    = Some (Fulfilled out)
    ∧ URL <$> out = ["a"; "b"; "c"]
    ∧ Email <$> out = ["info@shop.example"; "info@shop.example"; "info@shop.example"].
Proof.
  eexists. split; [vm_compute; reflexivity|].
  edestruct (batches_answer_one_record_per_url calmBrowser false Scenario.silent 2
               ["a"; "b"; "c"] 3) as (_ & E & _); [vm_compute; reflexivity|].
  split; [exact E|reflexivity].
Defined.

Lemma batches_end_for_a_positive_size_witness :
  (∃ r, processUrlsInBatches calmBrowser true Scenario.silent 2 ["a"; "b"; "c"] 3 = Some r)
  ∧ ∀ out,
      processUrlsInBatches calmBrowser true Scenario.silent 0 ["a"; "b"; "c"] 1000
      ≠ Some (Fulfilled out).
Proof.
  destruct (batches_end_for_a_positive_size calmBrowser true Scenario.silent ["a"; "b"; "c"])
    as [Hends Hruns].
  split.
  - apply Hends; [lia|cbn; lia].
  - intros out. apply Hruns. discriminate.
Defined.

(** ** The result list and the store *)

Lemma committedRows_app tr1 tr2 :
  committedRows (tr1 ++ tr2) = committedRows tr1 ++ committedRows tr2.
Proof.
  induction tr1 as [|[link|record [|]|p snap] tr1 IH]; cbn; try exact IH; [reflexivity|].
  rewrite IH. reflexivity.
Qed.

Lemma submittedUrls_app tr1 tr2 :
  submittedUrls (tr1 ++ tr2) = submittedUrls tr1 ++ submittedUrls tr2.
Proof.
  induction tr1 as [|[link|record ok|p snap] tr1 IH]; cbn; try exact IH; [reflexivity|].
  rewrite IH. reflexivity.
Qed.

Lemma url_withSession sessionId details :
  url (withSession sessionId (mapToSupabaseColumns details)) = URL details.
Proof. unfold withSession. destruct (Js.truthy sessionId); reflexivity. Qed.

Lemma roundEffect_committed w targetResults sessionId link s s' :
  roundEffect w targetResults sessionId link s s' →
  resultsAreCommitted sessionId (trace s) (results s) →
  resultsAreCommitted sessionId (trace s') (results s').
Proof.
  unfold resultsAreCommitted.
  intros [Ht Hr _|Ht Hr _|details Hurl _ Ht Hr _|details Hurl _ Ht Hr _] H;
    rewrite Ht, Hr, ?committedRows_app, ?fmap_app, H; cbn; rewrite ?app_nil_r; reflexivity.
Qed.

Lemma roundEffect_submitted w targetResults sessionId link s s' :
  roundEffect w targetResults sessionId link s s' →
  submittedAfterExtraction (trace s) (results s) →
  submittedAfterExtraction (trace s') (results s').
Proof.
  unfold submittedAfterExtraction.
  intros [Ht Hr _|Ht Hr _|details Hurl _ Ht Hr _|details Hurl _ Ht Hr _] H;
    rewrite Ht, ?submittedUrls_app, ?extracted_app; cbn;
    rewrite ?app_nil_r, ?url_withSession, ?Hurl.
  - exact H.
  - apply sublist_inserts_r, H.
  - apply sublist_app; [exact H|reflexivity].
  - apply sublist_app; [exact H|reflexivity].
Qed.

(** X23. The list that [scrapeUrlsAndDetails] answers with is, in order,
    the list of the records for which [insertWithRetry] answered [true]: no
    record whose insert failed is returned, and none that was committed is
    left out. *)
Theorem returned_records_are_the_committed_rows
    (w : World) (searchTerm location : string) (maxResults : nat)
    (progressCb : Callback Details) (updatedIndex : nat) (sessionId : string)
    (desiredNewResults : option nat) (buffer : nat) (existingUrls : gset string)
    (fuel t : nat) (result : ScrapeResult.t) (s : Locals) :
  scrapeUrlsAndDetails w searchTerm location maxResults progressCb updatedIndex
    sessionId desiredNewResults buffer existingUrls fuel t = Some (Returned result, s) →
  committedRows (trace s)
  = (λ details, withSession sessionId (mapToSupabaseColumns details))
      <$> ScrapeResult.results result.
Proof.
  intros Hrun.
  pose proof (scrapeUrlsAndDetails_kept _ _ _ _ _ _ _ _ _ _
                (resultsAreCommitted sessionId) _ _ _ _ eq_refl
                (λ link index s0,
                   roundEffect_committed _ _ _ _ _ _
                     (processUrl_effect _ _ _ _ _ link index s0)) Hrun) as H.
  apply scrapeUrlsAndDetails_invariant in Hrun as [[= ->] _]. exact H.
Qed.

Lemma returned_records_are_the_committed_rows_witness :
  ∃ result s,
    scrapeUrlsAndDetails exactFit "pharmacies" "Delhi" 2 Scenario.silent 0 "" None 20 ∅ 3 0
    = Some (Returned result, s)
    ∧ url <$> committedRows (trace s) = ["a"; "b"]
    ∧ committedRows (trace s)
      = (λ details, withSession "" (mapToSupabaseColumns details))
          <$> ScrapeResult.results result.
Proof.
  eexists _, _. split; [vm_compute; reflexivity|]. split; [reflexivity|].
  eapply (returned_records_are_the_committed_rows exactFit "pharmacies" "Delhi" 2
            Scenario.silent 0 "" None 20 ∅ 3 0).
  vm_compute. reflexivity.
Defined.

(** X24. In a run of [scrapeUrlsAndDetails] no URL is handed to the store
    twice, and none that was in the set of known URLs the run was given:
    the URLs of the rows handed to [insertWithRetry] are, in order, among
    the URLs handed to the extractor, and no candidate is extracted
    twice. *)
Theorem no_url_is_submitted_twice
    (w : World) (searchTerm location : string) (maxResults : nat)
    (progressCb : Callback Details) (updatedIndex : nat) (sessionId : string)
    (desiredNewResults : option nat) (buffer : nat) (existingUrls : gset string)
    (fuel t : nat) (r : outcome ScrapeResult.t) (s : Locals) :
  scrapeUrlsAndDetails w searchTerm location maxResults progressCb updatedIndex
    sessionId desiredNewResults buffer existingUrls fuel t = Some (r, s) →
  sublist (submittedUrls (trace s)) (extracted (trace s))
  ∧ NoDup (submittedUrls (trace s))
  ∧ ∀ link, link ∈ submittedUrls (trace s) → link ∉ existingUrls.
Proof.
  intros Hrun.
  pose proof (scrapeUrlsAndDetails_kept _ _ _ _ _ _ _ _ _ _
                submittedAfterExtraction _ _ _ _ (@sublist_nil string : submittedAfterExtraction [] [])
                (λ link index s0,
                   roundEffect_submitted _ _ _ _ _ _
                     (processUrl_effect _ _ _ _ _ link index s0)) Hrun) as H.
  apply scrapeUrlsAndDetails_invariant in Hrun as [_ Inv].
  unfold submittedAfterExtraction in H.
  split; [exact H|]. split.
  - eapply sublist_NoDup; [apply (inv_extracted_nodup _ _ _ _ Inv)|exact H].
  - intros link Hin. apply (inv_extracted_fresh _ _ _ _ Inv).
    eapply elem_of_sublist; [exact Hin|exact H].
Qed.

Lemma no_url_is_submitted_twice_witness :
  ∃ r s,
    scrapeUrlsAndDetails resumedWorld "pharmacies" "Delhi" 2 Scenario.silent 0 "" None 20
      {["b"; "d"]} 3 2 = Some (r, s)
    ∧ submittedUrls (trace s) = ["a"; "c"]
    ∧ NoDup (submittedUrls (trace s)).
Proof.
  eexists _, _. split; [vm_compute; reflexivity|]. split; [reflexivity|].
  eapply (no_url_is_submitted_twice resumedWorld "pharmacies" "Delhi" 2 Scenario.silent 0 ""
            None 20 {["b"; "d"]} 3 2).
  vm_compute. reflexivity.
Defined.

(** * The run boundary *)




